(** * emart-crawl-api: the crawl-and-sync pipeline

    A shallow embedding of [emart_json.py] (the category crawler) and of
    [firebase_uploader.py] (the Firestore upserter), with the properties
    of the pagination loop, of the chunked sleep, of the price-history
    diff and of the upload run.

    Python integers are [Z]; durations (Python floats) are exact
    rationals [Q]; dictionaries are [gmap]s or records; the Firestore
    collections and the snapshot directories are finite maps.  Effects
    (the stop event, HTTP, sleeping, files, the store) go through a small
    state-and-exception monad whose state carries a trace of the calls
    made to the outside world.  What the outside world answers is given by
    oracles indexed by the time of the call, the time being the number of
    calls made so far. *)

From Stdlib Require Import QArith Qminmax Qround Lqa.
From stdpp Require Import gmap strings list.
Close Scope Q_scope.

(** Python truthiness of a [str]: only the empty string is falsy. *)
Definition truthy (s : string) : bool :=
  match s with
  | EmptyString => false
  | String _ _ => true
  end.

(** A [threading.Event] seen from the worker thread: whether the flag is
    set at each instant.  Another thread may set or clear it at any time. *)
Definition Event : Type := nat → bool.

(** [bool(ev and ev.is_set())] at instant [t]. *)
Definition flag_at (ev : option Event) (t : nat) : bool :=
  match ev with
  | Some e => e t
  | None => false
  end.

(* ===================================================================== *)
(** * The category crawler, [emart_json.py] *)
(* ===================================================================== *)

Module Crawler.

(** One scraped product, the dictionary built at the end of
    [scrape_emart_category_page]. *)
Record Item : Type := mkItem {
  id : string;
  category : string;
  product_name : string;
  product_address : string;
  original_price : string;
  selling_price : string;
  image_url : string;
  quantity : string;
  out_of_stock : string;
  last_updated : string
}.

(** The exceptions the two handlers of the category [try] block catch:
    [requests.exceptions.RequestException] and any other [Exception]. *)
Inductive exn : Type :=
| RequestException
| OtherException.

(** Calls to the outside world, in the order they are made. *)
Inductive event : Type :=
| EvStop (b : bool)                        (* _should_stop(stop_event) answered b *)
| EvGet (disp_ctg_id : string) (page : Z)  (* session.get(page_url) *)
| EvScraped (page : Z) (items : list Item) (* scrape_emart_category_page returned items *)
| EvSleep (t : Q)                          (* time.sleep(t) *)
| EvDump (out_path : string) (data : list Item). (* json.dump(collected, f) *)

(** The values [run_scraper] reads from the environment, after parsing
    and clamping. *)
Record Config : Type := mkConfig {
  start_page : Z;
  end_page : option Z;
  page_cap : Z;
  page_delay : Q;
  empty_page_stop : Z;
  partial_save_every : Z
}.

(** The state: the trace, the files under [result_json/], and the local
    variables of [run_scraper] for the category being crawled. *)
Record World : Type := mkWorld {
  trace : list event;
  files : gmap string (list Item);
  collected : list Item;
  seen_ids : gset string;
  consecutive_empty : Z;
  page_num : Z;
  visited_pages : Z
}.

Definition now (w : World) : nat := length (trace w).

Definition log (e : event) (w : World) : World :=
  mkWorld (trace w ++ [e]) (files w) (collected w) (seen_ids w)
          (consecutive_empty w) (page_num w) (visited_pages w).

Definition set_files (f : gmap string (list Item)) (w : World) : World :=
  mkWorld (trace w) f (collected w) (seen_ids w)
          (consecutive_empty w) (page_num w) (visited_pages w).

Definition set_collected (c : list Item) (w : World) : World :=
  mkWorld (trace w) (files w) c (seen_ids w)
          (consecutive_empty w) (page_num w) (visited_pages w).

Definition set_seen_ids (s : gset string) (w : World) : World :=
  mkWorld (trace w) (files w) (collected w) s
          (consecutive_empty w) (page_num w) (visited_pages w).

Definition set_consecutive_empty (n : Z) (w : World) : World :=
  mkWorld (trace w) (files w) (collected w) (seen_ids w)
          n (page_num w) (visited_pages w).

Definition set_page_num (n : Z) (w : World) : World :=
  mkWorld (trace w) (files w) (collected w) (seen_ids w)
          (consecutive_empty w) n (visited_pages w).

Definition set_visited_pages (n : Z) (w : World) : World :=
  mkWorld (trace w) (files w) (collected w) (seen_ids w)
          (consecutive_empty w) (page_num w) n.

(** ** The monad *)

(** A computation returns, raises, or exhausts the fuel of a [while]. *)
Inductive res (A : Type) : Type :=
| Ret (a : A)
| Raise (e : exn)
| Timeout.
Arguments Ret {A} a.
Arguments Raise {A} e.
Arguments Timeout {A}.

Definition M (A : Type) : Type := World → res A * World.

#[global] Instance M_ret : MRet M := λ A a w, (Ret a, w).

#[global] Instance M_bind : MBind M := λ A B f m w,
  match m w with
  | (Ret a, w') => f a w'
  | (Raise e, w') => (Raise e, w')
  | (Timeout, w') => (Timeout, w')
  end.

Definition raise {A} (e : exn) : M A := λ w, (Raise e, w).
Definition timeout {A} : M A := λ w, (Timeout, w).
Definition gets {A} (f : World → A) : M A := λ w, (Ret (f w), w).
Definition modify (f : World → World) : M unit := λ w, (Ret tt, f w).

(** [try: body except Exception: handler]. *)
Definition try_catch {A} (body : M A) (handler : exn → M A) : M A := λ w,
  match body w with
  | (Raise e, w') => handler e w'
  | r => r
  end.

(** ** Cancellation and the chunked sleep *)

Definition _should_stop (ev : option Event) : M bool := λ w,
  let b := flag_at ev (now w) in (Ret b, log (EvStop b) w).

Definition time_sleep (t : Q) : M unit := modify (log (EvSleep t)).

(** The [while remain > 0] loop of [_sleep_with_cancel].  [remain] and the
    steps are exact rationals: the rounding of the binary64 subtraction
    [remain -= t] is left out, so the number of passes, and for a duration
    so large that the subtraction no longer changes [remain] whether the
    loop ends at all, are those of exact arithmetic. *)
Fixpoint sleep_loop (fuel : nat) (ev : option Event) (step remain : Q) : M unit :=
  match fuel with
  | O => timeout
  | S fuel' =>
      if Qlt_le_dec 0 remain then
        stop ← _should_stop ev;
        if (stop : bool) then mret tt
        else
          let t := Qmin step remain in
          time_sleep t ;;
          sleep_loop fuel' ev step (remain - t)%Q
      else mret tt
  end.

(** Every step but the last sleeps at least 0.01s, so the loop body runs
    at most [ceil (100 * total_sec)] times. *)
Definition sleep_fuel (total_sec : Q) : nat :=
  S (Z.to_nat (Qceiling (100 * total_sec)%Q)).

Definition _sleep_with_cancel (total_sec : Q) (ev : option Event) (tick : Q) : M unit :=
  if Qlt_le_dec 0 total_sec then
    let remain := total_sec in
    let step := Qmax 0.01%Q (Qmin tick total_sec) in
    sleep_loop (sleep_fuel total_sec) ev step remain
  else mret tt.

(** ** The page loop *)

(** The [dedupe by id] loop: the records of one page that are kept, and
    the seen-id set afterwards. *)
Fixpoint dedupe (items : list Item) (seen : gset string) : list Item * gset string :=
  match items with
  | [] => ([], seen)
  | it :: rest =>
      let pid := id it in
      if truthy pid && bool_decide (pid ∈ seen) then dedupe rest seen
      else
        let seen1 := if truthy pid then {[pid]} ∪ seen else seen in
        let '(new_items, seen2) := dedupe rest seen1 in
        (it :: new_items, seen2)
  end.

Definition out_path_of (category_name : string) : string :=
  "result_json/" +:+ category_name +:+ ".json".

(** [with open(out_path, "w") as f: json.dump(data, f)].  The write is
    taken to succeed: an [open] that raises (for a category name that is
    not a file name, say) is left out. *)
Definition json_dump (out_path : string) (data : list Item) : M unit :=
  modify (λ w, set_files (<[out_path := data]> (files w)) (log (EvDump out_path data) w)).

Section Run.

(** A page as the two parsers see it; both are outside the core. *)
Context {Html : Type}.
Variable scrape_emart_category_page : Html → string → list Item.
Variable _has_next_page_by_dom : Html → option bool.

(** What [session.get] followed by [raise_for_status] gives for a
    category id and a page number at a given instant. *)
Variable site : string → Z → nat → exn + Html.

Variable cfg : Config.
Variable stop_event : option Event.

Definition session_get (disp_ctg_id : string) (page : Z) : M Html := λ w,
  let w' := log (EvGet disp_ctg_id page) w in
  match site disp_ctg_id page (now w) with
  | inl e => (Raise e, w')
  | inr html => (Ret html, w')
  end.

(** Termination logic A: the consecutive-empty-page counter.  Returns
    [true] when the loop has to [break]. *)
Definition empty_page_check (new_items : list Item) : M bool := λ w,
  if bool_decide (length new_items = 0%nat) then
    let n := (consecutive_empty w + 1)%Z in
    let w' := set_consecutive_empty n w in
    if bool_decide (0 < empty_page_stop cfg)%Z && bool_decide (empty_page_stop cfg ≤ n)%Z
    then (Ret true, w')
    else (Ret false, w')
  else (Ret false, set_consecutive_empty 0 w).

(** The optional partial save, after [visited_pages += 1]. *)
Definition partial_save (category_name : string) : M unit := λ w,
  if bool_decide (0 < partial_save_every cfg)%Z
     && bool_decide ((visited_pages w) `mod` (partial_save_every cfg) = 0)%Z
  then json_dump (out_path_of category_name) (collected w) w
  else (Ret tt, w).

(** One pass through the body of [while True]; [true] means the loop goes
    round again, [false] that it hit a [break]. *)
Definition page_body (category_name disp_ctg_id : string) : M bool :=
  stop ← _should_stop stop_event;
  if (stop : bool) then mret false else
  pn ← gets page_num;
  if match end_page cfg with
     | Some e => bool_decide (e < pn)%Z
     | None => false
     end
  then mret false else
  vp ← gets visited_pages;
  if bool_decide (page_cap cfg ≤ vp)%Z then mret false else
  stop ← _should_stop stop_event;
  if (stop : bool) then mret false else
  html ← session_get disp_ctg_id pn;
  stop ← _should_stop stop_event;
  if (stop : bool) then mret false else
  let items := scrape_emart_category_page html category_name in
  modify (log (EvScraped pn items)) ;;
  seen ← gets seen_ids;
  let '(new_items, seen') := dedupe items seen in
  modify (set_seen_ids seen') ;;
  modify (λ w, set_collected (collected w ++ new_items) w) ;;
  brk ← empty_page_check new_items;
  if (brk : bool) then mret false else
  if bool_decide (_has_next_page_by_dom html = Some false) then mret false else
  modify (λ w, set_visited_pages (visited_pages w + 1) w) ;;
  partial_save category_name ;;
  modify (λ w, set_page_num (page_num w + 1) w) ;;
  _sleep_with_cancel (page_delay cfg) stop_event 0.1%Q ;;
  mret true.

Fixpoint page_loop (fuel : nat) (category_name disp_ctg_id : string) : M unit :=
  match fuel with
  | O => timeout
  | S fuel' =>
      again ← page_body category_name disp_ctg_id;
      if (again : bool) then page_loop fuel' category_name disp_ctg_id
      else mret tt
  end.

(** [visited_pages] grows by one each time round and the loop leaves once
    it reaches [page_cap]. *)
Definition page_fuel : nat := S (Z.to_nat (page_cap cfg)).

(** The body of [for category_name, disp_ctg_id in categories.items()]
    after the first stop check; [true] means [run_scraper] returns. *)
Definition crawl_category (category_name disp_ctg_id : string) : M bool :=
  modify (set_collected []) ;;
  modify (set_seen_ids ∅) ;;
  modify (set_consecutive_empty 0) ;;
  try_catch
    (modify (set_page_num (start_page cfg)) ;;
     modify (set_visited_pages 0) ;;
     page_loop page_fuel category_name disp_ctg_id ;;
     data ← gets collected;
     json_dump (out_path_of category_name) data ;;
     stop ← _should_stop stop_event;
     if (stop : bool) then mret true else mret false)
    (λ e, mret false).

Fixpoint category_loop (categories : list (string * string)) : M unit :=
  match categories with
  | [] => mret tt
  | (category_name, disp_ctg_id) :: rest =>
      stop ← _should_stop stop_event;
      if (stop : bool) then mret tt else
      ret ← crawl_category category_name disp_ctg_id;
      if (ret : bool) then mret tt else category_loop rest
  end.

Definition run_scraper (categories : list (string * string)) : M unit :=
  category_loop categories.

End Run.

(** ** Observations on traces *)

(** The state after further calls [evs]. *)
Definition extend (evs : list event) (w : World) : World :=
  mkWorld (trace w ++ evs) (files w) (collected w) (seen_ids w)
          (consecutive_empty w) (page_num w) (visited_pages w).

(** The page numbers requested, in order. *)
Definition fetched_pages (evs : list event) : list Z :=
  flat_map (λ e, match e with EvGet _ p => [p] | _ => [] end) evs.

(** The records extracted, page after page. *)
Definition scraped_of (evs : list event) : list Item :=
  flat_map (λ e, match e with EvScraped _ items => items | _ => [] end) evs.

(** The calls a sleep may make. *)
Definition quiet (e : event) : Prop :=
  match e with
  | EvStop _ | EvSleep _ => True
  | _ => False
  end.

(** The calls of one [_sleep_with_cancel] started at instant [t0], with
    steps of at most [step]: checks and sleeps alternate, and a check that
    finds the flag set ends it. *)
Inductive sleep_run (ev : option Event) (step : Q) : nat → list event → Prop :=
| sleep_done t0 :
    sleep_run ev step t0 []
| sleep_cancelled t0 :
    flag_at ev t0 = true →
    sleep_run ev step t0 [EvStop true]
| sleep_step t0 t rest :
    flag_at ev t0 = false →
    (0 < t)%Q → (t <= step)%Q →
    sleep_run ev step (S (S t0)) rest →
    sleep_run ev step t0 (EvStop false :: EvSleep t :: rest).

(** The ids that count for deduplication. *)
Definition keyed_ids (l : list Item) : list string :=
  List.filter truthy (id <$> l).

(** First-seen order, in the words of the specification: going through the
    records in order, a record is dropped exactly when its id is not empty
    and an earlier record carried it. *)
Fixpoint first_seen (earlier : list string) (l : list Item) : list Item :=
  match l with
  | [] => []
  | x :: rest =>
      if truthy (id x) && bool_decide (id x ∈ earlier)
      then first_seen (id x :: earlier) rest
      else x :: first_seen (id x :: earlier) rest
  end.

(** The number of new records each page of a sequence yields, the seen-id
    set being threaded from page to page. *)
Fixpoint page_yields (pages : list (list Item)) (seen : gset string) : list nat :=
  match pages with
  | [] => []
  | items :: rest =>
      let '(new_items, seen') := dedupe items seen in
      length new_items :: page_yields rest seen'
  end.

(** ** Invariants of the page loop *)

(** The buffer and the seen-id set are the deduplication of everything
    extracted so far. *)
Definition buffer_ok (evs : list event) (w : World) : Prop :=
  collected w = (dedupe (scraped_of evs) ∅).1
  ∧ seen_ids w = (dedupe (scraped_of evs) ∅).2.

(** What holds each time the loop is at [while True], [evs] being the calls
    made since the category started in [w0]. *)
Definition at_head (cfg : Config) (w0 : World) (evs : list event) (w : World) : Prop :=
  trace w = trace w0 ++ evs
  ∧ buffer_ok evs w
  ∧ Z.of_nat (length (fetched_pages evs)) = visited_pages w
  ∧ (visited_pages w ≤ Z.max 0 (page_cap cfg))%Z
  ∧ (0 ≤ consecutive_empty w)%Z
  ∧ ((0 < empty_page_stop cfg)%Z → (consecutive_empty w < empty_page_stop cfg)%Z).

(** What holds when the loop is left, by [break] or by an exception. *)
Definition at_exit (cfg : Config) (w0 : World) (evs : list event) (w : World) : Prop :=
  trace w = trace w0 ++ evs
  ∧ buffer_ok evs w
  ∧ (Z.of_nat (length (fetched_pages evs)) ≤ Z.max 0 (page_cap cfg))%Z
  ∧ ((0 < empty_page_stop cfg)%Z → (consecutive_empty w ≤ empty_page_stop cfg)%Z)
  ∧ ((0 < empty_page_stop cfg)%Z → consecutive_empty w = empty_page_stop cfg →
       ∃ pn items, last evs = Some (EvScraped pn items)).

(** The state in which [crawl_category] enters the page loop. *)
Definition fresh (cfg : Config) (w : World) : World :=
  set_visited_pages 0
    (set_page_num (start_page cfg)
       (set_consecutive_empty 0 (set_seen_ids ∅ (set_collected [] w)))).

(** ** Scenarios *)

Definition item_of (pid : string) : Item :=
  mkItem pid "Fruits" "name" "address" "100" "90" "image" "1 ea" EmptyString
         "2024-01-01T00:00:00".

(** A page given by what the two parsers read from it. *)
Definition Page : Type := list Item * option bool.
Definition scrape_page (html : Page) (category_name : string) : list Item := html.1.
Definition next_of_page (html : Page) : option bool := html.2.

(** Five products, five more, two already seen, nothing, then more. *)
Definition fruits_page (n : Z) : list Item :=
  if bool_decide (n = 1)%Z then item_of <$> ["a1"; "a2"; "a3"; "a4"; "a5"]
  else if bool_decide (n = 2)%Z then item_of <$> ["b1"; "b2"; "b3"; "b4"; "b5"]
  else if bool_decide (n = 3)%Z then item_of <$> ["a1"; "b2"]
  else if bool_decide (n = 4)%Z then []
  else item_of <$> ["c1"; "c2"].

Definition fruits_site (disp_ctg_id : string) (n : Z) (t : nat) : exn + Page :=
  inr (fruits_page n, None).

(** The same site, except that the request for page 2 fails. *)
Definition failing_site (disp_ctg_id : string) (n : Z) (t : nat) : exn + Page :=
  if bool_decide (n = 2)%Z then inl RequestException else inr (fruits_page n, None).

(** The defaults of [run_scraper]: pages from 1, no end page, cap 500,
    2s between pages, stop after 2 empty pages, no partial save. *)
Definition default_cfg : Config := mkConfig 1 None 500 2.0%Q 2 0.

(** A cap of 3 pages, no delay, the empty-page stop switched off. *)
Definition capped_cfg : Config := mkConfig 1 None 3 0%Q 0 0.

Definition empty_world : World := mkWorld [] ∅ [] ∅ 0 0 0.

(** ** Further observations on a crawl *)

(** The files once the saves of [evs] are made. *)
Definition files_after (fs : gmap string (list Item)) (evs : list event)
    : gmap string (list Item) :=
  foldl (λ fs e, match e with EvDump out_path data => <[out_path := data]> fs | _ => fs end)
        fs evs.

(** Every save of [evs] goes to [out_path] and writes the deduplication of
    the records extracted before it, [acc] being those extracted before
    [evs]. *)
Fixpoint saves_ok (out_path : string) (acc : list Item) (evs : list event) : Prop :=
  match evs with
  | [] => True
  | EvScraped _ items :: rest => saves_ok out_path (acc ++ items) rest
  | EvDump p data :: rest =>
      p = out_path ∧ data = (dedupe acc ∅).1 ∧ saves_ok out_path acc rest
  | _ :: rest => saves_ok out_path acc rest
  end.

(** From instant [t] on, every stop check of [evs] answers what the flag
    is at its instant, and every request and every sleep comes right after
    a check that found the flag clear; [clear] tells whether the call
    before [evs] was such a check. *)
Fixpoint guarded (ev : option Event) (t : nat) (clear : bool) (evs : list event) : Prop :=
  match evs with
  | [] => True
  | EvStop b :: rest => b = flag_at ev t ∧ guarded ev (S t) (negb b) rest
  | EvGet _ _ :: rest => clear = true ∧ guarded ev (S t) false rest
  | EvSleep _ :: rest => clear = true ∧ guarded ev (S t) false rest
  | _ :: rest => guarded ev (S t) false rest
  end.

(** The category ids requested, in order. *)
Definition fetched_ids (evs : list event) : list string :=
  flat_map (λ e, match e with EvGet c _ => [c] | _ => [] end) evs.

Section Steps.

Context {Html : Type}.
Variable scrape_emart_category_page : Html → string → list Item.
Variable _has_next_page_by_dom : Html → option bool.
Variable site : string → Z → nat → exn + Html.
Variable cfg : Config.
Variable stop_event : option Event.
Variables category_name disp_ctg_id : string.

(** The checks of one pass that come before the request: the flag is
    clear twice, the end page is not passed, the cap is not reached. *)
Definition may_request (w : World) : Prop :=
  flag_at stop_event (now w) = false
  ∧ (∀ e, end_page cfg = Some e → (page_num w ≤ e)%Z)
  ∧ (visited_pages w < page_cap cfg)%Z
  ∧ flag_at stop_event (now w + 1) = false.

(** The calls of one pass up to the extraction of the page. *)
Definition pass_events (html : Html) (w : World) : list event :=
  [EvStop false; EvStop false; EvGet disp_ctg_id (page_num w); EvStop false;
   EvScraped (page_num w) (scrape_emart_category_page html category_name)].

(** The state once the records of the page are merged into the buffer. *)
Definition merged (html : Html) (w : World) : World :=
  let d := dedupe (scrape_emart_category_page html category_name) (seen_ids w) in
  set_collected (collected w ++ d.1) (set_seen_ids d.2 (extend (pass_events html w) w)).

(** The new records of the page. *)
Definition yield (html : Html) (w : World) : list Item :=
  (dedupe (scrape_emart_category_page html category_name) (seen_ids w)).1.

(** The state in which the pass goes to sleep: page counted, partial
    save made if due, page number advanced. *)
Definition advanced (html : Html) (w : World) : World :=
  let w1 := (empty_page_check cfg (yield html w) (merged html w)).2 in
  let w2 := (partial_save cfg category_name
               (set_visited_pages (visited_pages w1 + 1) w1)).2 in
  set_page_num (page_num w2 + 1) w2.

(** The ways through one pass of [while True], from [w]: the result of
    the pass and the state it leaves. *)
Inductive body_step (w : World) : res bool → World → Prop :=
| step_stop_first :
    flag_at stop_event (now w) = true →
    body_step w (Ret false) (extend [EvStop true] w)
| step_end_page e :
    flag_at stop_event (now w) = false →
    end_page cfg = Some e → (e < page_num w)%Z →
    body_step w (Ret false) (extend [EvStop false] w)
| step_page_cap :
    flag_at stop_event (now w) = false →
    (page_cap cfg ≤ visited_pages w)%Z →
    body_step w (Ret false) (extend [EvStop false] w)
| step_stop_second :
    flag_at stop_event (now w) = false →
    flag_at stop_event (now w + 1) = true →
    body_step w (Ret false) (extend [EvStop false; EvStop true] w)
| step_raise e :
    may_request w →
    site disp_ctg_id (page_num w) (now w + 2) = inl e →
    body_step w (Raise e)
      (extend [EvStop false; EvStop false; EvGet disp_ctg_id (page_num w)] w)
| step_stop_third html :
    may_request w →
    site disp_ctg_id (page_num w) (now w + 2) = inr html →
    flag_at stop_event (now w + 3) = true →
    body_step w (Ret false)
      (extend [EvStop false; EvStop false; EvGet disp_ctg_id (page_num w); EvStop true] w)
| step_break html :
    may_request w →
    site disp_ctg_id (page_num w) (now w + 2) = inr html →
    flag_at stop_event (now w + 3) = false →
    (empty_page_check cfg (yield html w) (merged html w)).1 = Ret true
    ∨ _has_next_page_by_dom html = Some false →
    body_step w (Ret false) (empty_page_check cfg (yield html w) (merged html w)).2
| step_again html evs :
    may_request w →
    site disp_ctg_id (page_num w) (now w + 2) = inr html →
    flag_at stop_event (now w + 3) = false →
    (empty_page_check cfg (yield html w) (merged html w)).1 = Ret false →
    _has_next_page_by_dom html ≠ Some false →
    _sleep_with_cancel (page_delay cfg) stop_event 0.1 (advanced html w)
    = (Ret tt, extend evs (advanced html w)) →
    sleep_run stop_event (Qmax 0.01 (Qmin 0.1 (page_delay cfg)))
              (now (advanced html w)) evs →
    body_step w (Ret true) (extend evs (advanced html w)).

End Steps.

(** ** Further invariants of the page loop *)

(** What holds each time the loop is at [while True], [evs] being the
    calls made since the category started in [w0]: the pages requested are
    the [visited_pages] pages from [start_page] on, every save wrote the
    deduplicated buffer to the category's file, the files are what the
    saves made them, and no request or sleep went unguarded. *)
Definition crawl_head (cfg : Config) (ev : option Event) (category_name : string)
    (w0 : World) (evs : list event) (w : World) : Prop :=
  trace w = trace w0 ++ evs
  ∧ buffer_ok evs w
  ∧ (0 ≤ visited_pages w ≤ Z.max 0 (page_cap cfg))%Z
  ∧ page_num w = (start_page cfg + visited_pages w)%Z
  ∧ fetched_pages evs = seqZ (start_page cfg) (visited_pages w)
  ∧ (∀ e, end_page cfg = Some e → (0 < visited_pages w)%Z →
       (start_page cfg + visited_pages w - 1 ≤ e)%Z)
  ∧ saves_ok (out_path_of category_name) [] evs
  ∧ files w = files_after (files w0) evs
  ∧ guarded ev (now w0) false evs.

(** What holds when the loop is left, by [break] or by an exception. *)
Definition crawl_exit (cfg : Config) (ev : option Event) (category_name : string)
    (w0 : World) (evs : list event) (w : World) : Prop :=
  trace w = trace w0 ++ evs
  ∧ buffer_ok evs w
  ∧ (∃ n, (0 ≤ n ≤ Z.max 0 (page_cap cfg))%Z
          ∧ fetched_pages evs = seqZ (start_page cfg) n
          ∧ (∀ e, end_page cfg = Some e → (0 < n)%Z → (start_page cfg + n - 1 ≤ e)%Z))
  ∧ saves_ok (out_path_of category_name) [] evs
  ∧ files w = files_after (files w0) evs
  ∧ guarded ev (now w0) false evs.

(** The files saved to, in order. *)
Definition saved_paths (evs : list event) : list string :=
  flat_map (λ e, match e with EvDump out_path _ => [out_path] | _ => [] end) evs.

(** The calls of a run over [categories]: one stretch for each category
    taken up, in the order of the list, then calls that neither request
    nor save.  The stretch of a category requests pages of that category
    only, at most [page_cap] of them, consecutive from [start_page], and
    saves to the file of that category only. *)
Inductive crawls (cfg : Config) : list (string * string) → list event → Prop :=
| crawls_end categories tail :
    fetched_pages tail = [] → saved_paths tail = [] →
    crawls cfg categories tail
| crawls_category category_name disp_ctg_id rest stretch evs n :
    (0 ≤ n ≤ Z.max 0 (page_cap cfg))%Z →
    fetched_pages stretch = seqZ (start_page cfg) n →
    Forall (λ c, c = disp_ctg_id) (fetched_ids stretch) →
    Forall (λ p, p = out_path_of category_name) (saved_paths stretch) →
    crawls cfg rest evs →
    crawls cfg ((category_name, disp_ctg_id) :: rest) (stretch ++ evs).

(** ** The helpers of the page parser *)

(** [s.startswith(p)]. *)
Definition startswith (s p : string) : bool := String.prefix p s.

Definition _absolutize_url (raw : string) : string :=
  if negb (truthy raw) then EmptyString
  else if startswith raw "//" then "https:" +:+ raw
  else if startswith raw "http" then raw
  else "https://emart.ssg.com" +:+ raw.

(** [a or b] on values that are a [str] or [None]. *)
Definition or_else (a b : option string) : option string :=
  match a with
  | Some s => if truthy s then a else b
  | None => b
  end.

(** What the selectors of [scrape_emart_category_page] find in one [li]
    of the product list: the texts and attributes of the tags selected,
    [None] when [select_one] finds no tag (or the tag lacks the
    attribute). *)
Record Card : Type := mkCard {
  brand_text : option string;         (* span.mnemitem_goods_brand *)
  title_text : option string;         (* span.mnemitem_goods_tit *)
  link_href : option string;          (* div > a, its href *)
  link_alt_href : option string;      (* div.mnemitem_thmb_v2 > a, its href *)
  new_price_text : option string;     (* div.new_price em *)
  second_price_text : option string;  (* div:nth-child(2) > div > em *)
  old_price_text : option string;     (* div.ty_oldpr del em *)
  first_price_text : option string;   (* div:nth-child(1) > div > em *)
  img_sources : option (option string * option string * option string);
                                      (* img: data-src, data-original, src *)
  unit_price_text : option string;    (* div.unit_price *)
  sold_out : bool                     (* div.mnemitem_soldout is there *)
}.

Section Parser.

(** Outside the core: [re.sub] with a pattern, [urllib.parse],
    [str.strip] and the clock. *)
Variable _parse_price : string → string.
Variable _extract_item_id_from_url : string → string.
Variable strip : string → string.
Variable now_isoformat : nat → string.

(** [" ".join(parts)]. *)
Fixpoint join_spaces (parts : list string) : string :=
  match parts with
  | [] => EmptyString
  | [p] => p
  | p :: rest => p +:+ " " +:+ join_spaces rest
  end.

(** The body of [for item in product_items], for the [n]-th item. *)
Definition item_of_card (category_name : string) (n : nat) (item : Card) : Item :=
  let last_updated := now_isoformat n in
  let parts :=
    match brand_text item with
    | Some b => if truthy b then ["[" +:+ b +:+ "]"] else []
    | None => []
    end ++
    match title_text item with
    | Some t => if truthy t then [t] else []
    | None => []
    end in
  let product_name := strip (join_spaces parts) in
  let product_address :=
    match link_href item with
    | Some href => _absolutize_url href
    | None => EmptyString
    end in
  let product_address :=
    if negb (truthy product_address) then
      match link_alt_href item with
      | Some href => _absolutize_url href
      | None => product_address
      end
    else product_address in
  let pid := _extract_item_id_from_url product_address in
  let selling_price :=
    match new_price_text item, second_price_text item with
    | Some sp1, _ => _parse_price sp1
    | None, Some sp2 => _parse_price sp2
    | None, None => EmptyString
    end in
  let original_price :=
    match old_price_text item, first_price_text item with
    | Some op1, _ => _parse_price op1
    | None, Some op2 => _parse_price op2
    | None, None => EmptyString
    end in
  let image_url :=
    match img_sources item with
    | Some (data_src, data_original, src) =>
        let raw := or_else data_src (or_else data_original src) in
        _absolutize_url (default EmptyString (or_else raw (Some EmptyString)))
    | None => EmptyString
    end in
  let quantity := default EmptyString (unit_price_text item) in
  let out_of_stock := if sold_out item then "Y" else EmptyString in
  mkItem pid category_name product_name product_address original_price selling_price
         image_url quantity out_of_stock last_updated.

(** [scrape_emart_category_page], on the items of the product list. *)
Definition scrape_cards (product_items : list Card) (category_name : string) : list Item :=
  imap (item_of_card category_name) product_items.

End Parser.

(** An address as the parser leaves it: empty, or beginning with
    [http]. *)
Definition absolute_or_empty (url : string) : Prop :=
  url = EmptyString ∨ startswith url "http" = true.

(** ** The settings read from the environment *)

Section Settings.

(** [int(s)] and [float(s)], [None] when they raise; [str.strip]. *)
Variable int : string → option Z.
Variable float : string → option Q.
Variable strip : string → string.

(** The first lines of [run_scraper]: the six settings, each with its
    default when the variable is missing or does not parse.  The defaults
    are written as what [int] and [float] give on the default strings. *)
Definition read_config (environ : gmap string string) : Config :=
  let start_page :=
    match environ !! "EMART_START_PAGE" with
    | Some s => default 1%Z (int s)
    | None => 1%Z
    end in
  let start_page := if bool_decide (start_page < 1)%Z then 1%Z else start_page in
  let end_page_raw :=
    match environ !! "EMART_END_PAGE" with
    | Some s => if truthy s then strip s else EmptyString
    | None => EmptyString
    end in
  let end_page :=
    if bool_decide (end_page_raw = EmptyString) then None
    else match int end_page_raw with
         | Some v => if bool_decide (v ≤ 0)%Z then None else Some v
         | None => None
         end in
  let page_cap :=
    match environ !! "EMART_PAGE_CAP" with
    | Some s => match int s with
                | Some v => Z.max 1 v
                | None => 500%Z
                end
    | None => Z.max 1 500
    end in
  let page_delay :=
    match environ !! "EMART_PAGE_DELAY_SEC" with
    | Some s => default 2.0%Q (float s)
    | None => 2.0%Q
    end in
  let empty_page_stop :=
    match environ !! "EMART_EMPTY_PAGE_STOP" with
    | Some s => default 2%Z (int s)
    | None => 2%Z
    end in
  let partial_save_every :=
    match environ !! "EMART_PARTIAL_SAVE_EVERY" with
    | Some s => default 0%Z (int s)
    | None => 0%Z
    end in
  mkConfig start_page end_page page_cap page_delay empty_page_stop partial_save_every.

End Settings.

(** A record as the parser builds it for [category_name]: the category is
    the one asked for, the two addresses are empty or absolute, the stock
    flag is empty or [Y]. *)
Definition wellformed (category_name : string) (it : Item) : Prop :=
  category it = category_name
  ∧ absolute_or_empty (product_address it)
  ∧ absolute_or_empty (image_url it)
  ∧ (out_of_stock it = EmptyString ∨ out_of_stock it = "Y").

(** ** The pace of the requests and the end of the pages *)

(** The sleep steps of positive length made since the last request,
    [acc] being their number before [evs]; [None] as long as no request
    was made. *)
Fixpoint steps_since_get (acc : option nat) (evs : list event) : option nat :=
  match evs with
  | [] => acc
  | EvGet _ _ :: rest => steps_since_get (Some 0%nat) rest
  | EvSleep t :: rest =>
      steps_since_get ((λ n, if Qlt_le_dec 0 t then S n else n) <$> acc) rest
  | _ :: rest => steps_since_get acc rest
  end.

(** Every request of [evs] that follows another one comes after at least
    [need] such steps since that one. *)
Fixpoint spaced (need : nat) (acc : option nat) (evs : list event) : Prop :=
  match evs with
  | [] => True
  | EvGet _ _ :: rest =>
      match acc with
      | Some n => need ≤ n
      | None => True
      end ∧ spaced need (Some 0%nat) rest
  | EvSleep t :: rest =>
      spaced need ((λ n, if Qlt_le_dec 0 t then S n else n) <$> acc) rest
  | _ :: rest => spaced need acc rest
  end.

(** The sleep steps a delay asks for between two requests: at least one
    when it is positive. *)
Definition steps_needed (delay : Q) : nat :=
  if Qlt_le_dec 0 delay then 1%nat else 0%nat.

Section Served.

Context {Html : Type}.
Variable _has_next_page_by_dom : Html → option bool.
Variable site : string → Z → nat → exn + Html.

(** The request made at instant [t] was answered by a page that does not
    say it is the last one. *)
Definition goes_on (disp_ctg_id : string) (page : Z) (t : nat) : Prop :=
  ∃ html, site disp_ctg_id page t = inr html ∧ _has_next_page_by_dom html ≠ Some false.

(** From instant [t] on, every request of [evs] was answered by a page
    that goes on. *)
Fixpoint all_go_on (t : nat) (evs : list event) : Prop :=
  match evs with
  | [] => True
  | EvGet c p :: rest => goes_on c p t ∧ all_go_on (S t) rest
  | _ :: rest => all_go_on (S t) rest
  end.

(** The same, for every request of [evs] that is followed by another
    one. *)
Fixpoint served (t : nat) (evs : list event) : Prop :=
  match evs with
  | [] => True
  | EvGet c p :: rest => (fetched_pages rest ≠ [] → goes_on c p t) ∧ served (S t) rest
  | _ :: rest => served (S t) rest
  end.

(** What holds of the answers at [while True], and when the loop is
    left. *)
Definition dom_head (w0 : World) (evs : list event) (w : World) : Prop :=
  trace w = trace w0 ++ evs ∧ all_go_on (now w0) evs.

Definition dom_exit (w0 : World) (evs : list event) (w : World) : Prop :=
  trace w = trace w0 ++ evs ∧ served (now w0) evs.

End Served.

(** Once set, the flag stays set. *)
Definition sticky (ev : option Event) : Prop :=
  ∀ t t', t ≤ t' → flag_at ev t = true → flag_at ev t' = true.

(** At [while True]: the requests so far were spaced, and the last of
    them is the steps needed behind unless the flag is set. *)
Definition pace_head (cfg : Config) (ev : option Event)
    (w0 : World) (evs : list event) (w : World) : Prop :=
  trace w = trace w0 ++ evs
  ∧ spaced (steps_needed (page_delay cfg)) None evs
  ∧ match steps_since_get None evs with
    | Some n => steps_needed (page_delay cfg) ≤ n ∨ flag_at ev (now w) = true
    | None => True
    end.

(** When the loop is left. *)
Definition pace_exit (cfg : Config) (w0 : World) (evs : list event) (w : World) : Prop :=
  trace w = trace w0 ++ evs ∧ spaced (steps_needed (page_delay cfg)) None evs.

End Crawler.

(* ===================================================================== *)
(** * The Firestore upserter, [firebase_uploader.py] *)
(* ===================================================================== *)

Module Uploader.

(** What [dict.get(key)] gives on a record of strings: [None] when the key
    is absent (or null). *)
Definition value : Type := option string.

(** One record of a snapshot file, a JSON object. *)
Definition Product : Type := gmap string string.

(** The [price_info] dictionary, one entry of [price_history]. *)
Record PriceInfo : Type := mkPriceInfo {
  original_price : value;
  selling_price : value;
  info_last_updated : value
}.

(** The [top_level_update_data] dictionary without its optional
    [price_history] key. *)
Record TopLevel : Type := mkTopLevel {
  id : string;
  out_of_stock : value;
  quantity : value;
  last_updated : value
}.

(** A document of the [emart_price] collection. *)
Record PriceDoc : Type := mkPriceDoc {
  top_level : TopLevel;
  price_history : list PriceInfo
}.

(** A document of the [emart_product] collection, a flat dictionary. *)
Definition ProductDoc : Type := gmap string string.

(** A snapshot file: its directory and its base name. *)
Definition path : Type := string * string.

(** The fallible calls to the outside world. *)
Inductive call : Type :=
| CInit     (* initialize_firebase() *)
| CLoad     (* open(json_file) and json.load(f) *)
| CStore    (* ref.get(), ref.set(...), ref.update(...) *)
| CRemove   (* os.remove(json_file) *)
| CNotify.  (* _notify_embedding_server(counters) *)

(** An exception, by the call that raised it. *)
Inductive exn : Type :=
| Exception (c : call).

Definition str (e : exn) : string :=
  match e with
  | Exception CInit => "initialize_firebase failed"
  | Exception CLoad => "snapshot file unreadable"
  | Exception CStore => "store call failed"
  | Exception CRemove => "remove failed"
  | Exception CNotify => "notification failed"
  end.

(** The places where [_should_stop(stop_event)] is called. *)
Inductive check_site : Type :=
| AtStart
| FileLoop
| DocLoop (json_file : path)
| BeforeNotify.

(** Calls to the outside world, in the order they are made. *)
Inductive event : Type :=
| EvStop (s : check_site) (b : bool)     (* _should_stop(stop_event) answered b *)
| EvInit                                 (* initialize_firebase() *)
| EvGlob (directory_path : string)       (* glob.glob(directory_path/*.json) *)
| EvLoad (json_file : path)              (* open(json_file), json.load(f) *)
| EvGet (collection doc : string)        (* db.collection(..).document(..).get() *)
| EvSet (collection doc : string)        (* ref.set(..) *)
| EvUpdate (collection doc : string)     (* ref.update(..) *)
| EvRemove (json_file : path)            (* os.remove(json_file) *)
| EvNotify (counters : list (string * nat)). (* _notify_embedding_server(counters) *)

(** The state: the trace, the five counters of [upload_json_to_firestore],
    the two collections and the snapshot files. *)
Record World : Type := mkWorld {
  trace : list event;
  price_updated_count : nat;
  price_skipped_count : nat;
  product_new_count : nat;
  product_updated_count : nat;
  product_skipped_count : nat;
  emart_price : gmap string PriceDoc;
  emart_product : gmap string ProductDoc;
  snapshots : gmap path (list Product)
}.

Definition now (w : World) : nat := length (trace w).

Definition log (e : event) (w : World) : World :=
  mkWorld (trace w ++ [e]) (price_updated_count w) (price_skipped_count w)
          (product_new_count w) (product_updated_count w) (product_skipped_count w)
          (emart_price w) (emart_product w) (snapshots w).

Definition set_counts (a b c d e : nat) (w : World) : World :=
  mkWorld (trace w) a b c d e (emart_price w) (emart_product w) (snapshots w).

Definition set_emart_price (m : gmap string PriceDoc) (w : World) : World :=
  mkWorld (trace w) (price_updated_count w) (price_skipped_count w)
          (product_new_count w) (product_updated_count w) (product_skipped_count w)
          m (emart_product w) (snapshots w).

Definition set_emart_product (m : gmap string ProductDoc) (w : World) : World :=
  mkWorld (trace w) (price_updated_count w) (price_skipped_count w)
          (product_new_count w) (product_updated_count w) (product_skipped_count w)
          (emart_price w) m (snapshots w).

Definition set_snapshots (m : gmap path (list Product)) (w : World) : World :=
  mkWorld (trace w) (price_updated_count w) (price_skipped_count w)
          (product_new_count w) (product_updated_count w) (product_skipped_count w)
          (emart_price w) (emart_product w) m.

(** The [counters] dictionary literal. *)
Definition counters_of (w : World) : list (string * nat) :=
  [ ("price_updated", price_updated_count w);
    ("price_skipped", price_skipped_count w);
    ("product_new", product_new_count w);
    ("product_updated", product_updated_count w);
    ("product_skipped", product_skipped_count w) ].

(** [d.get(key)] on a dictionary given as a list of pairs. *)
Fixpoint dict_get {A} (key : string) (d : list (string * A)) : option A :=
  match d with
  | [] => None
  | (k, v) :: rest => if String.eqb k key then Some v else dict_get key rest
  end.

(** The dictionary returned by [upload_json_to_firestore]; a key that is
    not in the dictionary is [None]. *)
Record Result : Type := mkResult {
  status : string;
  message : option string;
  counters : option (list (string * nat));
  error : option string
}.

(** ** The monad *)

Inductive res (A : Type) : Type :=
| Ret (a : A)
| Raise (e : exn).
Arguments Ret {A} a.
Arguments Raise {A} e.

Definition M (A : Type) : Type := World → res A * World.

#[global] Instance M_ret : MRet M := λ A a w, (Ret a, w).

#[global] Instance M_bind : MBind M := λ A B f m w,
  match m w with
  | (Ret a, w') => f a w'
  | (Raise e, w') => (Raise e, w')
  end.

Definition gets {A} (f : World → A) : M A := λ w, (Ret (f w), w).
Definition modify (f : World → World) : M unit := λ w, (Ret tt, f w).

Definition try_catch {A} (body : M A) (handler : exn → M A) : M A := λ w,
  match body w with
  | (Raise e, w') => handler e w'
  | r => r
  end.

Section Run.

(** Whether the call of kind [c] made at instant [t] raises. *)
Variable raises : call → nat → bool.

Variable stop_event : option Event.

(** A fallible call: logged, then raising or carrying on with [k]. *)
Definition external {A} (c : call) (e : event) (k : M A) : M A := λ w,
  if raises c (now w) then (Raise (Exception c), log e w) else k (log e w).

Definition _should_stop (s : check_site) : M bool := λ w,
  let b := flag_at stop_event (now w) in (Ret b, log (EvStop s b) w).

Definition initialize_firebase : M unit :=
  external CInit EvInit (mret tt).

(** ** The store *)

(** [db.collection("emart_price").document(product_id).get()]. *)
Definition price_get (product_id : string) : M (option PriceDoc) :=
  external CStore (EvGet "emart_price" product_id)
    (gets (λ w, emart_price w !! product_id)).

(** [price_ref.set(data, merge=True)]: the top-level fields are
    overwritten; [price_history] is overwritten when [data] has the key and
    kept otherwise. *)
Definition price_set_merge (product_id : string) (data : TopLevel)
    (history : option (list PriceInfo)) : M unit :=
  external CStore (EvSet "emart_price" product_id)
    (modify (λ w,
       let kept := match emart_price w !! product_id with
                   | Some d => price_history d
                   | None => []
                   end in
       let h := match history with
                | Some h => h
                | None => kept
                end in
       set_emart_price (<[product_id := mkPriceDoc data h]> (emart_price w)) w)).

(** The comparison with the last record of the history: [True] unless
    the history has a last record with the same two prices. *)
Definition price_has_changed (price_history : list PriceInfo) (price_info : PriceInfo)
    : bool :=
  match last price_history with
  | Some last_record =>
      if bool_decide (original_price last_record = original_price price_info)
         && bool_decide (selling_price last_record = selling_price price_info)
      then false else true
  | None => true
  end.

Definition update_price_history (product_id : string)
    (out_of_stock quantity last_updated : value) (price_info : PriceInfo)
    : M string :=
  try_catch
    (doc ← price_get product_id;
     let price_history := match doc with
                          | Some d => price_history d
                          | None => []
                          end in
     let top_level_update_data :=
       mkTopLevel product_id out_of_stock quantity last_updated in
     if price_has_changed price_history price_info then
       price_set_merge product_id top_level_update_data
                       (Some (price_history ++ [price_info])) ;;
       mret "updated"
     else
       price_set_merge product_id top_level_update_data None ;;
       mret "skipped")
    (λ e, mret "error").

Definition product_get (product_id : string) : M (option ProductDoc) :=
  external CStore (EvGet "emart_product" product_id)
    (gets (λ w, emart_product w !! product_id)).

Definition set_field (key : string) (v : value) (d : ProductDoc) : ProductDoc :=
  match v with
  | Some s => <[key := s]> d
  | None => delete key d
  end.

(** [product_ref.update(data)]: the given fields are overwritten. *)
Definition product_update (product_id : string) (data : list (string * value)) : M unit :=
  external CStore (EvUpdate "emart_product" product_id)
    (modify (λ w,
       set_emart_product
         (alter (λ d, foldr (λ kv, set_field kv.1 kv.2) d data) product_id
                (emart_product w)) w)).

(** [product_ref.set(data)]: the document is replaced. *)
Definition product_set (product_id : string) (data : ProductDoc) : M unit :=
  external CStore (EvSet "emart_product" product_id)
    (modify (λ w, set_emart_product (<[product_id := data]> (emart_product w)) w)).

Definition product_keys : list string :=
  ["id"; "category"; "image_url"; "last_updated"; "product_address"; "product_name"].

(** ** One record *)

Definition price_path (product_id : string) (product : Product) : M unit :=
  let price_info :=
    mkPriceInfo (product !! "original_price") (product !! "selling_price")
                (product !! "last_updated") in
  result ← update_price_history product_id (product !! "out_of_stock")
             (product !! "quantity") (product !! "last_updated") price_info;
  if String.eqb result "updated" then
    modify (λ w, set_counts (price_updated_count w + 1) (price_skipped_count w)
                   (product_new_count w) (product_updated_count w)
                   (product_skipped_count w) w)
  else if String.eqb result "skipped" then
    modify (λ w, set_counts (price_updated_count w) (price_skipped_count w + 1)
                   (product_new_count w) (product_updated_count w)
                   (product_skipped_count w) w)
  else mret tt.

Definition product_path (product_id : string) (product : Product) : M unit :=
  try_catch
    (doc ← product_get product_id;
     match doc with
     | Some existing_data =>
         if bool_decide (existing_data !! "product_name" ≠ product !! "product_name")
            || bool_decide (existing_data !! "image_url" ≠ product !! "image_url")
         then
           product_update product_id
             [ ("product_name", product !! "product_name");
               ("image_url", product !! "image_url");
               ("last_updated", product !! "last_updated");
               ("is_emb", Some "R") ] ;;
           modify (λ w, set_counts (price_updated_count w) (price_skipped_count w)
                          (product_new_count w) (product_updated_count w + 1)
                          (product_skipped_count w) w)
         else
           product_update product_id [ ("last_updated", product !! "last_updated") ] ;;
           modify (λ w, set_counts (price_updated_count w) (price_skipped_count w)
                          (product_new_count w) (product_updated_count w)
                          (product_skipped_count w + 1) w)
     | None =>
         let product_data :=
           filter (λ kv, kv.1 ∈ product_keys) product in
         product_set product_id (<["is_emb" := "R"]> product_data) ;;
         modify (λ w, set_counts (price_updated_count w) (price_skipped_count w)
                        (product_new_count w + 1) (product_updated_count w)
                        (product_skipped_count w) w)
     end)
    (λ e, mret tt).

(** The body of [for product in products] after the stop check. *)
Definition upload_record (beacon : Z) (product : Product) : M unit :=
  match product !! "id" with
  | Some product_id =>
      if truthy product_id then
        (if bool_decide (beacon = 1 ∨ beacon = 2)%Z
         then price_path product_id product else mret tt) ;;
        (if bool_decide (beacon = 1 ∨ beacon = 3)%Z
         then product_path product_id product else mret tt)
      else mret tt
  | None => mret tt
  end.

(** [for product in products]; the result is [stopped_in_file]. *)
Fixpoint doc_loop (beacon : Z) (json_file : path) (products : list Product) : M bool :=
  match products with
  | [] => mret false
  | product :: rest =>
      stop ← _should_stop (DocLoop json_file);
      if (stop : bool) then mret true
      else upload_record beacon product ;; doc_loop beacon json_file rest
  end.

(** ** The files *)

(** [glob.glob(os.path.join(directory_path, "*.json"))]. *)
Definition glob (directory_path : string) : M (list path) := λ w,
  (Ret (filter (λ p, p.1 = directory_path) (map_to_list (snapshots w)).*1),
   log (EvGlob directory_path) w).

(** [open(json_file)] and [json.load(f)]. *)
Definition load (json_file : path) : M (list Product) := λ w,
  match snapshots w !! json_file with
  | Some products => external CLoad (EvLoad json_file) (mret products) w
  | None => (Raise (Exception CLoad), log (EvLoad json_file) w)
  end.

Definition os_remove (json_file : path) : M unit :=
  external CRemove (EvRemove json_file)
    (modify (λ w, set_snapshots (delete json_file (snapshots w)) w)).

(** The notification, seen from [upload_json_to_firestore]: the call is
    recorded.  The function catches [SSLError] and [RequestException] of
    its own request and returns; an exception of another kind (a
    [ValueError] of [requests] for a timeout of 0, say) leaves it, and is
    then caught by the [except Exception] of the caller.  What it sends is
    modelled in [Notifier]. *)
Definition _notify_embedding_server (counters : list (string * nat)) : M unit :=
  external CNotify (EvNotify counters) (mret tt).

Definition stopped (msg : string) (w : World) : Result :=
  mkResult "stopped" (Some msg) (Some (counters_of w)) None.

(** [for json_file in json_files]; [Some r] when the function returns [r]
    from inside the loop. *)
Fixpoint file_loop (beacon : Z) (json_files : list path) : M (option Result) :=
  match json_files with
  | [] => mret None
  | json_file :: rest =>
      stop ← _should_stop FileLoop;
      if (stop : bool) then
        r ← gets (stopped "업로드 중단됨(파일 루프)"); mret (Some r)
      else
        products ← load json_file;
        stopped_in_file ← doc_loop beacon json_file products;
        if (stopped_in_file : bool) then
          r ← gets (stopped ("업로드 중단됨(파일: " +:+ json_file.2 +:+ " 진행 중)"));
          mret (Some r)
        else
          try_catch (os_remove json_file) (λ e, mret tt) ;;
          file_loop beacon rest
  end.

Definition beacon_of (directory_path : string) : Z :=
  if String.eqb directory_path "result_json" then 1
  else if String.eqb directory_path "result_price_json" then 2
  else 3.

Definition upload_json_to_firestore (directory_path : string) : M Result :=
  stop ← _should_stop AtStart;
  if (stop : bool) then
    mret (mkResult "stopped" (Some "작업 시작 전에 중단됨") None None)
  else
    failed ← try_catch (initialize_firebase ;; mret None) (λ e, mret (Some e));
    match failed with
    | Some e => mret (mkResult "error" None None (Some (str e)))
    | None =>
        let beacon := beacon_of directory_path in
        try_catch
          (json_files ← glob directory_path;
           if bool_decide (json_files = []) then
             mret (mkResult "warning"
                     (Some ("'" +:+ directory_path +:+ "' 폴더에 JSON 파일이 없습니다."))
                     None None)
           else
             modify (set_counts 0 0 0 0 0) ;;
             returned ← file_loop beacon json_files;
             match returned with
             | Some r => mret r
             | None =>
                 stop ← _should_stop BeforeNotify;
                 if (stop : bool) then
                   r ← gets (stopped "업로드는 완료/부분완료, 임베딩 호출은 생략");
                   mret r
                 else
                   counters ← gets counters_of;
                   _notify_embedding_server counters ;;
                   mret (mkResult "success" (Some "All files uploaded successfully.")
                                  (Some counters) None)
             end)
          (λ e, mret (mkResult "error" None None (Some (str e))))
    end.

Definition upload_all_products_to_firebase : M Result :=
  upload_json_to_firestore "result_json".

Definition upload_id_price_to_firebase : M Result :=
  upload_json_to_firestore "result_price_json".

Definition upload_other_info_to_firebase : M Result :=
  upload_json_to_firestore "result_non_price_json".

End Run.

(** ** Observations on traces and on the store *)

(** The state after further calls [evs]. *)
Definition extend (evs : list event) (w : World) : World :=
  mkWorld (trace w ++ evs) (price_updated_count w) (price_skipped_count w)
          (product_new_count w) (product_updated_count w) (product_skipped_count w)
          (emart_price w) (emart_product w) (snapshots w).

(** The next [n] calls to the store, from the state [w] on, succeed. *)
Definition store_serves (raises : call → nat → bool) (w : World) (n : nat) : Prop :=
  ∀ k, k < n → raises CStore (now w + k) = false.

(** The history stored for a product id, empty when there is no document. *)
Definition stored_history (product_id : string) (w : World) : list PriceInfo :=
  match emart_price w !! product_id with
  | Some d => price_history d
  | None => []
  end.

(** Two price records carry the same price pair. *)
Definition same_prices (a b : PriceInfo) : Prop :=
  original_price a = original_price b ∧ selling_price a = selling_price b.

(** The price pair of a record, its timestamp left out. *)
Definition price_pair (a : PriceInfo) : value * value :=
  (original_price a, selling_price a).

(** No two neighbours of a history carry the same price pair: every entry
    records a change of price. *)
Fixpoint no_adjacent_same (h : list PriceInfo) : Prop :=
  match h with
  | a :: (b :: _) as rest => ¬ same_prices a b ∧ no_adjacent_same rest
  | _ => True
  end.

(** The calls to the store. *)
Definition store_event (e : event) : Prop :=
  match e with
  | EvGet _ _ | EvSet _ _ | EvUpdate _ _ => True
  | _ => False
  end.

(** The calls made while the records of [json_file] are processed without
    the stop flag being seen. *)
Definition record_event (json_file : path) (e : event) : Prop :=
  e = EvStop (DocLoop json_file) false ∨ store_event e.

(** How many times the record loop checked the stop flag. *)
Definition doc_checks (evs : list event) : nat :=
  length (flat_map (λ e, match e with EvStop (DocLoop _) b => [b] | _ => [] end) evs).

(** One step of the record loop: only store calls, the files untouched. *)
Definition store_step (w : World) (evs : list event) (w' : World) : Prop :=
  trace w' = trace w ++ evs ∧ Forall store_event evs ∧ snapshots w' = snapshots w.

(** How the loop over the files ended. *)
Inductive outcome : Type :=
| AllDone
| StoppedBetween
| Unreadable (json_file : path)
| StoppedIn (json_file : path).

(** The calls of the loop over [json_files], the files whose record loop
    ran to the end, those among them that [os.remove] removed, and how the
    loop ended.  [os.remove] is called on a file whose record loop ran to
    the end before anything is done for the next one; a stop seen by the
    record loop ends the run there. *)
Inductive files_run :
  list path → list event → list path → list path → outcome → Prop :=
| run_all_done :
    files_run [] [] [] [] AllDone
| run_stopped_between p ps :
    files_run (p :: ps) [EvStop FileLoop true] [] [] StoppedBetween
| run_unreadable p ps :
    files_run (p :: ps) [EvStop FileLoop false; EvLoad p] [] [] (Unreadable p)
| run_stopped_in p ps body :
    Forall (record_event p) body →
    files_run (p :: ps)
              (EvStop FileLoop false :: EvLoad p :: body ++ [EvStop (DocLoop p) true])
              [] [] (StoppedIn p)
| run_file_done p ps body rest processed removed out (gone : bool) :
    Forall (record_event p) body →
    files_run ps rest processed removed out →
    files_run (p :: ps)
              (EvStop FileLoop false :: EvLoad p :: body ++ EvRemove p :: rest)
              (p :: processed) (if gone then p :: removed else removed) out.

(** The messages of the results. *)
Definition stopped_between_msg : string := "업로드 중단됨(파일 루프)".
Definition stopped_in_msg (json_file : path) : string :=
  "업로드 중단됨(파일: " +:+ json_file.2 +:+ " 진행 중)".

(** What the loop over the files hands back for each outcome. *)
Definition returned (out : outcome) (r : res (option Result)) (w' : World) : Prop :=
  match out with
  | AllDone => r = Ret None
  | StoppedBetween => r = Ret (Some (stopped stopped_between_msg w'))
  | Unreadable _ => r = Raise (Exception CLoad)
  | StoppedIn p => r = Ret (Some (stopped (stopped_in_msg p) w'))
  end.

Definition before_start_msg : string := "작업 시작 전에 중단됨".
Definition no_files_msg (directory_path : string) : string :=
  "'" +:+ directory_path +:+ "' 폴더에 JSON 파일이 없습니다.".
Definition notify_skipped_msg : string := "업로드는 완료/부분완료, 임베딩 호출은 생략".

(** The four ways a run of [upload_json_to_firestore] can go; [reliable]
    says that [os.remove] never fails, [notify_raises] whether the
    notification made at an instant raises.  After the last file the run
    ends with the stop check before the notification, with the
    notification, or with the exception that left the notification. *)
Definition upload_cases (reliable : Prop) (notify_raises : nat → bool)
    (directory_path : string) (w : World)
    (evs : list event) (res : Result) (w' : World) : Prop :=
  (evs = [EvStop AtStart true]
   ∧ res = mkResult "stopped" (Some before_start_msg) None None
   ∧ w' = extend evs w)
  ∨ (evs = [EvStop AtStart false; EvInit]
     ∧ res = mkResult "error" None None (Some (str (Exception CInit)))
     ∧ w' = extend evs w)
  ∨ (evs = [EvStop AtStart false; EvInit; EvGlob directory_path]
     ∧ res = mkResult "warning" (Some (no_files_msg directory_path)) None None
     ∧ w' = extend evs w)
  ∨ (∃ json_files evs_f processed removed out suffix,
       evs = EvStop AtStart false :: EvInit :: EvGlob directory_path :: evs_f ++ suffix
       ∧ NoDup json_files
       ∧ (∀ p, p ∈ json_files → is_Some (snapshots w !! p))
       ∧ files_run json_files evs_f processed removed out
       ∧ (reliable → removed = processed)
       ∧ (∀ q, snapshots w' !! q
               = if bool_decide (q ∈ removed) then None else snapshots w !! q)
       ∧ match out with
         | AllDone =>
             (suffix = [EvStop BeforeNotify true]
              ∧ res = stopped notify_skipped_msg w')
             ∨ (suffix = [EvStop BeforeNotify false; EvNotify (counters_of w')]
                ∧ res = mkResult "success" (Some "All files uploaded successfully.")
                                 (Some (counters_of w')) None
                ∧ notify_raises (pred (now w')) = false)
             ∨ (suffix = [EvStop BeforeNotify false; EvNotify (counters_of w')]
                ∧ res = mkResult "error" None None (Some (str (Exception CNotify)))
                ∧ notify_raises (pred (now w')) = true)
         | StoppedBetween => suffix = [] ∧ res = stopped stopped_between_msg w'
         | StoppedIn p => suffix = [] ∧ res = stopped (stopped_in_msg p) w'
         | Unreadable p =>
             suffix = []
             ∧ res = mkResult "error" None None (Some (str (Exception CLoad)))
         end).

(** ** Scenarios *)

(** No call ever raises. *)
Definition never : call → nat → bool := λ _ _, false.

(** A record as the crawler writes it. *)
Definition record_of (pid original selling : string) : Product :=
  list_to_map [ ("id", pid); ("category", "Fruits"); ("product_name", "apple");
                ("product_address", "https://emart.ssg.com/item?itemId=" +:+ pid);
                ("original_price", original); ("selling_price", selling);
                ("image_url", "https://img/" +:+ pid); ("quantity", "1 ea");
                ("last_updated", "2024-01-02T00:00:00") ].

Definition fruits_json : path := ("result_json", "Fruits.json").

(** One snapshot file with two records, the collections empty. *)
Definition two_records_world : World :=
  mkWorld [] 0 0 0 0 0 ∅ ∅
          {[ fruits_json := [record_of "1001" "100" "90"; record_of "1002" "200" "150"] ]}.

(** The store fails once, on the first read of the price collection. *)
Definition first_price_read_fails : call → nat → bool :=
  λ c t, match c with CStore => Nat.eqb t 6 | _ => false end.

(** The stop flag is raised while the first record is being written. *)
Definition stop_during_first_record : option Event := Some (λ t, Nat.leb 7 t).

(** The stop flag is raised while the last record is being written, after
    the last check of the record loop. *)
Definition stop_during_last_record : option Event := Some (λ t, Nat.leb 11 t).

(** An exception leaves every notification; no other call raises. *)
Definition notification_raises : call → nat → bool :=
  λ c t, match c with CNotify => true | _ => false end.

Definition snapshot_100_90 : PriceInfo :=
  mkPriceInfo (Some "100") (Some "90") (Some "day 1").
Definition snapshot_100_90_later : PriceInfo :=
  mkPriceInfo (Some "100") (Some "90") (Some "day 2").
Definition snapshot_100_80 : PriceInfo :=
  mkPriceInfo (Some "100") (Some "80") (Some "day 2").

(** Product 1001 with the history [{100, 90}]. *)
Definition priced_world : World :=
  mkWorld [] 0 0 0 0 0
          {[ "1001" := mkPriceDoc (mkTopLevel "1001" None (Some "1 ea") (Some "day 1"))
                                  [snapshot_100_90] ]}
          ∅ ∅.

(** Nothing stored, no snapshot file. *)
Definition empty_dir_world : World := mkWorld [] 0 0 0 0 0 ∅ ∅ ∅.

(** The keys of the [counters] dictionary. *)
Definition counter_keys : list string :=
  ["price_updated"; "price_skipped"; "product_new"; "product_updated"; "product_skipped"].

(** ** Further observations on an upload *)

(** A record that is uploaded: its id is there and is not empty. *)
Definition keyed (product : Product) : bool :=
  match product !! "id" with
  | Some product_id => truthy product_id
  | None => false
  end.

(** The records classified by the price step, and by the product step. *)
Definition price_total (w : World) : nat :=
  price_updated_count w + price_skipped_count w.

Definition product_total (w : World) : nat :=
  product_new_count w + product_updated_count w + product_skipped_count w.

(** The calls to the store that address the collection [c]. *)
Definition on_collection (c : string) (e : event) : Prop :=
  match e with
  | EvGet c' _ | EvSet c' _ | EvUpdate c' _ => c' = c
  | _ => False
  end.

(** The snapshot files of a directory, as [glob] lists them. *)
Definition directory_files (directory_path : string) (w : World) : list path :=
  filter (λ p, p.1 = directory_path) (map_to_list (snapshots w)).*1.

(** The uploaded records of a list of files. *)

(** The records the price step has to classify under [beacon], out of
    [n] uploaded records, and those the product step has to. *)
Definition price_share (beacon : Z) (n : nat) : nat :=
  if bool_decide (beacon = 1 ∨ beacon = 2)%Z then n else 0.

Definition product_share (beacon : Z) (n : nat) : nat :=
  if bool_decide (beacon = 1 ∨ beacon = 3)%Z then n else 0.

(** The uploaded records of one file. *)
Definition keyed_count (products : list Product) : nat :=
  length (filter (λ x, keyed x = true) products).

(** The uploaded records of a list of files. *)
Definition keyed_records (json_files : list path) (w : World) : nat :=
  sum_list ((λ p, match snapshots w !! p with
                  | Some products => keyed_count products
                  | None => 0
                  end) <$> json_files).

(** The counts of [w'] stay within [n] records of those of [w], and are
    exactly [n] records further when [exact] holds. *)
Definition counted (beacon : Z) (exact : Prop) (n : nat) (w w' : World) : Prop :=
  price_total w ≤ price_total w' ≤ price_total w + price_share beacon n
  ∧ product_total w ≤ product_total w' ≤ product_total w + product_share beacon n
  ∧ (exact →
     price_total w' = price_total w + price_share beacon n
     ∧ product_total w' = product_total w + product_share beacon n).

(** The store never fails. *)
Definition reliable_store (raises : call → nat → bool) : Prop :=
  ∀ t, raises CStore t = false.

End Uploader.

(* ===================================================================== *)
(** * The signal to the embedding server, [_notify_embedding_server] *)
(* ===================================================================== *)

Module Notifier.

(** What a request can raise: [requests.exceptions.SSLError], another
    [RequestException] (a failed [raise_for_status] included), or an
    exception of another kind. *)
Inductive http_exn : Type :=
| SSLError
| RequestException
| OtherError.

(** A call to [requests.post] or [requests.get]. *)
Record request : Type := mkRequest {
  is_post : bool;
  url : string;
  verify : bool;
  timeout : Q
}.

(** How the function ends. *)
Inductive ending : Type :=
| Returned
| Raised.

(** [s.startswith(p)]. *)
Definition startswith (s p : string) : bool := String.prefix p s.

(** The last character of [s] is [c]. *)
Fixpoint endswith_char (s : string) (c : Ascii.ascii) : bool :=
  match s with
  | EmptyString => false
  | String a EmptyString => Ascii.eqb a c
  | String _ rest => endswith_char rest c
  end.

(** [s.rstrip(c)] and [s.lstrip(c)] for a single character. *)
Fixpoint rstrip_char (c : Ascii.ascii) (s : string) : string :=
  match s with
  | EmptyString => EmptyString
  | String a rest =>
      match rstrip_char c rest with
      | EmptyString => if Ascii.eqb a c then EmptyString else String a EmptyString
      | r => String a r
      end
  end.

Fixpoint lstrip_char (c : Ascii.ascii) (s : string) : string :=
  match s with
  | EmptyString => EmptyString
  | String a rest => if Ascii.eqb a c then lstrip_char c rest else s
  end.

Definition strip_char (c : Ascii.ascii) (s : string) : string :=
  rstrip_char c (lstrip_char c s).

(** [s.replace(old, new, 1)] for a non-empty [old]: the leftmost
    occurrence is replaced. *)
Fixpoint replace_first (old new s : string) : string :=
  if String.prefix old s then new +:+ String.substring (String.length old)
                                        (String.length s - String.length old) s
  else match s with
       | EmptyString => EmptyString
       | String a rest => String a (replace_first old new rest)
       end.

Definition double_quote : Ascii.ascii := Ascii.ascii_of_nat 34.
Definition slash : Ascii.ascii := Ascii.ascii_of_nat 47.

Section Notify.

(** Outside the core: [str.strip], [str.upper], [str.lower], [float],
    [urlparse] (scheme and hostname), and what the server answers to the
    [n]-th request. *)
Variable strip : string → string.
Variable upper lower : string → string.
Variable float : string → option Q.
Variable urlparse : string → string * option string.
Variable http : request → nat → option http_exn.

Variable environ : gmap string string.

(** [os.getenv(key) or dflt]. *)
Definition getenv_or (key dflt : string) : string :=
  match environ !! key with
  | Some s => if truthy s then s else dflt
  | None => dflt
  end.

(** The address the signal is sent to, [None] when [EMB_SERVER] is not
    set. *)
Definition signal_url : option string :=
  let base := strip_char double_quote (strip (getenv_or "EMB_SERVER" EmptyString)) in
  if negb (truthy base) then None
  else
    let endpoint :=
      let e := strip (getenv_or "EMB_ENDPOINT" "/") in
      if truthy e then e else "/" in
    Some (rstrip_char slash base
          +:+ (if startswith endpoint "/" then endpoint else "/" +:+ endpoint)).

(** The requests made, in order, and how the function ends. *)
Definition _notify_embedding_server : list request * ending :=
  match signal_url with
  | None => ([], Returned)
  | Some url =>
      let method := upper (strip (getenv_or "EMB_METHOD" "GET")) in
      let verify_ssl :=
        String.eqb (lower (default "true" (environ !! "EMB_VERIFY_SSL"))) "true" in
      let timeout :=
        match environ !! "EMB_TIMEOUT" with
        | Some s => default 10%Q (float s)
        | None => 10%Q
        end in
      let first := mkRequest (String.eqb method "POST") url verify_ssl timeout in
      match http first 0 with
      | None => ([first], Returned)
      | Some SSLError =>
          let parsed := urlparse url in
          if String.eqb parsed.1 "https"
             && bool_decide (parsed.2 = Some "localhost" ∨ parsed.2 = Some "127.0.0.1")
          then
            let fallback := replace_first "https://" "http://" url in
            let second := mkRequest (String.eqb method "POST") fallback true timeout in
            match http second 1 with
            | Some OtherError => ([first; second], Raised)
            | _ => ([first; second], Returned)
            end
          else ([first], Returned)
      | Some RequestException => ([first], Returned)
      | Some OtherError => ([first], Raised)
      end
  end.

End Notify.

End Notifier.

(* ===================================================================== *)
(** * Properties of the crawler *)
(* ===================================================================== *)

Module CrawlerFacts.
Import Crawler.

(** ** The chunked sleep *)

Lemma extend_nil w : extend [] w = w.
Proof. destruct w; unfold extend; simpl. by rewrite app_nil_r. Qed.

Lemma extend_extend a b w : extend b (extend a w) = extend (a ++ b) w.
Proof. destruct w; unfold extend; simpl. by rewrite app_assoc. Qed.

Lemma log_extend e w : log e w = extend [e] w.
Proof. reflexivity. Qed.

Lemma now_extend evs w : now (extend evs w) = (now w + length evs)%nat.
Proof. unfold now, extend; simpl. by rewrite length_app. Qed.

Lemma inject_nat_succ (n : nat) :
  (inject_Z (Z.of_nat (S n)) == inject_Z (Z.of_nat n) + 1)%Q.
Proof.
  rewrite Nat2Z.inj_succ. unfold Z.succ. rewrite inject_Z_plus.
  change (inject_Z 1) with 1%Q. lra.
Qed.

Lemma sleep_loop_S fuel ev step remain :
  sleep_loop (S fuel) ev step remain =
  if Qlt_le_dec 0 remain then
    stop ← _should_stop ev;
    if (stop : bool) then mret tt
    else time_sleep (Qmin step remain) ;;
         sleep_loop fuel ev step (remain - Qmin step remain)%Q
  else mret tt.
Proof. reflexivity. Qed.

Lemma sleep_loop_spec ev step :
  (0 < step)%Q →
  ∀ fuel remain w,
    (remain <= inject_Z (Z.of_nat fuel) * step)%Q →
    ∃ evs, sleep_loop (S fuel) ev step remain w = (Ret tt, extend evs w)
           ∧ sleep_run ev step (now w) evs.
Proof.
  intros Hstep fuel. induction fuel as [|fuel IH]; intros remain w Hle.
  - simpl in *. destruct (Qlt_le_dec 0 remain) as [Hpos|Hneg].
    + exfalso. change (inject_Z (Z.of_nat 0)) with 0%Q in Hle. lra.
    + exists []. rewrite extend_nil. split; [done | constructor].
  - rewrite sleep_loop_S. destruct (Qlt_le_dec 0 remain) as [Hpos|Hneg].
    + unfold mbind, M_bind, _should_stop.
      destruct (flag_at ev (now w)) eqn:Hflag.
      * exists [EvStop true]. split; [done | by constructor].
      * unfold time_sleep, modify.
        set (t := Qmin step remain).
        assert (Ht : (0 < t)%Q ∧ (t <= step)%Q ∧ (remain - t <= inject_Z (Z.of_nat fuel) * step)%Q).
        { pose proof (inject_nat_succ fuel) as Hs. rewrite Hs in Hle.
          subst t. destruct (Q.min_spec step remain) as [[H1 H2]|[H1 H2]];
            rewrite H2; repeat split; try lra.
          assert (0 <= inject_Z (Z.of_nat fuel))%Q.
          { change 0%Q with (inject_Z 0). rewrite <- Zle_Qle. lia. }
          nra. }
        destruct Ht as (Ht1 & Ht2 & Ht3).
        destruct (IH (remain - t)%Q (log (EvSleep t) (log (EvStop false) w)) Ht3)
          as (evs & Hrun & Hshape).
        exists (EvStop false :: EvSleep t :: evs). split.
        -- rewrite Hrun. rewrite !log_extend, !extend_extend. done.
        -- constructor; try done.
           rewrite !log_extend, !now_extend in Hshape. simpl in Hshape.
           by replace (S (S (now w))) with (now w + 1 + 1)%nat by lia.
    + exists []. rewrite extend_nil. split; [done | constructor].
Qed.

Lemma sleep_fuel_enough (D step : Q) :
  (0 < D)%Q → (0.01 <= step)%Q →
  (D <= inject_Z (Z.of_nat (Z.to_nat (Qceiling (100 * D)))) * step)%Q.
Proof.
  intros HD Hstep.
  pose proof (Qle_ceiling (100 * D)) as Hc.
  assert (Hnn : (0 <= Qceiling (100 * D))%Z).
  { apply Qceiling_resp_le with (x := 0%Q) (y := (100 * D)%Q). lra. }
  rewrite Z2Nat.id by done.
  assert (0 <= inject_Z (Qceiling (100 * D)))%Q.
  { change 0%Q with (inject_Z 0). by rewrite <- Zle_Qle. }
  nra.
Qed.

Lemma sleep_with_cancel_spec (D : Q) ev (tick : Q) w :
  ∃ evs, _sleep_with_cancel D ev tick w = (Ret tt, extend evs w)
         ∧ ((D <= 0)%Q → evs = [])
         ∧ sleep_run ev (Qmax 0.01 (Qmin tick D)) (now w) evs.
Proof.
  unfold _sleep_with_cancel. destruct (Qlt_le_dec 0 D) as [Hpos|Hneg].
  - pose proof (Q.le_max_l 0.01 (Qmin tick D)) as Hstep.
    destruct (sleep_loop_spec ev (Qmax 0.01 (Qmin tick D)) ltac:(lra)
                (Z.to_nat (Qceiling (100 * D))) D w
                (sleep_fuel_enough D _ Hpos Hstep)) as (evs & Hrun & Hshape).
    exists evs. split; [exact Hrun|]. split; [intros; lra | exact Hshape].
  - exists []. rewrite extend_nil. split; [done|]. split; [done | constructor].
Qed.

Lemma sleep_run_quiet ev step t0 evs :
  sleep_run ev step t0 evs → Forall quiet evs.
Proof. induction 1; repeat constructor; done. Qed.

Lemma sleep_run_sleeps ev step t0 evs :
  sleep_run ev step t0 evs →
  ∀ i t, evs !! i = Some (EvSleep t) →
    (0 < t)%Q ∧ (t <= step)%Q ∧ ∃ j, i = S j ∧ evs !! j = Some (EvStop false).
Proof.
  induction 1 as [t0|t0 Hf|t0 t rest Hf Ht1 Ht2 Hrest IH]; intros i u Hi.
  - done.
  - destruct i as [|[|i]]; done.
  - destruct i as [|[|i]]; simpl in Hi.
    + done.
    + injection Hi as <-. split; [done|]. split; [done|]. by exists 0%nat.
    + destruct (IH i u Hi) as (? & ? & j & -> & Hj).
      split; [done|]. split; [done|]. by exists (S (S j)).
Qed.

Lemma sleep_run_checks ev step t0 evs :
  sleep_run ev step t0 evs →
  ∀ i b, evs !! i = Some (EvStop b) →
    b = flag_at ev (t0 + i) ∧ (b = true → length evs = S i).
Proof.
  induction 1 as [t0|t0 Hf|t0 t rest Hf Ht1 Ht2 Hrest IH]; intros i b Hi.
  - done.
  - destruct i as [|i]; [|done]. injection Hi as <-.
    rewrite Nat.add_0_r. by split.
  - destruct i as [|[|i]]; simpl in Hi.
    + injection Hi as <-. rewrite Nat.add_0_r. split; [done | congruence].
    + done.
    + destruct (IH i b Hi) as [Hb Hlast].
      split.
      * rewrite Hb. f_equal. lia.
      * intros Hbt. simpl. by rewrite (Hlast Hbt).
Qed.

Lemma sleep_run_after_signal ev step t0 evs (τ : nat) :
  sleep_run ev step t0 evs →
  (∀ t, τ ≤ t → flag_at ev t = true) →
  ∀ i t, evs !! i = Some (EvSleep t) → t0 + i ≤ τ.
Proof.
  intros Hrun Hsig i t Hi.
  destruct (sleep_run_sleeps _ _ _ _ Hrun i t Hi) as (_ & _ & j & -> & Hj).
  destruct (sleep_run_checks _ _ _ _ Hrun j false Hj) as [Hflag _].
  destruct (decide (τ ≤ t0 + j)) as [Hle|Hgt]; [|lia].
  rewrite (Hsig _ Hle) in Hflag. done.
Qed.

(** C9.  Whatever the duration D, the tick T and the stop event,
    [_sleep_with_cancel] returns, and the calls it makes are only stop
    checks and sleeps such that: with D <= 0 there is no call at all; every
    sleep comes right after a check that found the flag clear, so the flag
    is checked again before every step; no step is longer than
    max(0.01, min(T, D)); every check answers what the flag is at that
    instant; a check that finds the flag set is the last call; and, once
    the flag stays set from some instant on, at most one sleep step is
    made from that instant on.  Durations are exact rationals; the call
    made by the page loop has T = 0.1. *)
Theorem sleep_with_cancel_chunked (D tick : Q) (ev : option Event) (w : World) :
  ∃ evs,
    _sleep_with_cancel D ev tick w = (Ret tt, extend evs w)
    ∧ Forall quiet evs
    ∧ ((D <= 0)%Q → evs = [])
    ∧ (∀ i t, evs !! i = Some (EvSleep t) →
         (t <= Qmax 0.01 (Qmin tick D))%Q
         ∧ ∃ j, i = S j ∧ evs !! j = Some (EvStop false))
    ∧ (∀ i b, evs !! i = Some (EvStop b) → b = flag_at ev (now w + i))
    ∧ (∀ i, evs !! i = Some (EvStop true) → length evs = S i)
    ∧ (∀ τ, (∀ t, τ ≤ t → flag_at ev t = true) →
         ∀ i j t t', evs !! i = Some (EvSleep t) → evs !! j = Some (EvSleep t') →
                     τ ≤ now w + i → τ ≤ now w + j → i = j).
Proof.
  destruct (sleep_with_cancel_spec D ev tick w) as (evs & Hrun & Hzero & Hshape).
  exists evs. split; [exact Hrun|].
  split; [by eapply sleep_run_quiet|].
  split; [exact Hzero|].
  split.
  { intros i t Hi. destruct (sleep_run_sleeps _ _ _ _ Hshape i t Hi) as (_ & ? & ?). done. }
  split.
  { intros i b Hi. by destruct (sleep_run_checks _ _ _ _ Hshape i b Hi). }
  split.
  { intros i Hi. destruct (sleep_run_checks _ _ _ _ Hshape i true Hi) as [_ H]. by apply H. }
  intros τ Hsig i j t t' Hi Hj Hti Htj.
  pose proof (sleep_run_after_signal _ _ _ _ τ Hshape Hsig i t Hi).
  pose proof (sleep_run_after_signal _ _ _ _ τ Hshape Hsig j t' Hj).
  lia.
Qed.

(** ** Deduplication *)

Lemma dedupe_app a b s :
  dedupe (a ++ b) s =
  ((dedupe a s).1 ++ (dedupe b (dedupe a s).2).1, (dedupe b (dedupe a s).2).2).
Proof.
  revert s. induction a as [|x a IH]; intros s; simpl.
  - by destruct (dedupe b s).
  - destruct (truthy (id x) && bool_decide (id x ∈ s)); [apply IH|].
    rewrite IH. by destruct (dedupe a _).
Qed.

Lemma dedupe_first_seen l s earlier :
  (∀ p, truthy p = true → p ∈ s ↔ p ∈ earlier) →
  (dedupe l s).1 = first_seen earlier l.
Proof.
  revert s earlier. induction l as [|x l IH]; intros s earlier Hs; simpl; [done|].
  destruct (truthy (id x)) eqn:Hx; simpl.
  - rewrite (bool_decide_ext _ _ (Hs _ Hx)).
    case_bool_decide as Hin.
    + apply IH. intros p Hp. rewrite Hs by done. rewrite elem_of_cons.
      split; [by right|]. by intros [->|?].
    + specialize (IH ({[id x]} ∪ s) (id x :: earlier)).
      destruct (dedupe l _) as [n s']. simpl in *. f_equal. apply IH.
      intros p Hp. rewrite elem_of_union, elem_of_singleton, elem_of_cons, Hs by done.
      done.
  - specialize (IH s (id x :: earlier)).
    destruct (dedupe l s) as [n s']. simpl in *. f_equal. apply IH.
    intros p Hp. rewrite elem_of_cons, Hs by done.
    split; [by right|]. intros [->|?]; [congruence | done].
Qed.

Lemma dedupe_keyed l s :
  NoDup (keyed_ids (dedupe l s).1) ∧ ∀ p, p ∈ keyed_ids (dedupe l s).1 → p ∉ s.
Proof.
  revert s. induction l as [|x l IH]; intros s; simpl.
  - split; [constructor|]. by intros p Hp%elem_of_nil.
  - destruct (truthy (id x)) eqn:Hx; simpl.
    + case_bool_decide as Hin; [apply IH|].
      destruct (IH ({[id x]} ∪ s)) as [Hnd Hout].
      destruct (dedupe l _) as [n s']. unfold keyed_ids in *. simpl in *.
      rewrite Hx. split.
      * apply NoDup_cons. split; [|done]. intros Hmem. apply (Hout _ Hmem).
        by apply elem_of_union_l, elem_of_singleton.
      * intros p [->|Hp]%elem_of_cons; [done|]. intros Hps.
        apply (Hout _ Hp). by apply elem_of_union_r.
    + destruct (IH s) as [Hnd Hout].
      destruct (dedupe l s) as [n s']. unfold keyed_ids in *. simpl in *.
      by rewrite Hx.
Qed.

Lemma dedupe_keeps_unkeyed l s :
  List.filter (λ x, negb (truthy (id x))) (dedupe l s).1
  = List.filter (λ x, negb (truthy (id x))) l.
Proof.
  revert s. induction l as [|x l IH]; intros s; simpl; [done|].
  destruct (truthy (id x)) eqn:Hx; simpl.
  - case_bool_decide; [apply IH|].
    specialize (IH ({[id x]} ∪ s)). destruct (dedupe l _). simpl in *. by rewrite Hx.
  - specialize (IH s). destruct (dedupe l s). simpl in *. rewrite Hx. simpl. by f_equal.
Qed.

Lemma dedupe_sublist l s : sublist (dedupe l s).1 l.
Proof.
  revert s. induction l as [|x l IH]; intros s; simpl; [constructor|].
  destruct (truthy (id x) && bool_decide (id x ∈ s)).
  - by apply sublist_cons.
  - specialize (IH (if truthy (id x) then {[id x]} ∪ s else s)).
    destruct (dedupe l _). simpl in *. by apply sublist_skip.
Qed.

(** ** The page loop *)

Lemma scraped_of_app a b : scraped_of (a ++ b) = scraped_of a ++ scraped_of b.
Proof. apply flat_map_app. Qed.

Lemma fetched_pages_app a b : fetched_pages (a ++ b) = fetched_pages a ++ fetched_pages b.
Proof. apply flat_map_app. Qed.

Lemma scraped_of_cons e l :
  scraped_of (e :: l)
  = match e with EvScraped _ items => items | _ => [] end ++ scraped_of l.
Proof. reflexivity. Qed.

Lemma fetched_pages_cons e l :
  fetched_pages (e :: l)
  = match e with EvGet _ p => [p] | _ => [] end ++ fetched_pages l.
Proof. reflexivity. Qed.

Lemma quiet_scraped evs : Forall quiet evs → scraped_of evs = [].
Proof. induction 1 as [|e evs He _ IH]; [done|]. by destruct e. Qed.

Lemma quiet_fetched evs : Forall quiet evs → fetched_pages evs = [].
Proof. induction 1 as [|e evs He _ IH]; [done|]. by destruct e. Qed.

Lemma sleep_with_cancel_quiet (D : Q) ev (tick : Q) w :
  ∃ evs, _sleep_with_cancel D ev tick w = (Ret tt, extend evs w) ∧ Forall quiet evs.
Proof.
  destruct (sleep_with_cancel_spec D ev tick w) as (evs & Hrun & _ & Hshape).
  exists evs. split; [done | by eapply sleep_run_quiet].
Qed.

Section RunFacts.

Context {Html : Type}.
Variable scrape : Html → string → list Item.
Variable has_next : Html → option bool.
Variable site : string → Z → nat → exn + Html.
Variable cfg : Config.
Variable stop_event : option Event.
Variables category_name disp_ctg_id : string.

Opaque _sleep_with_cancel.


Ltac trace_norm :=
  rewrite ?scraped_of_app, ?fetched_pages_app, ?scraped_of_cons, ?fetched_pages_cons;
  simpl; rewrite ?app_nil_r, ?length_app; simpl.

Ltac close_trace Htr :=
  simpl; rewrite Htr, <- ?app_assoc; simpl; reflexivity.

Lemma page_body_spec w0 evs w :
  at_head cfg w0 evs w →
  ∃ evs',
    match page_body scrape has_next site cfg stop_event category_name disp_ctg_id w with
    | (Ret true, w') =>
        at_head cfg w0 evs' w' ∧ visited_pages w' = (visited_pages w + 1)%Z
        ∧ (visited_pages w < page_cap cfg)%Z
    | (Ret false, w') | (Raise _, w') => at_exit cfg w0 evs' w'
    | (Timeout, _) => False
    end.
Proof.
  intros (Htr & [Hcol Hseen] & Hget & Hcap & Hlo & Hhi).
  destruct w as [tr fs col seen ce pn vp]. simpl in *.
  unfold page_body, mbind, M_bind, _should_stop, gets, mret, M_ret. simpl.
  destruct (flag_at stop_event _); simpl.
  { eexists. unfold at_exit, buffer_ok. simpl.
    split; [close_trace Htr|]. trace_norm. repeat split; try done; try lia. }
  destruct (match end_page cfg with Some e => bool_decide (e < pn)%Z | None => false end);
    simpl.
  { eexists. unfold at_exit, buffer_ok. simpl.
    split; [close_trace Htr|]. trace_norm. repeat split; try done; try lia. }
  case_bool_decide as Hvp; simpl.
  { eexists. unfold at_exit, buffer_ok. simpl.
    split; [close_trace Htr|]. trace_norm. repeat split; try done; try lia. }
  destruct (flag_at stop_event _); simpl.
  { eexists. unfold at_exit, buffer_ok. simpl.
    split; [close_trace Htr|]. trace_norm. repeat split; try done; try lia. }
  unfold session_get. simpl.
  destruct (site disp_ctg_id pn _) as [e|html]; simpl.
  { eexists. unfold at_exit, buffer_ok. simpl.
    split; [close_trace Htr|]. trace_norm. repeat split; try done; try lia. }
  destruct (flag_at stop_event _); simpl.
  { eexists. unfold at_exit, buffer_ok. simpl.
    split; [close_trace Htr|]. trace_norm. repeat split; try done; try lia. }
  destruct (dedupe (scrape html category_name) seen) as [new_items seen'] eqn:Hdd.
  assert (Hbuf : col ++ new_items
                 = (dedupe (scraped_of evs ++ scrape html category_name) ∅).1
                 ∧ seen' = (dedupe (scraped_of evs ++ scrape html category_name) ∅).2).
  { rewrite dedupe_app. simpl. rewrite <- Hseen, <- Hcol, Hdd. done. }
  destruct Hbuf as [Hcol' Hseen'].
  unfold empty_page_check. simpl.
  assert (Htail : ∀ ce', (0 ≤ ce')%Z →
            ((0 < empty_page_stop cfg)%Z → (ce' < empty_page_stop cfg)%Z) →
            ∃ evs',
              match
                (if bool_decide (has_next html = Some false)
                 then λ w : World, (Ret false, w)
                 else λ w : World,
                   let (r0, w'0) :=
                     partial_save cfg category_name
                       (set_visited_pages (visited_pages w + 1) w) in
                   match r0 with
                   | Ret _ =>
                       let (r1, w'1) :=
                         _sleep_with_cancel (page_delay cfg) stop_event 0.1
                           (set_page_num (page_num w'0 + 1) w'0) in
                       match r1 with
                       | Ret _ => (Ret true, w'1)
                       | Raise e => (Raise e, w'1)
                       | Timeout => (Timeout, w'1)
                       end
                   | Raise e => (Raise e, w'0)
                   | Timeout => (Timeout, w'0)
                   end)
                  (set_consecutive_empty ce'
                     (set_collected (col ++ new_items)
                        (set_seen_ids seen'
                           (log (EvScraped pn (scrape html category_name))
                              (log (EvStop false)
                                 (log (EvGet disp_ctg_id pn)
                                    (log (EvStop false)
                                       (log (EvStop false)
                                          (mkWorld tr fs col seen ce pn vp))))))))) with
              | (Ret true, w') =>
                  at_head cfg w0 evs' w'
                  ∧ visited_pages w' = (vp + 1)%Z ∧ (vp < page_cap cfg)%Z
              | (Timeout, _) => False
              | (_, w') => at_exit cfg w0 evs' w'
              end).
  { intros ce' Hlo' Hhi'.
    case_bool_decide as Hdom; simpl.
    { eexists. unfold at_exit, buffer_ok. simpl.
      split; [close_trace Htr|]. trace_norm.
      rewrite <- Hcol', <- Hseen'. repeat split; try done; try lia. }
    unfold partial_save. simpl.
    destruct (bool_decide (0 < partial_save_every cfg)%Z
              && bool_decide ((vp + 1) `mod` partial_save_every cfg = 0)%Z); simpl.
    - match goal with
      | |- context [_sleep_with_cancel ?d ?e ?t ?w] =>
          destruct (sleep_with_cancel_quiet d e t w) as (evs_s & Hs & Hq); rewrite Hs
      end.
      eexists. unfold at_head, buffer_ok, extend. simpl.
      split; [split; [close_trace Htr|]|split; [done | lia]].
      trace_norm. rewrite (quiet_scraped _ Hq), (quiet_fetched _ Hq). trace_norm.
      rewrite <- Hcol', <- Hseen'. repeat split; try done; try lia.
    - match goal with
      | |- context [_sleep_with_cancel ?d ?e ?t ?w] =>
          destruct (sleep_with_cancel_quiet d e t w) as (evs_s & Hs & Hq); rewrite Hs
      end.
      eexists. unfold at_head, buffer_ok, extend. simpl.
      split; [split; [close_trace Htr|]|split; [done | lia]].
      trace_norm. rewrite (quiet_scraped _ Hq), (quiet_fetched _ Hq). trace_norm.
      rewrite <- Hcol', <- Hseen'. repeat split; try done; try lia. }
  destruct (bool_decide (length new_items = _)) eqn:Hempty; simpl.
  - destruct (bool_decide (0 < empty_page_stop cfg)%Z
              && bool_decide (empty_page_stop cfg ≤ ce + 1)%Z) eqn:Hbrk; simpl.
    + apply andb_true_iff in Hbrk as [Ht1%bool_decide_eq_true Ht2%bool_decide_eq_true].
      eexists. unfold at_exit, buffer_ok. simpl.
      split; [close_trace Htr|]. trace_norm.
      rewrite <- Hcol', <- Hseen'. repeat split; try done; try lia.
      intros _ _. rewrite last_app. simpl. eauto.
    + apply (Htail (ce + 1)%Z); [lia|].
      intros Ht. apply andb_false_iff in Hbrk as [Hb|Hb];
        apply bool_decide_eq_false in Hb; lia.
  - apply (Htail 0%Z); [lia | done].
Qed.

Transparent _sleep_with_cancel.

Lemma page_loop_spec w0 fuel :
  ∀ evs w,
    at_head cfg w0 evs w →
    (Z.max 0 (page_cap cfg - visited_pages w) < Z.of_nat fuel)%Z →
    ∃ evs',
      match page_loop scrape has_next site cfg stop_event fuel category_name disp_ctg_id w with
      | (Ret _, w') | (Raise _, w') => at_exit cfg w0 evs' w'
      | (Timeout, _) => False
      end.
Proof.
  induction fuel as [|fuel IH]; intros evs w Hhead Hfuel; [lia|].
  simpl. unfold mbind, M_bind.
  destruct (page_body_spec w0 evs w Hhead) as (evs1 & Hbody).
  destruct (page_body _ _ _ _ _ _ _ w) as [[[|]|e|] w1]; try done.
  - destruct Hbody as (Hhead1 & Hvp & Hlt).
    apply (IH evs1 w1 Hhead1). lia.
  - by exists evs1.
  - by exists evs1.
Qed.

Lemma fresh_at_head w : at_head cfg w [] (fresh cfg w).
Proof.
  unfold at_head, buffer_ok, fresh. simpl.
  rewrite app_nil_r. repeat split; try done; lia.
Qed.

Lemma page_loop_fresh w :
  ∃ evs,
    match page_loop scrape has_next site cfg stop_event (page_fuel cfg)
                    category_name disp_ctg_id (fresh cfg w) with
    | (Ret _, w') | (Raise _, w') => at_exit cfg w evs w'
    | (Timeout, _) => False
    end.
Proof.
  apply (page_loop_spec w (page_fuel cfg) [] (fresh cfg w) (fresh_at_head w)).
  unfold page_fuel, fresh. simpl. lia.
Qed.

Opaque page_loop.

Lemma crawl_category_spec w :
  ∃ evs b w',
    crawl_category scrape has_next site cfg stop_event category_name disp_ctg_id w
    = (Ret b, w')
    ∧ trace w' = trace w ++ evs
    ∧ buffer_ok evs w'
    ∧ (Z.of_nat (length (fetched_pages evs)) ≤ Z.max 0 (page_cap cfg))%Z.
Proof.
  destruct (page_loop_fresh w) as (evs & Hloop).
  unfold crawl_category, try_catch, mbind, M_bind, modify, mret, M_ret. simpl.
  fold (fresh cfg w).
  destruct (page_loop _ _ _ _ _ _ _ _ (fresh cfg w)) as [[[]|e|] w1]; [| |done].
  - destruct Hloop as (Htr & [Hcol Hseen] & Hget & _).
    unfold gets, json_dump, modify, _should_stop. simpl.
    match goal with
    | |- context [flag_at stop_event ?t] => destruct (flag_at stop_event t)
    end; simpl;
      eexists _, _, _; (split; [reflexivity|]); unfold buffer_ok; simpl;
      (split; [close_trace Htr|]); trace_norm; rewrite <- Hcol, <- Hseen;
      repeat split; try done; lia.
  - destruct Hloop as (Htr & [Hcol Hseen] & Hget & _).
    exists evs, false, w1. done.
Qed.

Transparent page_loop.

End RunFacts.

(** C4.  Whatever the pages contain and however the crawl of a category
    ends, it returns, and the buffer it leaves is the first-seen
    deduplication of the records extracted, page after page, during that
    crawl: a record is dropped exactly when its id is not empty and an
    earlier record carried it.  Hence no non-empty id occurs twice in the
    buffer, the buffer keeps the order of extraction, and every record
    with an empty id is kept. *)
Theorem crawl_buffer_first_seen {Html : Type}
    (scrape : Html → string → list Item) (has_next : Html → option bool)
    (site : string → Z → nat → exn + Html) (cfg : Config)
    (stop_event : option Event) (category_name disp_ctg_id : string) (w : World) :
  ∃ evs b w',
    crawl_category scrape has_next site cfg stop_event category_name disp_ctg_id w
    = (Ret b, w')
    ∧ trace w' = trace w ++ evs
    ∧ collected w' = first_seen [] (scraped_of evs)
    ∧ NoDup (keyed_ids (collected w'))
    ∧ sublist (collected w') (scraped_of evs)
    ∧ List.filter (λ x, negb (truthy (id x))) (collected w')
      = List.filter (λ x, negb (truthy (id x))) (scraped_of evs).
Proof.
  destruct (crawl_category_spec scrape has_next site cfg stop_event
              category_name disp_ctg_id w) as (evs & b & w' & Hrun & Htr & [Hcol _] & _).
  exists evs, b, w'. split; [done|]. split; [done|]. rewrite Hcol.
  split; [|split; [|split]].
  - apply dedupe_first_seen. intros p _. by rewrite elem_of_empty, elem_of_nil.
  - apply dedupe_keyed.
  - apply dedupe_sublist.
  - apply dedupe_keeps_unkeyed.
Qed.

(** C5.  With a page cap N >= 1, the crawl of one category returns after
    at most N page requests, whatever the site answers, whatever the stop
    event does and whether or not an end page is set; the page loop itself
    ends, within any fuel above N, after at most N requests. *)
Theorem crawl_fetches_at_most_page_cap {Html : Type}
    (scrape : Html → string → list Item) (has_next : Html → option bool)
    (site : string → Z → nat → exn + Html) (cfg : Config)
    (stop_event : option Event) (category_name disp_ctg_id : string) (w : World) :
  (1 ≤ page_cap cfg)%Z →
  (∃ evs b w',
     crawl_category scrape has_next site cfg stop_event category_name disp_ctg_id w
     = (Ret b, w')
     ∧ trace w' = trace w ++ evs
     ∧ (Z.of_nat (length (fetched_pages evs)) ≤ page_cap cfg)%Z)
  ∧ (∀ fuel, (page_cap cfg < Z.of_nat fuel)%Z →
       ∃ evs r w',
         page_loop scrape has_next site cfg stop_event fuel category_name disp_ctg_id
                   (fresh cfg w) = (r, w')
         ∧ r ≠ Timeout
         ∧ trace w' = trace w ++ evs
         ∧ (Z.of_nat (length (fetched_pages evs)) ≤ page_cap cfg)%Z).
Proof.
  intros Hcap. split.
  - destruct (crawl_category_spec scrape has_next site cfg stop_event
                category_name disp_ctg_id w) as (evs & b & w' & Hrun & Htr & _ & Hget).
    exists evs, b, w'. split; [done|]. split; [done|]. lia.
  - intros fuel Hfuel.
    destruct (page_loop_spec scrape has_next site cfg stop_event category_name
                disp_ctg_id w fuel [] (fresh cfg w)) as (evs & Hloop).
    { apply fresh_at_head. }
    { unfold fresh. simpl. lia. }
    destruct (page_loop _ _ _ _ _ _ _ _ (fresh cfg w)) as [[[]|e|] w1]; [| |done];
      destruct Hloop as (Htr & _ & Hget & _).
    + exists evs, (Ret tt), w1. repeat split; try done. lia.
    + exists evs, (Raise e), w1. repeat split; try done. lia.
Qed.

(** On the fruit site with a cap of 3 pages. *)
Lemma crawl_fetches_at_most_page_cap_witness :
  (1 ≤ page_cap capped_cfg)%Z
  ∧ ∃ evs b w',
      crawl_category scrape_page next_of_page fruits_site capped_cfg None
                     "Fruits" "6000213114" empty_world = (Ret b, w')
      ∧ trace w' = trace empty_world ++ evs
      ∧ (Z.of_nat (length (fetched_pages evs)) ≤ page_cap capped_cfg)%Z.
Proof.
  split; [done|].
  apply (crawl_fetches_at_most_page_cap scrape_page next_of_page fruits_site
           capped_cfg None "Fruits" "6000213114" empty_world).
  done.
Defined.

(** With a cap of 3 and nothing else to stop it, the crawl requests pages
    1, 2 and 3. *)
Example capped_crawl_fetches_three_pages :
  fetched_pages
    (trace (crawl_category scrape_page next_of_page fruits_site capped_cfg None
                           "Fruits" "6000213114" empty_world).2)
  = [1; 2; 3]%Z.
Proof. vm_compute. reflexivity. Qed.

(** C6.  With [empty_page_stop] = t > 0: a page whose deduplicated yield is
    empty adds one to [consecutive_empty] and makes the loop [break] as
    soon as the counter has reached t, any other page puts the counter
    back to 0; the page loop of a category therefore never goes round with
    the counter at t, and when it ends with the counter at t the last
    thing it did was to extract that page (no further request, save or
    sleep).  On the site whose pages yield 5, 5, 0 and 0 new records, with
    t = 2, the crawl requests pages 1 to 4 and ends with 10 records in
    the buffer and in the snapshot. *)
Theorem empty_page_streak_stops_crawl :
  (∀ (cfg : Config) (new_items : list Item) (w : World),
     (0 < empty_page_stop cfg)%Z →
     (new_items = [] →
        empty_page_check cfg new_items w
        = (Ret (bool_decide (empty_page_stop cfg ≤ consecutive_empty w + 1)%Z),
           set_consecutive_empty (consecutive_empty w + 1) w))
     ∧ (new_items ≠ [] →
        empty_page_check cfg new_items w = (Ret false, set_consecutive_empty 0 w)))
  ∧ (∀ {Html : Type} (scrape : Html → string → list Item)
       (has_next : Html → option bool) (site : string → Z → nat → exn + Html)
       (cfg : Config) (stop_event : option Event)
       (category_name disp_ctg_id : string) (w : World),
       (0 < empty_page_stop cfg)%Z →
       ∃ evs r w',
         page_loop scrape has_next site cfg stop_event (page_fuel cfg)
                   category_name disp_ctg_id (fresh cfg w) = (r, w')
         ∧ r ≠ Timeout
         ∧ trace w' = trace w ++ evs
         ∧ (consecutive_empty w' ≤ empty_page_stop cfg)%Z
         ∧ (consecutive_empty w' = empty_page_stop cfg →
              ∃ pn items, last evs = Some (EvScraped pn items)))
  ∧ (let w' := (crawl_category scrape_page next_of_page fruits_site default_cfg None
                               "Fruits" "6000213114" empty_world).2 in
     empty_page_stop default_cfg = 2%Z
     ∧ page_yields (fruits_page <$> [1; 2; 3; 4]%Z) ∅ = [5; 5; 0; 0]%nat
     ∧ fetched_pages (trace w') = [1; 2; 3; 4]%Z
     ∧ length (collected w') = 10%nat
     ∧ consecutive_empty w' = 2%Z
     ∧ (length <$> files w' !! "result_json/Fruits.json") = Some 10%nat).
Proof.
  split; [|split].
  - intros cfg new_items w Ht. unfold empty_page_check. split.
    + intros ->. simpl. rewrite (bool_decide_eq_true_2 _ Ht). simpl.
      by case_bool_decide.
    + intros Hne. by destruct new_items.
  - intros Html scrape has_next site cfg stop_event category_name disp_ctg_id w Ht.
    destruct (page_loop_fresh scrape has_next site cfg stop_event
                category_name disp_ctg_id w) as (evs & Hloop).
    destruct (page_loop _ _ _ _ _ _ _ _ (fresh cfg w)) as [[[]|e|] w1]; [| |done];
      destruct Hloop as (Htr & _ & _ & Hle & Hlast).
    + exists evs, (Ret tt), w1. repeat split; try done; auto.
    + exists evs, (Raise e), w1. repeat split; try done; auto.
  - vm_compute. repeat split; reflexivity.
Qed.

(** C2.  The final save sits inside the [try] block, after the page loop:
    when the loop ends by a [break] the buffer is written to the
    category's snapshot, but when a request raises, control goes to the
    handler and the crawl of the category ends in the very state the
    exception left, nothing being written.  On the site whose second page
    fails, the five records of the first page are in the buffer and no
    snapshot exists. *)
Theorem crawl_fetch_error_skips_final_save :
  (∀ {Html : Type} (scrape : Html → string → list Item)
     (has_next : Html → option bool) (site : string → Z → nat → exn + Html)
     (cfg : Config) (stop_event : option Event)
     (category_name disp_ctg_id : string) (w w1 : World),
     page_loop scrape has_next site cfg stop_event (page_fuel cfg)
               category_name disp_ctg_id (fresh cfg w) = (Ret tt, w1) →
     ∃ b w',
       crawl_category scrape has_next site cfg stop_event category_name disp_ctg_id w
       = (Ret b, w')
       ∧ collected w' = collected w1
       ∧ files w' = <[out_path_of category_name := collected w1]> (files w1))
  ∧ (∀ {Html : Type} (scrape : Html → string → list Item)
       (has_next : Html → option bool) (site : string → Z → nat → exn + Html)
       (cfg : Config) (stop_event : option Event)
       (category_name disp_ctg_id : string) (w w1 : World) (e : exn),
       page_loop scrape has_next site cfg stop_event (page_fuel cfg)
                 category_name disp_ctg_id (fresh cfg w) = (Raise e, w1) →
       crawl_category scrape has_next site cfg stop_event category_name disp_ctg_id w
       = (Ret false, w1))
  ∧ (let run := crawl_category scrape_page next_of_page failing_site default_cfg None
                               "Fruits" "6000213114" empty_world in
     run.1 = Ret false
     ∧ fetched_pages (trace run.2) = [1; 2]%Z
     ∧ length (collected run.2) = 5%nat
     ∧ files run.2 = ∅
     ∧ last (trace run.2) = Some (EvGet "6000213114" 2)).
Proof.
  split; [|split].
  - intros Html scrape has_next site cfg stop_event category_name disp_ctg_id w w1 Hloop.
    unfold crawl_category, try_catch, mbind, M_bind, modify, mret, M_ret.
    change (set_visited_pages 0 _) with (fresh cfg w). rewrite Hloop.
    unfold gets, json_dump, modify, _should_stop. cbn -[out_path_of].
    match goal with
    | |- context [flag_at stop_event ?t] => destruct (flag_at stop_event t)
    end; eexists _, _; (split; [reflexivity|]); done.
  - intros Html scrape has_next site cfg stop_event category_name disp_ctg_id w w1 e Hloop.
    unfold crawl_category, try_catch, mbind, M_bind, modify, mret, M_ret.
    change (set_visited_pages 0 _) with (fresh cfg w). by rewrite Hloop.
  - vm_compute. repeat split; reflexivity.
Qed.

(** ** Saves, files and guards along a trace *)

Lemma files_after_app fs a b :
  files_after fs (a ++ b) = files_after (files_after fs a) b.
Proof. apply foldl_app. Qed.

Lemma quiet_files_after fs evs : Forall quiet evs → files_after fs evs = fs.
Proof.
  intros Hq. revert fs. induction Hq as [|e evs He _ IH]; intros fs; [done|].
  destruct e; try done; apply IH.
Qed.

Lemma saves_ok_app out_path acc a b :
  saves_ok out_path acc (a ++ b)
  ↔ saves_ok out_path acc a ∧ saves_ok out_path (acc ++ scraped_of a) b.
Proof.
  revert acc. induction a as [|e a IH]; intros acc; simpl.
  - rewrite app_nil_r. tauto.
  - destruct e; rewrite ?IH, ?scraped_of_cons, ?app_nil_l, ?app_assoc; tauto.
Qed.

Lemma quiet_saves_ok out_path acc evs : Forall quiet evs → saves_ok out_path acc evs.
Proof. induction 1 as [|e evs He _ IH]; [done|]. by destruct e. Qed.

Lemma guarded_weaken ev t c evs : guarded ev t false evs → guarded ev t c evs.
Proof. destruct evs as [|[] evs]; simpl; try done; by intros [? _]. Qed.

Lemma guarded_app ev t c a b :
  guarded ev t c a → guarded ev (t + length a) false b → guarded ev t c (a ++ b).
Proof.
  revert t c. induction a as [|e a IH]; intros t c Ha Hb; simpl in *.
  - rewrite Nat.add_0_r in Hb. by apply guarded_weaken.
  - replace (t + S (length a))%nat with (S t + length a)%nat in Hb by lia.
    destruct e; simpl in *; try destruct Ha as [? Ha]; try split; try done;
      by apply IH.
Qed.

Lemma sleep_run_guarded ev step t evs c :
  sleep_run ev step t evs → guarded ev t c evs.
Proof.
  intros Hrun. revert c.
  induction Hrun as [t0|t0 Hf|t0 t rest Hf Ht1 Ht2 Hrest IH]; intros c; simpl.
  - done.
  - by rewrite Hf.
  - rewrite Hf. repeat split; try done.
Qed.

(** Once the flag stays set, a guarded trace makes no request and no sleep
    after that instant. *)
Lemma guarded_after_signal ev (τ : nat) :
  (∀ t, τ ≤ t → flag_at ev t = true) →
  ∀ evs t c, guarded ev t c evs → (c = true → t ≤ τ) →
    ∀ i e, evs !! i = Some e →
      match e with
      | EvGet _ _ | EvSleep _ => t + i ≤ τ
      | _ => True
      end.
Proof.
  intros Hsig evs. induction evs as [|x evs IH]; intros t c Hg Hc i e Hi; [done|].
  destruct i as [|i]; simpl in Hi.
  - injection Hi as <-. destruct x; try done; simpl in Hg; destruct Hg as [Hg _];
      specialize (Hc Hg); lia.
  - replace (t + S i)%nat with (S t + i)%nat by lia.
    destruct x; simpl in Hg.
    + destruct Hg as [-> Hg]. apply (IH _ _ Hg); [|done].
      intros Hclear. destruct (decide (τ ≤ t)) as [Hle|]; [|lia].
      rewrite (Hsig _ Hle) in Hclear. done.
    + destruct Hg as [_ Hg]. by apply (IH _ _ Hg).
    + by apply (IH _ _ Hg).
    + destruct Hg as [_ Hg]. by apply (IH _ _ Hg).
    + by apply (IH _ _ Hg).
Qed.


Section StepFacts.
Context {Html : Type}.
Variable scrape : Html → string → list Item.
Variable has_next : Html → option bool.
Variable site : string → Z → nat → exn + Html.
Variable cfg : Config.
Variable stop_event : option Event.
Variables category_name disp_ctg_id : string.

Opaque _sleep_with_cancel.

Ltac flag_tac :=
  match goal with
  | H : flag_at _ ?a = ?b |- flag_at _ ?c = ?b =>
      rewrite <- H; f_equal; rewrite ?length_app; simpl; lia
  end.

Lemma empty_page_check_ret (new_items : list Item) w :
  ∃ b, (empty_page_check cfg new_items w).1 = Ret b.
Proof.
  unfold empty_page_check.
  destruct (bool_decide (length new_items = 0%nat)); [|by exists false].
  destruct (_ && _); by eexists.
Qed.

Lemma partial_save_ret w : (partial_save cfg category_name w).1 = Ret tt.
Proof. unfold partial_save. by destruct (_ && _). Qed.

Lemma page_body_step w :
  let '(r, w') := page_body scrape has_next site cfg stop_event category_name disp_ctg_id w in
  body_step scrape has_next site cfg stop_event category_name disp_ctg_id w r w'.
Proof.
  destruct w as [tr fs col seen ce pn vp].
  unfold page_body, mbind, M_bind, _should_stop, gets, mret, M_ret, now, log. simpl.
  destruct (flag_at stop_event (length tr)) eqn:Hf1; simpl.
  { by apply step_stop_first. }
  assert (Hend : (∃ e, end_page cfg = Some e ∧ (e < pn)%Z
                       ∧ match end_page cfg with
                         | Some e => bool_decide (e < pn)%Z
                         | None => false
                         end = true)
                 ∨ ((∀ e, end_page cfg = Some e → (pn ≤ e)%Z)
                    ∧ match end_page cfg with
                      | Some e => bool_decide (e < pn)%Z
                      | None => false
                      end = false)).
  { destruct (end_page cfg) as [e|]; [|by right].
    case_bool_decide; [left; by exists e|].
    right. split; [|done]. intros ? [= <-]. lia. }
  destruct Hend as [(e & He & Hlt & ->)|[Hend ->]]; simpl.
  { by eapply step_end_page. }
  case_bool_decide as Hvp; simpl.
  { by apply step_page_cap. }
  rewrite length_app. simpl.
  destruct (flag_at stop_event (length tr + 1)) eqn:Hf2; simpl.
  { rewrite <- app_assoc. simpl. by apply step_stop_second. }
  assert (Hmay : may_request cfg stop_event (mkWorld tr fs col seen ce pn vp)).
  { repeat split; try done. simpl. lia. }
  unfold session_get, now, log. simpl.
  rewrite <- !app_assoc. simpl. rewrite length_app. simpl.
  destruct (site disp_ctg_id pn (length tr + 2)) as [e|html] eqn:Hsite; simpl.
  { by apply step_raise. }
  rewrite length_app. simpl.
  destruct (flag_at stop_event (length tr + 3)) eqn:Hf3; simpl.
  { rewrite <- !app_assoc. simpl. by eapply step_stop_third. }
  rewrite <- !app_assoc. simpl.
  destruct (dedupe (scrape html category_name) seen) as [new_items seen'] eqn:Hdd.
  set (w := mkWorld tr fs col seen ce pn vp) in *.
  assert (Hy : yield scrape category_name html w = new_items).
  { unfold yield. simpl. by rewrite Hdd. }
  assert (Hm : merged scrape category_name disp_ctg_id html w
               = set_collected (col ++ new_items)
                   (set_seen_ids seen'
                      (mkWorld (tr ++ pass_events scrape category_name disp_ctg_id html w)
                               fs col seen ce pn vp))).
  { unfold merged. simpl. by rewrite Hdd. }
  change (collected _ ++ new_items) with (col ++ new_items).
  unfold pass_events in Hm. simpl in Hm. rewrite <- Hm.
  pose proof (step_break scrape has_next site cfg stop_event category_name disp_ctg_id
                w html Hmay Hsite Hf3) as Hbrk.
  pose proof (step_again scrape has_next site cfg stop_event category_name disp_ctg_id
                w html) as Hagain.
  unfold advanced in Hagain. rewrite Hy in Hbrk, Hagain.
  destruct (empty_page_check_ret new_items
              (merged scrape category_name disp_ctg_id html w)) as [b Hb].
  destruct (empty_page_check cfg new_items _) as [rb w1]. simpl in *. subst rb.
  destruct b; simpl.
  { apply Hbrk. by left. }
  case_bool_decide as Hdom; simpl.
  { apply Hbrk. by right. }
  pose proof (partial_save_ret (set_visited_pages (visited_pages w1 + 1) w1)) as Hps.
  destruct (partial_save cfg category_name _) as [rs w2]. simpl in *. subst rs.
  destruct (sleep_with_cancel_spec (page_delay cfg) stop_event 0.1
              (set_page_num (page_num w2 + 1) w2)) as (evs & Hsleep & _ & Hrun).
  rewrite Hsleep. by apply Hagain.
Qed.

Transparent _sleep_with_cancel.

Lemma seqZ_snoc (m n : Z) : (0 ≤ n)%Z → seqZ m (n + 1) = seqZ m n ++ [(m + n)%Z].
Proof.
  intros Hn. rewrite seqZ_app by lia. by f_equal.
Qed.

Lemma empty_page_check_world (new_items : list Item) w :
  ∃ n, (empty_page_check cfg new_items w).2 = set_consecutive_empty n w.
Proof.
  unfold empty_page_check.
  destruct (bool_decide (length new_items = 0%nat)); [|by eexists].
  destruct (_ && _); by eexists.
Qed.

Lemma advanced_spec html w :
  let w' := advanced scrape cfg category_name disp_ctg_id html w in
  let new_items := yield scrape category_name html w in
  ∃ saved,
    (saved = [] ∨ saved = [EvDump (out_path_of category_name) (collected w ++ new_items)])
    ∧ trace w' = trace w ++ pass_events scrape category_name disp_ctg_id html w ++ saved
    ∧ files w' = files_after (files w) saved
    ∧ collected w' = collected w ++ new_items
    ∧ seen_ids w' = (dedupe (scrape html category_name) (seen_ids w)).2
    ∧ page_num w' = (page_num w + 1)%Z
    ∧ visited_pages w' = (visited_pages w + 1)%Z.
Proof.
  unfold advanced.
  destruct (empty_page_check_world (yield scrape category_name html w)
              (merged scrape category_name disp_ctg_id html w)) as [n ->].
  unfold partial_save. destruct (_ && _); simpl.
  - eexists. split; [by right|]. rewrite <- !app_assoc. simpl. done.
  - exists []. split; [by left|]. done.
Qed.

Ltac flags :=
  repeat split; try done;
  try (symmetry;
       match goal with
       | H : flag_at _ ?a = ?b |- flag_at _ ?c = ?b => rewrite <- H; f_equal; lia
       end).

Ltac trace_norm :=
  rewrite ?scraped_of_app, ?fetched_pages_app, ?scraped_of_cons, ?fetched_pages_cons;
  simpl; rewrite ?app_nil_r, ?length_app; simpl.

Lemma crawl_exit_after w0 evs w b w' :
  crawl_head cfg stop_event category_name w0 evs w →
  trace w' = trace w ++ b →
  buffer_ok (evs ++ b) w' →
  fetched_pages b = []
  ∨ (fetched_pages b = [page_num w]
     ∧ may_request cfg stop_event w) →
  saves_ok (out_path_of category_name) (scraped_of evs) b →
  files w' = files_after (files w) b →
  guarded stop_event (now w) false b →
  crawl_exit cfg stop_event category_name w0 (evs ++ b) w'.
Proof.
  intros (Htr & _ & Hvp & Hpn & Hget & Hend & Hsaves & Hfiles & Hg)
         Htr' Hbuf Hb Hsaves' Hfiles' Hg'.
  assert (Hnow : (now w0 + length evs)%nat = now w).
  { unfold now. by rewrite Htr, length_app. }
  split; [by rewrite Htr', Htr, app_assoc|].
  split; [done|].
  split.
  { destruct Hb as [Hb|[Hb (_ & Hmay & Hlt & _)]].
    - exists (visited_pages w). rewrite fetched_pages_app, Hb, app_nil_r.
      split; [lia|]. done.
    - exists (visited_pages w + 1)%Z. rewrite fetched_pages_app, Hb, Hget, Hpn.
      split; [lia|]. split; [by rewrite seqZ_snoc by lia|].
      intros e He _. specialize (Hmay e He). lia. }
  split; [by apply saves_ok_app|].
  split; [by rewrite files_after_app, <- Hfiles|].
  apply guarded_app; [done|]. by rewrite Hnow.
Qed.

Lemma body_step_inv w0 evs w r w' :
  crawl_head cfg stop_event category_name w0 evs w →
  body_step scrape has_next site cfg stop_event category_name disp_ctg_id w r w' →
  ∃ evs',
    match r with
    | Ret true =>
        crawl_head cfg stop_event category_name w0 evs' w'
        ∧ visited_pages w' = (visited_pages w + 1)%Z
        ∧ (visited_pages w < page_cap cfg)%Z
    | Ret false => crawl_exit cfg stop_event category_name w0 evs' w'
    | Raise e =>
        crawl_exit cfg stop_event category_name w0 evs' w'
        ∧ ∃ p t, site disp_ctg_id p t = inl e
    | Timeout => False
    end.
Proof.
  intros Hhead Hstep.
  pose proof Hhead as (Htr & [Hcol Hseen] & Hvp & Hpn & Hget & Hend & Hsaves & Hfiles & Hg).
  assert (Hnow : (now w0 + length evs)%nat = now w).
  { unfold now. by rewrite Htr, length_app. }
  assert (Hsame : ∀ b, scraped_of b = [] → buffer_ok (evs ++ b) (extend b w)).
  { intros b Hb. unfold buffer_ok. by rewrite scraped_of_app, Hb, app_nil_r. }
  destruct Hstep as [Hf1|e Hf1 He Hlt|Hf1 Hcap|Hf1 Hf2|e Hmay Hsite|html Hmay Hsite Hf3
                    |html Hmay Hsite Hf3 Hbrk|html evs_s Hmay Hsite Hf3 Hbrk Hdom Hsleep Hrun].
  - exists (evs ++ [EvStop true]).
    apply (crawl_exit_after w0 evs w _ _ Hhead);
      [done | by apply Hsame | by left | done | done | simpl; flags].
  - exists (evs ++ [EvStop false]).
    apply (crawl_exit_after w0 evs w _ _ Hhead);
      [done | by apply Hsame | by left | done | done | simpl; flags].
  - exists (evs ++ [EvStop false]).
    apply (crawl_exit_after w0 evs w _ _ Hhead);
      [done | by apply Hsame | by left | done | done | simpl; flags].
  - exists (evs ++ [EvStop false; EvStop true]).
    apply (crawl_exit_after w0 evs w _ _ Hhead);
      [done | by apply Hsame | by left | done | done | simpl; flags].
  - exists (evs ++ [EvStop false; EvStop false; EvGet disp_ctg_id (page_num w)]).
    split; [|by eauto].
    pose proof Hmay as (? & ? & ? & ?).
    apply (crawl_exit_after w0 evs w _ _ Hhead);
      [done | by apply Hsame | by right | done | done | simpl; flags].
  - exists (evs ++ [EvStop false; EvStop false; EvGet disp_ctg_id (page_num w); EvStop true]).
    pose proof Hmay as (? & ? & ? & ?).
    apply (crawl_exit_after w0 evs w _ _ Hhead);
      [done | by apply Hsame | by right | done | done | simpl; flags].
  - destruct (empty_page_check_world (yield scrape category_name html w)
                (merged scrape category_name disp_ctg_id html w)) as [n ->].
    exists (evs ++ pass_events scrape category_name disp_ctg_id html w).
    pose proof Hmay as (? & ? & ? & ?).
    apply (crawl_exit_after w0 evs w _ _ Hhead);
      [done | | by right | done | done | simpl; flags].
    unfold buffer_ok, pass_events. trace_norm. rewrite dedupe_app. simpl.
    by rewrite <- Hcol, <- Hseen.
  - destruct (advanced_spec html w)
      as (saved & Hsaved & Htr' & Hfiles' & Hcol' & Hseen' & Hpn' & Hvp').
    cbv zeta in *.
    remember (advanced scrape cfg category_name disp_ctg_id html w) as w1 eqn:Hw1.
    clear Hw1. set (items := scrape html category_name) in *.
    pose proof Hmay as (Hf1 & Hle & Hlt & Hf2).
    assert (Hq := sleep_run_quiet _ _ _ _ Hrun).
    assert (Hbuf : collected w1 = (dedupe (scraped_of evs ++ items) ∅).1
                   ∧ seen_ids w1 = (dedupe (scraped_of evs ++ items) ∅).2).
    { rewrite Hcol', Hseen', dedupe_app. simpl. unfold yield.
      by rewrite <- Hcol, <- Hseen. }
    assert (Hs : scraped_of saved = [] ∧ fetched_pages saved = []).
    { by destruct Hsaved as [->| ->]. }
    destruct Hs as [Hs1 Hs2].
    exists (evs ++ pass_events scrape category_name disp_ctg_id html w ++ saved ++ evs_s).
    split; [|split; [done | lia]].
    split; [simpl; by rewrite Htr', Htr, <- !app_assoc|].
    split.
    { unfold buffer_ok, pass_events. simpl. trace_norm.
      rewrite scraped_of_app, Hs1, (quiet_scraped _ Hq). simpl. by rewrite app_nil_r. }
    simpl. rewrite Hvp', Hpn'.
    split; [lia|]. split; [lia|].
    split.
    { unfold pass_events. trace_norm.
      rewrite fetched_pages_app, Hs2, (quiet_fetched _ Hq). simpl.
      by rewrite seqZ_snoc, Hget, Hpn by lia. }
    split.
    { intros e He _. specialize (Hle e He). lia. }
    split.
    { apply saves_ok_app. split; [done|].
      unfold pass_events. simpl.
      apply saves_ok_app. split; [|by apply quiet_saves_ok].
      destruct Hsaved as [->| ->]; [done|]. simpl.
      unfold yield. fold items. destruct Hbuf as [Hb1 _]. rewrite <- Hb1, Hcol'.
      done. }
    split.
    { rewrite files_after_app, <- Hfiles. unfold pass_events. simpl.
      rewrite files_after_app, (quiet_files_after _ _ Hq). done. }
    apply guarded_app; [done|]. rewrite Hnow.
    unfold pass_events. simpl. flags.
    change (guarded stop_event (5 + now w) false (saved ++ evs_s)).
    assert (Hn1 : now w1 = (5 + now w + length saved)%nat).
    { unfold now. rewrite Htr', !length_app. unfold pass_events. simpl. lia. }
    apply guarded_app.
    + by destruct Hsaved as [->| ->].
    + rewrite <- Hn1. by eapply sleep_run_guarded.
Qed.

Lemma body_step_trace w r w' :
  body_step scrape has_next site cfg stop_event category_name disp_ctg_id w r w' →
  ∃ b, trace w' = trace w ++ b.
Proof.
  intros Hstep.
  destruct Hstep as [Hf1|e Hf1 He Hlt|Hf1 Hcap|Hf1 Hf2|e Hmay Hsite|html Hmay Hsite Hf3
                    |html Hmay Hsite Hf3 Hbrk|html evs_s Hmay Hsite Hf3 Hbrk Hdom Hsleep Hrun];
    try (by eexists).
  - destruct (empty_page_check_world (yield scrape category_name html w)
                (merged scrape category_name disp_ctg_id html w)) as [n ->].
    by eexists.
  - destruct (advanced_spec html w) as (saved & _ & Htr' & _). cbv zeta in Htr'.
    eexists. unfold extend. cbn [trace]. rewrite Htr', <- !app_assoc. done.
Qed.

Lemma page_loop_trace fuel :
  ∀ w, ∃ b,
    trace (page_loop scrape has_next site cfg stop_event fuel category_name disp_ctg_id w).2
    = trace w ++ b.
Proof.
  induction fuel as [|fuel IH]; intros w; simpl.
  - exists []. by rewrite app_nil_r.
  - unfold mbind, M_bind.
    pose proof (page_body_step w) as Hstep.
    destruct (page_body _ _ _ _ _ _ _ w) as [r w1].
    destruct (body_step_trace _ _ _ Hstep) as [b Hb].
    destruct r as [[|]|e|]; simpl; try by exists b.
    destruct (IH w1) as [b' Hb']. exists (b ++ b'). by rewrite Hb', Hb, app_assoc.
Qed.

Lemma page_loop_inv w0 fuel :
  ∀ evs w,
    crawl_head cfg stop_event category_name w0 evs w →
    (Z.max 0 (page_cap cfg - visited_pages w) < Z.of_nat fuel)%Z →
    ∃ evs',
      match page_loop scrape has_next site cfg stop_event fuel category_name disp_ctg_id w with
      | (Ret _, w') => crawl_exit cfg stop_event category_name w0 evs' w'
      | (Raise e, w') =>
          crawl_exit cfg stop_event category_name w0 evs' w'
          ∧ ∃ p t, site disp_ctg_id p t = inl e
      | (Timeout, _) => False
      end.
Proof.
  induction fuel as [|fuel IH]; intros evs w Hhead Hfuel; [lia|].
  simpl. unfold mbind, M_bind.
  pose proof (page_body_step w) as Hstep.
  destruct (page_body _ _ _ _ _ _ _ w) as [r w1].
  destruct (body_step_inv w0 evs w r w1 Hhead Hstep) as (evs1 & Hinv).
  destruct r as [[|]|e|]; try done.
  - destruct Hinv as (Hhead1 & Hvp & Hlt). apply (IH evs1 w1 Hhead1). lia.
  - by exists evs1.
  - by exists evs1.
Qed.

Lemma fresh_crawl_head w :
  crawl_head cfg stop_event category_name w [] (fresh cfg w).
Proof.
  unfold crawl_head, buffer_ok, fresh. simpl.
  rewrite app_nil_r. repeat split; try done; lia.
Qed.

Opaque page_loop.

(** The whole crawl of a category: it returns, the exit invariant holds of
    everything it did, the final save included; it asks [run_scraper] to
    return only when its last check found the flag set; and, unless a
    request failed, the category's file holds the buffer. *)
Lemma crawl_category_inv w :
  ∃ evs b w',
    crawl_category scrape has_next site cfg stop_event category_name disp_ctg_id w
    = (Ret b, w')
    ∧ crawl_exit cfg stop_event category_name w evs w'
    ∧ (b = true → ∃ t, flag_at stop_event t = true)
    ∧ ((∀ p t e, site disp_ctg_id p t ≠ inl e) →
       files w' !! out_path_of category_name = Some (collected w')).
Proof.
  destruct (page_loop_inv w (page_fuel cfg) [] (fresh cfg w) (fresh_crawl_head w))
    as (evs & Hloop).
  { unfold page_fuel, fresh. simpl. lia. }
  unfold crawl_category, try_catch, mbind, M_bind, modify, mret, M_ret. simpl.
  fold (fresh cfg w).
  destruct (page_loop _ _ _ _ _ _ _ _ (fresh cfg w)) as [[[]|e|] w1]; [| |done].
  - destruct Hloop as (Htr & [Hcol Hseen] & Hpages & Hsaves & Hfiles & Hg).
    unfold gets, json_dump, modify, _should_stop. cbn -[out_path_of].
    assert (Hnow : now w1 = (now w + length evs)%nat).
    { unfold now. rewrite Htr. simpl. by rewrite length_app. }
    rewrite length_app. cbn [length]. fold (now w1).
    exists (evs ++ [EvDump (out_path_of category_name) (collected w1);
                    EvStop (flag_at stop_event (now w1 + 1))]).
    destruct (flag_at stop_event (now w1 + 1)) eqn:Hflag.
    all: eexists _, _; (split; [reflexivity|]).
    all: split; [|split; [first [done | by eauto] | intros _; cbn -[out_path_of];
                                        by rewrite lookup_insert_eq]].
    all: split; [cbn -[out_path_of]; rewrite Htr; simpl; rewrite <- ?app_assoc;
                 reflexivity|].
    all: split; [unfold buffer_ok; by rewrite scraped_of_app, app_nil_r|].
    all: split; [by rewrite fetched_pages_app, app_nil_r|].
    all: split; [apply saves_ok_app; split; [done|]; simpl; by rewrite Hcol|].
    all: split; [cbn -[out_path_of]; rewrite files_after_app, Hfiles; simpl; done|].
    all: apply guarded_app; [done|]; simpl; rewrite <- Hnow;
      replace (S (now w1)) with (now w1 + 1)%nat by lia; by rewrite Hflag.
  - destruct Hloop as [Hexit (p & t & Hfail)].
    exists evs, false, w1. split; [done|]. split; [exact Hexit|].
    split; [done|]. intros Hok. by destruct (Hok p t e).
Qed.

Transparent page_loop.

Lemma page_loop_S fuel w :
  page_loop scrape has_next site cfg stop_event (S fuel) category_name disp_ctg_id w
  = (again ← page_body scrape has_next site cfg stop_event category_name disp_ctg_id;
     if (again : bool)
     then page_loop scrape has_next site cfg stop_event fuel category_name disp_ctg_id
     else mret tt) w.
Proof. reflexivity. Qed.

(** With the flag never set, a cap of at least one page and an end page
    not before the start page, the first pass requests the start page. *)
Lemma page_loop_first_request fuel w :
  (∀ t, flag_at stop_event t = false) →
  (1 ≤ page_cap cfg)%Z →
  (∀ e, end_page cfg = Some e → (start_page cfg ≤ e)%Z) →
  page_num w = start_page cfg → visited_pages w = 0%Z →
  ∃ b,
    trace (page_loop scrape has_next site cfg stop_event (S fuel)
                     category_name disp_ctg_id w).2 = trace w ++ b
    ∧ EvGet disp_ctg_id (start_page cfg) ∈ b.
Proof.
  intros Hnever Hcap Hend Hpn Hvp.
  rewrite page_loop_S. unfold mbind, M_bind.
  pose proof (page_body_step w) as Hstep.
  destruct (page_body _ _ _ _ _ _ _ w) as [r w1].
  assert (Hfirst : ∃ b, trace w1 = trace w ++ b ∧ EvGet disp_ctg_id (start_page cfg) ∈ b).
  { destruct Hstep as [Hf1|e Hf1 He Hlt|Hf1 Hcap'|Hf1 Hf2|e Hmay Hsite|html Hmay Hsite Hf3
                      |html Hmay Hsite Hf3 Hbrk|html evs_s Hmay Hsite Hf3 Hbrk Hdom Hsleep Hrun].
    - by rewrite Hnever in Hf1.
    - specialize (Hend e He). lia.
    - lia.
    - by rewrite Hnever in Hf2.
    - eexists. split; [reflexivity|]. rewrite Hpn.
      do 2 apply list_elem_of_further. apply list_elem_of_here.
    - by rewrite Hnever in Hf3.
    - destruct (empty_page_check_world (yield scrape category_name html w)
                  (merged scrape category_name disp_ctg_id html w)) as [n ->].
      eexists. split; [reflexivity|]. unfold pass_events. rewrite Hpn.
      do 2 apply list_elem_of_further. apply list_elem_of_here.
    - destruct (advanced_spec html w) as (saved & _ & Htr' & _). cbv zeta in Htr'.
      eexists. unfold extend. cbn [trace]. rewrite Htr', <- !app_assoc.
      split; [reflexivity|]. unfold pass_events. rewrite Hpn.
      do 2 apply list_elem_of_further. apply list_elem_of_here. }
  destruct Hfirst as (b & Hb & Hin).
  destruct r as [[|]|e|]; simpl; try by exists b.
  destruct (page_loop_trace fuel w1) as [b' Hb'].
  exists (b ++ b'). rewrite Hb', Hb, app_assoc. split; [done|].
  apply elem_of_app. by left.
Qed.

Opaque page_loop.

Lemma crawl_first_request w evs b w' :
  (∀ t, flag_at stop_event t = false) →
  (1 ≤ page_cap cfg)%Z →
  (∀ e, end_page cfg = Some e → (start_page cfg ≤ e)%Z) →
  crawl_category scrape has_next site cfg stop_event category_name disp_ctg_id w
  = (Ret b, w') →
  trace w' = trace w ++ evs →
  EvGet disp_ctg_id (start_page cfg) ∈ evs ∧ b = false.
Proof.
  intros Hnever Hcap Hend Hrun Htr.
  destruct (page_loop_first_request (Z.to_nat (page_cap cfg)) (fresh cfg w)
              Hnever Hcap Hend eq_refl eq_refl) as (b1 & Hb1 & Hin).
  fold (page_fuel cfg) in Hb1.
  revert Hrun.
  unfold crawl_category, try_catch, mbind, M_bind, modify, mret, M_ret. simpl.
  fold (fresh cfg w).
  destruct (page_loop _ _ _ _ _ _ _ _ (fresh cfg w)) as [[[]|e|] w1]; simpl in Hb1.
  - unfold gets, json_dump, modify, _should_stop. cbn -[out_path_of]. rewrite Hnever.
    intros [= <- <-]. split; [|done].
    revert Htr. cbn -[out_path_of]. rewrite Hb1, <- !app_assoc.
    intros <-%app_inv_head. apply elem_of_app. by left.
  - intros [= <- <-]. split; [|done].
    rewrite Hb1 in Htr. by apply app_inv_head in Htr as <-.
  - done.
Qed.

Transparent page_loop.

End StepFacts.

(** ** The whole run *)

Lemma saved_paths_app a b : saved_paths (a ++ b) = saved_paths a ++ saved_paths b.
Proof. apply flat_map_app. Qed.

Lemma saves_ok_paths out_path acc evs :
  saves_ok out_path acc evs → Forall (λ p, p = out_path) (saved_paths evs).
Proof.
  revert acc. induction evs as [|e evs IH]; intros acc Hs; [constructor|].
  destruct e; simpl in *; try by eapply IH.
  destruct Hs as (-> & _ & Hs). constructor; [done | by eapply IH].
Qed.

Lemma files_after_other fs evs (q : string) :
  q ∉ saved_paths evs → files_after fs evs !! q = fs !! q.
Proof.
  revert fs. induction evs as [|e evs IH]; intros fs Hq; [done|].
  destruct e; simpl in *; try by apply IH.
  rewrite not_elem_of_cons in Hq. destruct Hq as [Hne Hq].
  unfold files_after in *. simpl. rewrite IH by done. by rewrite lookup_insert_ne.
Qed.

Section WholeRun.

Context {Html : Type}.
Variable scrape : Html → string → list Item.
Variable has_next : Html → option bool.
Variable site : string → Z → nat → exn + Html.
Variable cfg : Config.
Variable stop_event : option Event.

Lemma category_loop_inv (categories : list (string * string)) :
  ∀ w, ∃ evs w',
    category_loop scrape has_next site cfg stop_event categories w = (Ret tt, w')
    ∧ trace w' = trace w ++ evs
    ∧ guarded stop_event (now w) false evs
    ∧ (Z.of_nat (length (fetched_pages evs))
       ≤ Z.of_nat (length categories) * Z.max 0 (page_cap cfg))%Z
    ∧ files w' = files_after (files w) evs
    ∧ Forall (λ p, p ∈ (λ c, out_path_of c.1) <$> categories) (saved_paths evs).
Proof.
  induction categories as [|[name cid] rest IH]; intros w.
  - exists [], w. simpl. rewrite app_nil_r. repeat split; done.
  - simpl. unfold mbind, M_bind, _should_stop.
    destruct (flag_at stop_event (now w)) eqn:Hf.
    { exists [EvStop true], (log (EvStop true) w). simpl.
      repeat split; try done. lia. }
    destruct (crawl_category_inv scrape has_next site cfg stop_event name cid
                (log (EvStop false) w))
      as (evs1 & b & w1 & -> & (Htr1 & _ & (n & Hn & Hget & _) & Hsaves & Hfiles & Hg) & _).
    assert (Hlen : Z.of_nat (length (fetched_pages evs1)) = n).
    { rewrite Hget, length_seqZ. lia. }
    assert (Hpaths : Forall (λ p, p ∈ (λ c : string * string, out_path_of c.1)
                                       <$> (name, cid) :: rest)
                            (saved_paths evs1)).
    { eapply Forall_impl; [by eapply saves_ok_paths|].
      intros p ->. apply list_elem_of_here. }
    assert (Hg1 : guarded stop_event (now w) false (EvStop false :: evs1)).
    { simpl. split; [done|]. apply guarded_weaken.
      revert Hg. unfold now. simpl. rewrite length_app. simpl.
      by replace (length (trace w) + 1)%nat with (S (length (trace w))) by lia. }
    destruct b.
    { exists (EvStop false :: evs1), w1. split; [done|].
      split; [rewrite Htr1; simpl; by rewrite <- app_assoc|].
      split; [done|].
      split; [simpl; lia|].
      split; [done | done]. }
    destruct (IH w1) as (evs2 & w2 & -> & Htr2 & Hg2 & Hget2 & Hfiles2 & Hpaths2).
    exists (EvStop false :: evs1 ++ evs2), w2. split; [done|].
    split; [rewrite Htr2, Htr1; simpl; by rewrite <- !app_assoc|].
    split.
    { change (guarded stop_event (now w) false ((EvStop false :: evs1) ++ evs2)).
      apply guarded_app; [done|].
      replace (now w + length (EvStop false :: evs1))%nat with (now w1); [done|].
      unfold now. rewrite Htr1. simpl. rewrite !length_app. simpl. lia. }
    split.
    { rewrite fetched_pages_cons. simpl. rewrite fetched_pages_app, length_app. lia. }
    split.
    { rewrite Hfiles2, Hfiles. simpl. by rewrite files_after_app. }
    simpl. rewrite saved_paths_app. apply Forall_app. split; [done|].
    eapply Forall_impl; [exact Hpaths2|].
    intros p Hp. by apply list_elem_of_further.
Qed.

Lemma category_loop_requests_all (categories : list (string * string)) :
  (∀ t, flag_at stop_event t = false) →
  (1 ≤ page_cap cfg)%Z →
  (∀ e, end_page cfg = Some e → (start_page cfg ≤ e)%Z) →
  ∀ w evs w',
    category_loop scrape has_next site cfg stop_event categories w = (Ret tt, w') →
    trace w' = trace w ++ evs →
    ∀ name cid, (name, cid) ∈ categories → EvGet cid (start_page cfg) ∈ evs.
Proof.
  intros Hnever Hcap Hend.
  induction categories as [|[name cid] rest IH]; intros w evs w' Hrun Htr name' cid' Hin.
  { by apply elem_of_nil in Hin. }
  revert Hrun. simpl. unfold mbind, M_bind, _should_stop. rewrite Hnever.
  destruct (crawl_category_inv scrape has_next site cfg stop_event name cid
              (log (EvStop false) w)) as (evs1 & b & w1 & Hrun1 & (Htr1 & _) & _).
  rewrite Hrun1.
  destruct (crawl_first_request scrape has_next site cfg stop_event name cid
              _ _ _ _ Hnever Hcap Hend Hrun1 Htr1) as [Hfirst ->].
  intros Hrest.
  destruct (category_loop_inv rest w1) as (evs2 & w2 & Hrun2 & Htr2 & _).
  rewrite Hrun2 in Hrest. injection Hrest as <-.
  assert (Hevs : evs = EvStop false :: evs1 ++ evs2).
  { rewrite Htr2, Htr1 in Htr. simpl in Htr. rewrite <- !app_assoc in Htr.
    by apply app_inv_head in Htr as <-. }
  rewrite Hevs. apply list_elem_of_further, elem_of_app.
  apply elem_of_cons in Hin as [[= -> ->]|Hin]; [by left|].
  right. by apply (IH w1 evs2 w2 Hrun2 Htr2 name' cid').
Qed.

End WholeRun.

(** ** The stretches of a run *)

Lemma fetched_ids_app a b : fetched_ids (a ++ b) = fetched_ids a ++ fetched_ids b.
Proof. apply flat_map_app. Qed.

Lemma fetched_ids_length evs : length (fetched_ids evs) = length (fetched_pages evs).
Proof.
  induction evs as [|e evs IH]; [done|].
  destruct e; simpl; try done. by rewrite IH.
Qed.

Lemma no_request_no_id evs : fetched_pages evs = [] → fetched_ids evs = [].
Proof.
  intros Hf. apply length_zero_iff_nil. by rewrite fetched_ids_length, Hf.
Qed.

Section Stretches.

Context {Html : Type}.
Variable scrape : Html → string → list Item.
Variable has_next : Html → option bool.
Variable site : string → Z → nat → exn + Html.
Variable cfg : Config.
Variable stop_event : option Event.

Lemma body_step_ids category_name disp_ctg_id w r w' :
  body_step scrape has_next site cfg stop_event category_name disp_ctg_id w r w' →
  ∃ b, trace w' = trace w ++ b ∧ Forall (λ c, c = disp_ctg_id) (fetched_ids b).
Proof.
  intros Hstep.
  destruct Hstep as [Hf1|e Hf1 He Hlt|Hf1 Hcap|Hf1 Hf2|e Hmay Hsite|html Hmay Hsite Hf3
                    |html Hmay Hsite Hf3 Hbrk|html evs_s Hmay Hsite Hf3 Hbrk Hdom Hsleep Hrun];
    try (eexists; split; [reflexivity|]; by repeat constructor).
  - destruct (empty_page_check_world cfg (yield scrape category_name html w)
                (merged scrape category_name disp_ctg_id html w)) as [n ->].
    eexists. split; [reflexivity|]. unfold pass_events. simpl. by repeat constructor.
  - destruct (advanced_spec scrape cfg category_name disp_ctg_id html w)
      as (saved & Hsaved & Htr' & _). cbv zeta in Htr'.
    eexists. unfold extend. cbn [trace]. rewrite Htr', <- !app_assoc.
    split; [reflexivity|]. unfold pass_events.
    rewrite !fetched_ids_app. simpl.
    rewrite (no_request_no_id evs_s (quiet_fetched _ (sleep_run_quiet _ _ _ _ Hrun))).
    replace (fetched_ids saved) with (@nil string) by (by destruct Hsaved as [->| ->]).
    simpl. by repeat constructor.
Qed.

Lemma page_loop_ids category_name disp_ctg_id fuel :
  ∀ w, ∃ b,
    trace (page_loop scrape has_next site cfg stop_event fuel category_name disp_ctg_id w).2
    = trace w ++ b
    ∧ Forall (λ c, c = disp_ctg_id) (fetched_ids b).
Proof.
  induction fuel as [|fuel IH]; intros w; simpl.
  - exists []. rewrite app_nil_r. split; [done | constructor].
  - unfold mbind, M_bind.
    pose proof (page_body_step scrape has_next site cfg stop_event category_name
                  disp_ctg_id w) as Hstep.
    destruct (page_body _ _ _ _ _ _ _ w) as [r w1].
    destruct (body_step_ids _ _ _ _ _ Hstep) as (b & Hb & HP).
    destruct r as [[|]|e|]; simpl; try by exists b.
    destruct (IH w1) as (b' & Hb' & HP'). exists (b ++ b').
    rewrite Hb', Hb, app_assoc. split; [done|].
    rewrite fetched_ids_app. by apply Forall_app.
Qed.

Opaque page_loop.

Lemma crawl_ids category_name disp_ctg_id w evs b w' :
  crawl_category scrape has_next site cfg stop_event category_name disp_ctg_id w
  = (Ret b, w') →
  trace w' = trace w ++ evs →
  Forall (λ c, c = disp_ctg_id) (fetched_ids evs).
Proof.
  intros Hrun Htr.
  destruct (page_loop_ids category_name disp_ctg_id (page_fuel cfg) (fresh cfg w))
    as (b1 & Hb1 & HP).
  revert Hrun.
  unfold crawl_category, try_catch, mbind, M_bind, modify, mret, M_ret. simpl.
  fold (fresh cfg w). fold (page_fuel cfg).
  destruct (page_loop _ _ _ _ _ _ _ _ (fresh cfg w)) as [[[]|e|] w1]; simpl in Hb1.
  - unfold gets, json_dump, modify, _should_stop. cbn -[out_path_of].
    match goal with
    | |- context [flag_at stop_event ?t] => destruct (flag_at stop_event t)
    end; intros [= <- <-]; revert Htr; cbn -[out_path_of];
      rewrite Hb1, <- !app_assoc; intros <-%app_inv_head;
      rewrite fetched_ids_app; simpl; by rewrite app_nil_r.
  - intros [= <- <-]. rewrite Hb1 in Htr. by apply app_inv_head in Htr as <-.
  - done.
Qed.

Transparent page_loop.

Lemma category_loop_crawls (categories : list (string * string)) :
  ∀ w evs w',
    category_loop scrape has_next site cfg stop_event categories w = (Ret tt, w') →
    trace w' = trace w ++ evs →
    crawls cfg categories evs.
Proof.
  induction categories as [|[name cid] rest IH]; intros w evs w' Hrun Htr.
  { injection Hrun as <-. rewrite <- (app_nil_r (trace w)) in Htr at 1.
    apply app_inv_head in Htr as <-. by constructor. }
  revert Hrun. simpl. unfold mbind, M_bind, _should_stop.
  destruct (flag_at stop_event (now w)) eqn:Hf.
  { intros [= <-]. simpl in Htr. apply app_inv_head in Htr as <-. by constructor. }
  destruct (crawl_category_inv scrape has_next site cfg stop_event name cid
              (log (EvStop false) w))
    as (evs1 & b & w1 & Hrun1 & (Htr1 & _ & (n & Hn & Hget & _) & Hsaves & _) & _).
  rewrite Hrun1.
  pose proof (crawl_ids name cid _ _ _ _ Hrun1 Htr1) as Hids.
  pose proof (saves_ok_paths _ _ _ Hsaves) as Hpaths.
  assert (Hstretch : ∀ evs2, crawls cfg rest evs2 →
            crawls cfg ((name, cid) :: rest) ((EvStop false :: evs1) ++ evs2)).
  { intros evs2 Hrest. by apply (crawls_category cfg name cid rest _ evs2 n). }
  destruct b.
  { intros [= <-]. simpl in Htr1. rewrite <- app_assoc in Htr1. simpl in Htr1.
    rewrite Htr1 in Htr. apply app_inv_head in Htr as <-.
    rewrite <- (app_nil_r (EvStop false :: evs1)). apply Hstretch. by constructor. }
  intros Hrest.
  destruct (category_loop_inv scrape has_next site cfg stop_event rest w1)
    as (evs2 & w2 & Hrun2 & Htr2 & _).
  rewrite Hrun2 in Hrest. injection Hrest as <-.
  assert (Hevs : evs = (EvStop false :: evs1) ++ evs2).
  { rewrite Htr2, Htr1 in Htr. simpl in Htr. rewrite <- !app_assoc in Htr.
    by apply app_inv_head in Htr as <-. }
  rewrite Hevs. apply Hstretch. by apply (IH w1 evs2 w2).
Qed.

Lemma crawls_count (categories : list (string * string)) evs :
  crawls cfg categories evs →
  ∀ c, (Z.of_nat (length (filter (λ x, x = c) (fetched_ids evs)))
        ≤ Z.of_nat (length (filter (λ cat, cat.2 = c) categories))
          * Z.max 0 (page_cap cfg))%Z.
Proof.
  induction 1 as [categories tail Hf _
                 |name cid rest stretch evs n Hn Hget Hids _ _ IH]; intros c.
  - rewrite (no_request_no_id _ Hf). simpl. nia.
  - rewrite fetched_ids_app, filter_app, length_app, Nat2Z.inj_add.
    specialize (IH c).
    assert (Hlen : Z.of_nat (length (fetched_ids stretch)) = n).
    { rewrite fetched_ids_length, Hget, length_seqZ. lia. }
    rewrite filter_cons. simpl. destruct (decide (cid = c)) as [->|Hne].
    + pose proof (length_filter (λ x, x = c) (fetched_ids stretch)) as Hle.
      simpl. nia.
    + replace (filter (λ x, x = c) (fetched_ids stretch)) with (@nil string); [simpl; lia|].
      symmetry. apply elem_of_nil_inv. intros x [-> Hx]%list_elem_of_filter.
      rewrite Forall_forall in Hids. by apply Hids in Hx.
Qed.

End Stretches.

(** ** Pages, saves and cancellation of a crawl *)

Lemma saves_ok_at out_path acc evs l1 p d l2 :
  saves_ok out_path acc evs →
  evs = l1 ++ EvDump p d :: l2 →
  p = out_path ∧ d = (dedupe (acc ++ scraped_of l1) ∅).1.
Proof.
  intros Hs ->. apply saves_ok_app in Hs as [_ Hs]. simpl in Hs.
  by destruct Hs as (? & ? & _).
Qed.

Lemma guarded_request_checked ev evs :
  ∀ t c, guarded ev t c evs →
    ∀ i cid p, evs !! i = Some (EvGet cid p) →
      (i = 0%nat ∧ c = true)
      ∨ ∃ j, i = S j ∧ evs !! j = Some (EvStop false) ∧ flag_at ev (t + j) = false.
Proof.
  induction evs as [|x evs IH]; intros t c Hg i cid p Hi; [done|].
  destruct i as [|i]; simpl in Hi.
  - injection Hi as ->. simpl in Hg. left. by destruct Hg.
  - right. exists i. split; [done|].
    assert (Hnext : ∃ c', guarded ev (S t) c' evs
                          ∧ (c' = true → x = EvStop false ∧ flag_at ev t = false)).
    { destruct x; simpl in Hg.
      - destruct Hg as [-> Hg]. eexists. split; [exact Hg|].
        intros Hc. by destruct (flag_at ev t).
      - destruct Hg as [_ Hg]. by exists false.
      - by exists false.
      - destruct Hg as [_ Hg]. by exists false.
      - by exists false. }
    destruct Hnext as (c' & Hg' & Hc').
    destruct (IH _ _ Hg' i cid p Hi) as [[-> ->]|(j & -> & Hj & Hflag)].
    + destruct (Hc' eq_refl) as [-> Hflag]. simpl. by rewrite Nat.add_0_r.
    + simpl. split; [done|]. by replace (t + S j)%nat with (S t + j)%nat by lia.
Qed.

(** X2.  The crawl of a category requests consecutive pages: the numbers
    requested are start_page, start_page + 1, ... without gap or
    repetition, there are at most [page_cap] of them, and none is beyond
    [end_page] when one is set. *)
Theorem crawl_requests_consecutive_pages {Html : Type}
    (scrape : Html → string → list Item) (has_next : Html → option bool)
    (site : string → Z → nat → exn + Html) (cfg : Config)
    (stop_event : option Event) (category_name disp_ctg_id : string) (w : World) :
  ∃ evs b w',
    crawl_category scrape has_next site cfg stop_event category_name disp_ctg_id w
    = (Ret b, w')
    ∧ trace w' = trace w ++ evs
    ∧ ∃ n, (0 ≤ n ≤ Z.max 0 (page_cap cfg))%Z
           ∧ fetched_pages evs = seqZ (start_page cfg) n
           ∧ (∀ e p, end_page cfg = Some e → p ∈ fetched_pages evs → (p ≤ e)%Z).
Proof.
  destruct (crawl_category_inv scrape has_next site cfg stop_event category_name
              disp_ctg_id w)
    as (evs & b & w' & Hrun & (Htr & _ & (n & Hn & Hget & Hend) & _) & _).
  exists evs, b, w'. split; [done|]. split; [done|].
  exists n. split; [done|]. split; [done|].
  intros e p He Hp. rewrite Hget in Hp. apply elem_of_seqZ in Hp.
  specialize (Hend e He). lia.
Qed.

(** X3.  During the crawl of a category every [json.dump] goes to the
    category's own file and writes the first-seen deduplication of the
    records extracted up to then; the files at the end are the files at
    the start with these saves made, so that no other file is touched. *)
Theorem crawl_saves_deduplicated_prefixes {Html : Type}
    (scrape : Html → string → list Item) (has_next : Html → option bool)
    (site : string → Z → nat → exn + Html) (cfg : Config)
    (stop_event : option Event) (category_name disp_ctg_id : string) (w : World) :
  ∃ evs b w',
    crawl_category scrape has_next site cfg stop_event category_name disp_ctg_id w
    = (Ret b, w')
    ∧ trace w' = trace w ++ evs
    ∧ (∀ l1 p d l2, evs = l1 ++ EvDump p d :: l2 →
         p = out_path_of category_name ∧ d = first_seen [] (scraped_of l1))
    ∧ files w' = files_after (files w) evs
    ∧ (∀ q, q ≠ out_path_of category_name → files w' !! q = files w !! q).
Proof.
  destruct (crawl_category_inv scrape has_next site cfg stop_event category_name
              disp_ctg_id w)
    as (evs & b & w' & Hrun & (Htr & _ & _ & Hsaves & Hfiles & _) & _).
  exists evs, b, w'. split; [done|]. split; [done|].
  split; [|split; [done|]].
  - intros l1 p d l2 Hevs.
    destruct (saves_ok_at _ _ _ _ _ _ _ Hsaves Hevs) as [-> ->].
    split; [done|]. simpl. apply dedupe_first_seen.
    intros x _. by rewrite elem_of_empty, elem_of_nil.
  - intros q Hq. rewrite Hfiles. apply files_after_other.
    intros Hin. apply saves_ok_paths in Hsaves.
    rewrite Forall_forall in Hsaves. by apply Hsaves in Hin.
Qed.

(** X5.  The calls of [run_scraper] split into one stretch for each
    category taken up, in the order of the list; the stretch of a category
    requests pages of that category only, at most [page_cap] of them,
    consecutive from [start_page], and saves to the file of that category
    only.  Hence a category id is requested at most [page_cap] times for
    each category of the list that carries it, and the only files written
    are the snapshot files of the categories. *)
Theorem run_scraper_stays_within_page_cap {Html : Type}
    (scrape : Html → string → list Item) (has_next : Html → option bool)
    (site : string → Z → nat → exn + Html) (cfg : Config)
    (stop_event : option Event) (categories : list (string * string)) (w : World) :
  ∃ evs w',
    run_scraper scrape has_next site cfg stop_event categories w = (Ret tt, w')
    ∧ trace w' = trace w ++ evs
    ∧ crawls cfg categories evs
    ∧ (∀ c, (Z.of_nat (length (filter (λ x, x = c) (fetched_ids evs)))
             ≤ Z.of_nat (length (filter (λ cat, cat.2 = c) categories))
               * Z.max 0 (page_cap cfg))%Z)
    ∧ files w' = files_after (files w) evs
    ∧ (∀ q, q ∉ (λ c, out_path_of c.1) <$> categories → files w' !! q = files w !! q).
Proof.
  destruct (category_loop_inv scrape has_next site cfg stop_event categories w)
    as (evs & w' & Hrun & Htr & _ & _ & Hfiles & Hpaths).
  pose proof (category_loop_crawls scrape has_next site cfg stop_event categories
                w evs w' Hrun Htr) as Hcrawls.
  exists evs, w'. split; [done|]. split; [done|]. split; [done|].
  split; [by apply crawls_count|]. split; [done|].
  intros q Hq. rewrite Hfiles. apply files_after_other.
  intros Hin. rewrite Forall_forall in Hpaths. by apply Hpaths in Hin.
Qed.

(** X6.  Throughout [run_scraper] every page request comes right after a
    stop check that found the flag clear at that instant.  Hence, once the
    flag stays set from some instant on, no request and no sleep step is
    started after that instant, and the run returns. *)
Theorem run_scraper_no_request_after_stop {Html : Type}
    (scrape : Html → string → list Item) (has_next : Html → option bool)
    (site : string → Z → nat → exn + Html) (cfg : Config)
    (stop_event : option Event) (categories : list (string * string)) (w : World) :
  ∃ evs w',
    run_scraper scrape has_next site cfg stop_event categories w = (Ret tt, w')
    ∧ trace w' = trace w ++ evs
    ∧ (∀ i cid p, evs !! i = Some (EvGet cid p) →
         ∃ j, i = S j ∧ evs !! j = Some (EvStop false)
              ∧ flag_at stop_event (now w + j) = false)
    ∧ (∀ τ, (∀ t, τ ≤ t → flag_at stop_event t = true) →
         (∀ i cid p, evs !! i = Some (EvGet cid p) → now w + i ≤ τ)
         ∧ (∀ i t, evs !! i = Some (EvSleep t) → now w + i ≤ τ)).
Proof.
  destruct (category_loop_inv scrape has_next site cfg stop_event categories w)
    as (evs & w' & Hrun & Htr & Hg & _).
  exists evs, w'. split; [done|]. split; [done|]. split.
  - intros i cid p Hi.
    destruct (guarded_request_checked _ _ _ _ Hg i cid p Hi) as [[_ ?]|?]; done.
  - intros τ Hsig. split.
    + intros i cid p Hi.
      apply (guarded_after_signal stop_event τ Hsig evs (now w) false Hg
               ltac:(done) i _ Hi).
    + intros i t Hi.
      apply (guarded_after_signal stop_event τ Hsig evs (now w) false Hg
               ltac:(done) i _ Hi).
Qed.

(** X7.  A failure in one category does not keep the next ones from being
    crawled.  Take a run of [run_scraper] that returns, the flag never
    being set, the cap being at least one page and the end page not before
    the start page: it has requested the start page of every category of
    the list, whatever the site answered to the categories before it. *)
Theorem run_scraper_requests_every_category {Html : Type}
    (scrape : Html → string → list Item) (has_next : Html → option bool)
    (site : string → Z → nat → exn + Html) (cfg : Config)
    (stop_event : option Event) (categories : list (string * string))
    (w : World) (evs : list event) (w' : World) :
  (∀ t, flag_at stop_event t = false) →
  (1 ≤ page_cap cfg)%Z →
  (∀ e, end_page cfg = Some e → (start_page cfg ≤ e)%Z) →
  run_scraper scrape has_next site cfg stop_event categories w = (Ret tt, w') →
  trace w' = trace w ++ evs →
  ∀ name cid, (name, cid) ∈ categories → EvGet cid (start_page cfg) ∈ evs.
Proof.
  intros Hnever Hcap Hend Hrun Htr.
  by apply (category_loop_requests_all scrape has_next site cfg stop_event categories
              Hnever Hcap Hend w evs w').
Qed.

(** Two categories on the site whose second page fails: the request for
    page 2 of the first category raises, and the second category is
    crawled all the same. *)
Lemma run_scraper_requests_every_category_witness :
  let categories := [("Fruits", "6000213114"); ("Vegetables", "6000213534")] in
  let run := run_scraper scrape_page next_of_page failing_site default_cfg None
                         categories empty_world in
  (∀ t, flag_at None t = false)
  ∧ (1 ≤ page_cap default_cfg)%Z
  ∧ (∀ e, end_page default_cfg = Some e → (start_page default_cfg ≤ e)%Z)
  ∧ run.1 = Ret tt
  ∧ ∀ name cid, (name, cid) ∈ categories → EvGet cid (start_page default_cfg) ∈ trace run.2.
Proof.
  intros categories run.
  assert (Hret : run.1 = Ret tt) by (vm_compute; reflexivity).
  split; [done|]. split; [done|]. split; [done|]. split; [exact Hret|].
  refine (run_scraper_requests_every_category scrape_page next_of_page failing_site
            default_cfg None categories empty_world (trace run.2) run.2
            (λ _, eq_refl) _ _ _ (eq_refl (trace run.2))).
  - done.
  - done.
  - rewrite <- Hret. apply surjective_pairing.
Defined.

(** ** The page parser *)

Lemma prefix_cons a s1 b s2 :
  String.prefix (String a s1) (String b s2)
  = if Ascii.ascii_dec a b then String.prefix s1 s2 else false.
Proof. reflexivity. Qed.

Lemma absolutize_url_cases raw :
  (raw = EmptyString ∧ _absolutize_url raw = EmptyString)
  ∨ (startswith raw "//" = true ∧ _absolutize_url raw = "https:" +:+ raw)
  ∨ (startswith raw "http" = true ∧ _absolutize_url raw = raw)
  ∨ (raw ≠ EmptyString ∧ startswith raw "//" = false ∧ startswith raw "http" = false
     ∧ _absolutize_url raw = "https://emart.ssg.com" +:+ raw).
Proof.
  unfold _absolutize_url. destruct raw as [|a raw]; [by left|]. simpl negb. cbv iota.
  destruct (startswith (String a raw) "//") eqn:H1; [right; by left|].
  destruct (startswith (String a raw) "http") eqn:H2; [right; right; by left|].
  right; right; right. done.
Qed.

Lemma absolutize_url_shape (raw : string) : absolute_or_empty (_absolutize_url raw).
Proof.
  destruct (absolutize_url_cases raw)
    as [[-> ->]|[[H1 ->]|[[H2 ->]|(Hne & H1 & H2 & ->)]]];
    [by left | by right | by right | by right].
Qed.

(** X15.  [_absolutize_url] gives the empty string for the empty string
    only, and otherwise an address that begins with [http]: an address
    that already does is returned as it is, [//host/path] gets the
    [https:] scheme, anything else is put under [https://emart.ssg.com].
    Applying it twice changes nothing more. *)
Theorem absolutize_url_absolute (raw : string) :
  (_absolutize_url raw = EmptyString ↔ raw = EmptyString)
  ∧ absolute_or_empty (_absolutize_url raw)
  ∧ (startswith raw "http" = true → _absolutize_url raw = raw)
  ∧ _absolutize_url (_absolutize_url raw) = _absolutize_url raw.
Proof.
  assert (Hslash : ∀ s, startswith s "//" = true → startswith s "http" = true → False).
  { intros [|a s]; [done|]. unfold startswith. rewrite !prefix_cons.
    match goal with
    | |- context [Ascii.ascii_dec ?x a] => destruct (Ascii.ascii_dec x a) as [<-|]
    end; [|done].
    intros _.
    match goal with
    | |- context [Ascii.ascii_dec ?x ?y] => by destruct (Ascii.ascii_dec x y)
    end. }
  destruct (absolutize_url_cases raw)
    as [[-> ->]|[[H1 ->]|[[H2 ->]|(Hne & H1 & H2 & ->)]]].
  - split; [done|]. split; [by left|]. done.
  - split; [|split; [by right|split]].
    + split; [done|]. intros ->. done.
    + intros H2. destruct (Hslash _ H1 H2).
    + reflexivity.
  - split; [|split; [by right|split; [done|]]].
    + split; intros ->; done.
    + destruct (absolutize_url_cases raw)
        as [[-> ->]|[[H1 ->]|[[_ ->]|(_ & _ & H3 & _)]]]; try done.
      * destruct (Hslash _ H1 H2).
      * by rewrite H3 in H2.
  - split; [|split; [by right|split]].
    + split; [done|]. intros ->. done.
    + intros H. by rewrite H in H2.
    + reflexivity.
Qed.


Section ParserFacts.

Variable _parse_price : string → string.
Variable _extract_item_id_from_url : string → string.
Variable strip : string → string.
Variable now_isoformat : nat → string.

Lemma item_of_card_wellformed category_name n item :
  wellformed category_name
    (item_of_card _parse_price _extract_item_id_from_url strip now_isoformat
                  category_name n item).
Proof.
  unfold wellformed, item_of_card. simpl.
  split; [done|]. split; [|split].
  - destruct (link_href item) as [href|]; simpl.
    + destruct (truthy (_absolutize_url href)) eqn:Ht; simpl;
        [apply absolutize_url_shape|].
      destruct (link_alt_href item) as [alt|]; apply absolutize_url_shape.
    + destruct (link_alt_href item) as [alt|]; [apply absolutize_url_shape | by left].
  - destruct (img_sources item) as [[[a b] c]|]; [apply absolutize_url_shape | by left].
  - destruct (sold_out item); [by right | by left].
Qed.

Lemma scrape_cards_wellformed product_items category_name :
  Forall (wellformed category_name)
    (scrape_cards _parse_price _extract_item_id_from_url strip now_isoformat
                  product_items category_name).
Proof.
  unfold scrape_cards. apply Forall_forall. intros it Hin.
  apply list_elem_of_lookup in Hin as [i Hi].
  apply list_lookup_imap_Some in Hi as (item & _ & ->).
  apply item_of_card_wellformed.
Qed.

End ParserFacts.

(** ** What the crawl saves comes from the parser *)

Section FromParser.

Context {Html : Type}.
Variable scrape : Html → string → list Item.
Variable has_next : Html → option bool.
Variable site : string → Z → nat → exn + Html.
Variable cfg : Config.
Variable stop_event : option Event.
Variables category_name disp_ctg_id : string.

Variable P : Item → Prop.
Hypothesis parser_ok : ∀ html, Forall P (scrape html category_name).

Lemma body_step_scraped w r w' :
  body_step scrape has_next site cfg stop_event category_name disp_ctg_id w r w' →
  ∃ b, trace w' = trace w ++ b ∧ Forall P (scraped_of b).
Proof.
  intros Hstep.
  destruct Hstep as [Hf1|e Hf1 He Hlt|Hf1 Hcap|Hf1 Hf2|e Hmay Hsite|html Hmay Hsite Hf3
                    |html Hmay Hsite Hf3 Hbrk|html evs_s Hmay Hsite Hf3 Hbrk Hdom Hsleep Hrun];
    try (eexists; split; [reflexivity|]; by constructor).
  - destruct (empty_page_check_world cfg (yield scrape category_name html w)
                (merged scrape category_name disp_ctg_id html w)) as [n ->].
    eexists. split; [reflexivity|]. unfold pass_events. simpl. rewrite app_nil_r.
    apply parser_ok.
  - destruct (advanced_spec scrape cfg category_name disp_ctg_id html w)
      as (saved & Hsaved & Htr' & _). cbv zeta in Htr'.
    eexists. unfold extend. cbn [trace]. rewrite Htr', <- !app_assoc.
    split; [reflexivity|]. unfold pass_events.
    rewrite !scraped_of_app. simpl.
    rewrite (quiet_scraped _ (sleep_run_quiet _ _ _ _ Hrun)).
    replace (scraped_of saved) with (@nil Item) by (by destruct Hsaved as [->| ->]).
    rewrite !app_nil_r. apply parser_ok.
Qed.

Lemma page_loop_scraped fuel :
  ∀ w, ∃ b,
    trace (page_loop scrape has_next site cfg stop_event fuel category_name disp_ctg_id w).2
    = trace w ++ b
    ∧ Forall P (scraped_of b).
Proof.
  induction fuel as [|fuel IH]; intros w; simpl.
  - exists []. rewrite app_nil_r. split; [done | constructor].
  - unfold mbind, M_bind.
    pose proof (page_body_step scrape has_next site cfg stop_event category_name
                  disp_ctg_id w) as Hstep.
    destruct (page_body _ _ _ _ _ _ _ w) as [r w1].
    destruct (body_step_scraped _ _ _ Hstep) as (b & Hb & HP).
    destruct r as [[|]|e|]; simpl; try by exists b.
    destruct (IH w1) as (b' & Hb' & HP'). exists (b ++ b').
    rewrite Hb', Hb, app_assoc. split; [done|].
    rewrite scraped_of_app. by apply Forall_app.
Qed.

Opaque page_loop.

Lemma crawl_scraped w evs b w' :
  crawl_category scrape has_next site cfg stop_event category_name disp_ctg_id w
  = (Ret b, w') →
  trace w' = trace w ++ evs →
  Forall P (scraped_of evs).
Proof.
  intros Hrun Htr.
  destruct (page_loop_scraped (page_fuel cfg) (fresh cfg w)) as (b1 & Hb1 & HP).
  revert Hrun.
  unfold crawl_category, try_catch, mbind, M_bind, modify, mret, M_ret. simpl.
  fold (fresh cfg w). fold (page_fuel cfg).
  destruct (page_loop _ _ _ _ _ _ _ _ (fresh cfg w)) as [[[]|e|] w1]; simpl in Hb1.
  - unfold gets, json_dump, modify, _should_stop. cbn -[out_path_of].
    match goal with
    | |- context [flag_at stop_event ?t] => destruct (flag_at stop_event t)
    end; intros [= <- <-]; revert Htr; cbn -[out_path_of];
      rewrite Hb1, <- !app_assoc; intros <-%app_inv_head;
      rewrite scraped_of_app; simpl; by rewrite app_nil_r.
  - intros [= <- <-]. rewrite Hb1 in Htr. by apply app_inv_head in Htr as <-.
  - done.
Qed.

Transparent page_loop.

End FromParser.

Lemma Forall_sublist_of {A} (P : A → Prop) (l1 l2 : list A) :
  sublist l1 l2 → Forall P l2 → Forall P l1.
Proof.
  intros Hsub HP. apply Forall_forall. intros x Hx.
  rewrite Forall_forall in HP. apply HP. by eapply elem_of_sublist.
Qed.

(** X16.  With the records built by [scrape_emart_category_page] from the
    items of the product list, everything the crawl of a category keeps
    and saves is well formed: each record of the buffer, and of every
    file content written, carries the name of the category crawled, a
    product address and an image address that are empty or begin with
    [http], and a stock flag that is empty or [Y]. *)
Theorem crawl_saves_wellformed_records {Html : Type}
    (product_items : Html → list Card)
    (_parse_price _extract_item_id_from_url strip : string → string)
    (now_isoformat : nat → string)
    (has_next : Html → option bool)
    (site : string → Z → nat → exn + Html) (cfg : Config)
    (stop_event : option Event) (category_name disp_ctg_id : string) (w : World) :
  let scrape := λ html name,
    scrape_cards _parse_price _extract_item_id_from_url strip now_isoformat
                 (product_items html) name in
  ∃ evs b w',
    crawl_category scrape has_next site cfg stop_event category_name disp_ctg_id w
    = (Ret b, w')
    ∧ trace w' = trace w ++ evs
    ∧ Forall (wellformed category_name) (collected w')
    ∧ (∀ l1 p d l2, evs = l1 ++ EvDump p d :: l2 → Forall (wellformed category_name) d).
Proof.
  intros scrape.
  destruct (crawl_category_inv scrape has_next site cfg stop_event category_name
              disp_ctg_id w)
    as (evs & b & w' & Hrun & (Htr & [Hcol _] & _ & Hsaves & _) & _).
  assert (HP : Forall (wellformed category_name) (scraped_of evs)).
  { apply (crawl_scraped scrape has_next site cfg stop_event category_name disp_ctg_id
             (wellformed category_name)) with (w := w) (b := b) (w' := w'); [|done|done].
    intros html. apply scrape_cards_wellformed. }
  exists evs, b, w'. split; [done|]. split; [done|]. split.
  - rewrite Hcol. eapply Forall_sublist_of; [apply dedupe_sublist | done].
  - intros l1 p d l2 Hevs.
    destruct (saves_ok_at _ _ _ _ _ _ _ Hsaves Hevs) as [_ ->]. simpl.
    eapply Forall_sublist_of; [apply dedupe_sublist|].
    rewrite Hevs, scraped_of_app in HP. by apply Forall_app in HP as [? _].
Qed.

(** ** The settings *)

(** X18.  Whatever the environment holds and whatever [int], [float] and
    [strip] make of it, the settings [run_scraper] works with are sane:
    the start page and the page cap are at least 1 and an end page, when
    there is one, is positive; with no variable set they are the
    defaults.  Under these settings the crawl of a category requests at
    most [page_cap] pages, all numbered from 1 up and none beyond the end
    page. *)
Theorem read_config_is_sane
    (int : string → option Z) (float : string → option Q) (strip : string → string)
    (environ : gmap string string) :
  let cfg := read_config int float strip environ in
  (1 ≤ start_page cfg)%Z
  ∧ (1 ≤ page_cap cfg)%Z
  ∧ (∀ e, end_page cfg = Some e → (1 ≤ e)%Z)
  ∧ read_config int float strip ∅ = default_cfg
  ∧ ∀ (Html : Type) (scrape : Html → string → list Item) (has_next : Html → option bool)
      (site : string → Z → nat → exn + Html) (stop_event : option Event)
      (category_name disp_ctg_id : string) (w : World),
      ∃ evs b w',
        crawl_category scrape has_next site cfg stop_event category_name disp_ctg_id w
        = (Ret b, w')
        ∧ trace w' = trace w ++ evs
        ∧ (Z.of_nat (length (fetched_pages evs)) ≤ page_cap cfg)%Z
        ∧ ∀ p, p ∈ fetched_pages evs →
            (1 ≤ p)%Z ∧ ∀ e, end_page cfg = Some e → (p ≤ e)%Z.
Proof.
  intros cfg.
  assert (Hstart : (1 ≤ start_page cfg)%Z).
  { unfold cfg, read_config. simpl. case_bool_decide; lia. }
  assert (Hcap : (1 ≤ page_cap cfg)%Z).
  { unfold cfg, read_config. simpl.
    destruct (environ !! "EMART_PAGE_CAP") as [s|]; [|done].
    destruct (int s); lia. }
  assert (Hend : ∀ e, end_page cfg = Some e → (1 ≤ e)%Z).
  { intros e. unfold cfg, read_config. simpl.
    destruct (bool_decide (_ = EmptyString)); [done|].
    destruct (int _) as [v|]; [|done].
    case_bool_decide; [done|]. intros [= <-]. lia. }
  split; [done|]. split; [done|]. split; [done|]. split; [reflexivity|].
  intros Html scrape has_next site stop_event category_name disp_ctg_id w.
  destruct (crawl_category_inv scrape has_next site cfg stop_event category_name
              disp_ctg_id w)
    as (evs & b & w' & Hrun & (Htr & _ & (n & Hn & Hget & Hlast) & _) & _).
  exists evs, b, w'. split; [done|]. split; [done|]. split.
  - rewrite Hget, length_seqZ. lia.
  - intros p Hp. rewrite Hget in Hp. apply elem_of_seqZ in Hp. split; [lia|].
    intros e He. specialize (Hlast e He). lia.
Qed.

(** ** The pace of the requests and the end of the pages *)

Lemma steps_since_get_app acc a b :
  steps_since_get acc (a ++ b) = steps_since_get (steps_since_get acc a) b.
Proof.
  revert acc. induction a as [|e a IH]; intros acc; [done|].
  destruct e; simpl; apply IH.
Qed.

Lemma spaced_app need acc a b :
  spaced need acc (a ++ b)
  ↔ spaced need acc a ∧ spaced need (steps_since_get acc a) b.
Proof.
  revert acc. induction a as [|e a IH]; intros acc; simpl; [tauto|].
  destruct e; rewrite ?IH; tauto.
Qed.

Lemma no_get_steps_since_get a evs :
  fetched_pages evs = [] →
  ∃ n, steps_since_get (Some a) evs = Some n ∧ a ≤ n.
Proof.
  revert a. induction evs as [|e evs IH]; intros a Hf; simpl.
  - by exists a.
  - destruct e; try done; simpl; try by apply IH.
    destruct (Qlt_le_dec 0 t); [|by apply IH].
    destruct (IH (S a) Hf) as (n & -> & Hn). exists n. split; [done | lia].
Qed.

Lemma no_get_spaced need acc evs : fetched_pages evs = [] → spaced need acc evs.
Proof.
  revert acc. induction evs as [|e evs IH]; intros acc Hf; [done|].
  destruct e; try done; simpl; by apply IH.
Qed.

Lemma steps_since_get_slept a evs n :
  steps_since_get (Some a) evs = Some n →
  fetched_pages evs = [] →
  a < n →
  ∃ t, EvSleep t ∈ evs ∧ (0 < t)%Q.
Proof.
  revert a. induction evs as [|e evs IH]; intros a Hs Hf Hlt; simpl in *.
  - injection Hs as <-. lia.
  - destruct e; try done;
      try (destruct (IH a Hs Hf Hlt) as (t' & Hin & Ht'); exists t';
           split; [by apply list_elem_of_further | done]).
    simpl in Hs. destruct (Qlt_le_dec 0 t) as [Hpos|Hneg].
    + exists t. split; [apply list_elem_of_here | done].
    + destruct (IH a Hs Hf Hlt) as (t' & Hin & Ht'). exists t'.
      split; [by apply list_elem_of_further | done].
Qed.

Lemma guarded_checks ev evs :
  ∀ t c, guarded ev t c evs →
    ∀ i b, evs !! i = Some (EvStop b) → b = flag_at ev (t + i).
Proof.
  induction evs as [|x evs IH]; intros t c Hg i b Hi; [done|].
  destruct i as [|i]; simpl in Hi.
  - injection Hi as ->. simpl in Hg. rewrite Nat.add_0_r. by destruct Hg.
  - replace (t + S i)%nat with (S t + i)%nat by lia.
    destruct x; simpl in Hg.
    + destruct Hg as [_ Hg]. by apply (IH _ _ Hg).
    + destruct Hg as [_ Hg]. by apply (IH _ _ Hg).
    + by apply (IH _ _ Hg).
    + destruct Hg as [_ Hg]. by apply (IH _ _ Hg).
    + by apply (IH _ _ Hg).
Qed.

Lemma sleep_run_first ev step t0 evs :
  sleep_run ev step t0 evs →
  evs ≠ [] →
  (evs = [EvStop true] ∧ flag_at ev t0 = true)
  ∨ ∃ t rest, evs = EvStop false :: EvSleep t :: rest
              ∧ (0 < t)%Q ∧ fetched_pages rest = [].
Proof.
  intros Hrun Hne.
  destruct Hrun as [t0|t0 Hflag|t0 t rest Hflag Ht1 Ht2 Hrest]; [done|by left|].
  right. exists t, rest. split; [done|]. split; [done|].
  by apply quiet_fetched, (sleep_run_quiet ev step (S (S t0))).
Qed.

Lemma sleep_loop_trace ev step fuel :
  ∀ remain w, ∃ evs, (sleep_loop fuel ev step remain w).2 = extend evs w.
Proof.
  induction fuel as [|fuel IH]; intros remain w.
  - exists []. by rewrite extend_nil.
  - rewrite sleep_loop_S. destruct (Qlt_le_dec 0 remain).
    + unfold mbind, M_bind, _should_stop.
      destruct (flag_at ev (now w)); [by exists [EvStop true]|].
      unfold time_sleep, modify.
      destruct (IH (remain - Qmin step remain)%Q
                  (log (EvSleep (Qmin step remain)) (log (EvStop false) w)))
        as (evs & Hevs).
      exists (EvStop false :: EvSleep (Qmin step remain) :: evs).
      destruct (sleep_loop fuel ev step _ _) as [[[]|e|] w1]; simpl in *;
        by rewrite Hevs, !log_extend, !extend_extend.
    + exists []. by rewrite extend_nil.
Qed.

Lemma sleep_with_cancel_starts (D tick : Q) ev w evs :
  (0 < D)%Q →
  _sleep_with_cancel D ev tick w = (Ret tt, extend evs w) →
  evs ≠ [].
Proof.
  intros Hpos. unfold _sleep_with_cancel, sleep_fuel.
  destruct (Qlt_le_dec 0 D) as [_|Hneg]; [|lra].
  rewrite sleep_loop_S. destruct (Qlt_le_dec 0 D) as [_|Hneg]; [|lra].
  unfold mbind, M_bind, _should_stop.
  destruct (flag_at ev (now w)).
  - intros [= Htr]. apply app_inv_head in Htr as <-. done.
  - unfold time_sleep, modify.
    match goal with
    | |- context [sleep_loop ?f ev ?st ?rm ?w0] =>
        destruct (sleep_loop_trace ev st f rm w0) as (evs' & Hevs');
        destruct (sleep_loop f ev st rm w0) as [[[]|e|] w1]
    end; try done.
    simpl in Hevs'. subst w1. rewrite !log_extend, !extend_extend.
    intros [= Htr]. apply app_inv_head in Htr as <-. done.
Qed.

Section ServedFacts.

Context {Html : Type}.
Variable has_next : Html → option bool.
Variable site : string → Z → nat → exn + Html.

Lemma all_go_on_app t a b :
  all_go_on has_next site t (a ++ b)
  ↔ all_go_on has_next site t a ∧ all_go_on has_next site (t + length a) b.
Proof.
  revert t. induction a as [|e a IH]; intros t; simpl.
  - rewrite Nat.add_0_r. tauto.
  - replace (t + S (length a))%nat with (S t + length a)%nat by lia.
    destruct e; rewrite IH; tauto.
Qed.

Lemma no_get_all_go_on t evs :
  fetched_pages evs = [] → all_go_on has_next site t evs.
Proof.
  revert t. induction evs as [|e evs IH]; intros t Hf; [done|].
  destruct e; try done; simpl; by apply IH.
Qed.

Lemma all_go_on_served t evs :
  all_go_on has_next site t evs → served has_next site t evs.
Proof.
  revert t. induction evs as [|e evs IH]; intros t Ha; [done|].
  destruct e; simpl in *; try by apply IH.
  destruct Ha as [Hg Ha]. split; [done | by apply IH].
Qed.

Lemma served_app t a b :
  all_go_on has_next site t a →
  served has_next site (t + length a) b →
  served has_next site t (a ++ b).
Proof.
  revert t. induction a as [|e a IH]; intros t Ha Hb; simpl in *.
  - by rewrite Nat.add_0_r in Hb.
  - replace (t + S (length a))%nat with (S t + length a)%nat in Hb by lia.
    destruct e; try by apply IH.
    destruct Ha as [Hg Ha]. split; [done | by apply IH].
Qed.

End ServedFacts.

Section PaceFacts.

Context {Html : Type}.
Variable scrape : Html → string → list Item.
Variable has_next : Html → option bool.
Variable site : string → Z → nat → exn + Html.
Variable cfg : Config.
Variable stop_event : option Event.
Variables category_name disp_ctg_id : string.

Lemma body_step_dom w0 evs w r w' :
  dom_head has_next site w0 evs w →
  body_step scrape has_next site cfg stop_event category_name disp_ctg_id w r w' →
  ∃ evs',
    match r with
    | Ret true => dom_head has_next site w0 evs' w'
    | _ => dom_exit has_next site w0 evs' w'
    end.
Proof.
  intros [Htr Hgo] Hstep.
  assert (Hnow : (now w0 + length evs)%nat = now w).
  { unfold now. by rewrite Htr, length_app. }
  assert (Hexit : ∀ b w2, trace w2 = trace w ++ b → served has_next site (now w) b →
                          dom_exit has_next site w0 (evs ++ b) w2).
  { intros b w2 Htr2 Hs. split; [by rewrite Htr2, Htr, app_assoc|].
    apply served_app; [done|]. by rewrite Hnow. }
  destruct Hstep as [Hf1|e Hf1 He Hlt|Hf1 Hcap|Hf1 Hf2|e Hmay Hsite|html Hmay Hsite Hf3
                    |html Hmay Hsite Hf3 Hbrk|html evs_s Hmay Hsite Hf3 Hbrk Hdom Hsleep Hrun].
  - eexists. by apply Hexit.
  - eexists. by apply Hexit.
  - eexists. by apply Hexit.
  - eexists. by apply Hexit.
  - eexists. apply Hexit; [done|]. simpl. by split.
  - eexists. apply Hexit; [done|]. simpl. by split.
  - destruct (empty_page_check_world cfg (yield scrape category_name html w)
                (merged scrape category_name disp_ctg_id html w)) as [n ->].
    eexists. apply Hexit; [reflexivity|]. simpl. by split.
  - destruct (advanced_spec scrape cfg category_name disp_ctg_id html w)
      as (saved & Hsaved & Htr' & _). cbv zeta in Htr'.
    exists (evs ++ pass_events scrape category_name disp_ctg_id html w ++ saved ++ evs_s).
    split; [unfold extend; cbn [trace]; by rewrite Htr', Htr, <- !app_assoc|].
    apply all_go_on_app. split; [done|]. rewrite Hnow.
    unfold pass_events. simpl. split.
    + exists html. split; [|done].
      by replace (S (S (now w))) with (now w + 2)%nat by lia.
    + apply no_get_all_go_on. rewrite fetched_pages_app.
      rewrite (quiet_fetched _ (sleep_run_quiet _ _ _ _ Hrun)).
      by destruct Hsaved as [->| ->].
Qed.

Lemma page_loop_dom w0 fuel :
  ∀ evs w,
    dom_head has_next site w0 evs w →
    ∃ evs',
      match page_loop scrape has_next site cfg stop_event fuel category_name disp_ctg_id w with
      | (Timeout, _) => True
      | (_, w') => dom_exit has_next site w0 evs' w'
      end.
Proof.
  induction fuel as [|fuel IH]; intros evs w Hhead; [by exists []|].
  rewrite page_loop_S. unfold mbind, M_bind.
  pose proof (page_body_step scrape has_next site cfg stop_event category_name
                disp_ctg_id w) as Hstep.
  destruct (page_body _ _ _ _ _ _ _ w) as [r w1].
  destruct (body_step_dom w0 evs w r w1 Hhead Hstep) as (evs1 & Hinv).
  destruct r as [[|]|e|]; try by exists evs1.
  by apply (IH evs1 w1).
Qed.

Section Sticky.

Hypothesis flag_sticky : sticky stop_event.

Lemma body_step_pace w0 evs w r w' :
  pace_head cfg stop_event w0 evs w →
  body_step scrape has_next site cfg stop_event category_name disp_ctg_id w r w' →
  ∃ evs',
    match r with
    | Ret true => pace_head cfg stop_event w0 evs' w'
    | _ => pace_exit cfg w0 evs' w'
    end.
Proof.
  intros Hhead Hstep.
  pose proof Hhead as (Htr & Hp & Hsince).
  set (need := steps_needed (page_delay cfg)) in *.
  assert (Hexit : ∀ b w2, trace w2 = trace w ++ b →
                          spaced need (steps_since_get None evs) b →
                          pace_exit cfg w0 (evs ++ b) w2).
  { intros b w2 Htr2 Hb. split; [by rewrite Htr2, Htr, app_assoc|].
    by apply spaced_app. }
  assert (Hreq : may_request cfg stop_event w →
                 ∀ rest, spaced need (Some 0%nat) rest →
                 spaced need (steps_since_get None evs)
                        (EvStop false :: EvStop false
                           :: EvGet disp_ctg_id (page_num w) :: rest)).
  { intros (Hf1 & _) rest Hrest. simpl. split; [|done].
    destruct (steps_since_get None evs) as [d|]; [|done].
    destruct Hsince as [?|Hf]; [done|]. by rewrite Hf in Hf1. }
  destruct Hstep as [Hf1|e Hf1 He Hlt|Hf1 Hcap|Hf1 Hf2|e Hmay Hsite|html Hmay Hsite Hf3
                    |html Hmay Hsite Hf3 Hbrk|html evs_s Hmay Hsite Hf3 Hbrk Hdom Hsleep Hrun].
  - eexists. by apply Hexit.
  - eexists. by apply Hexit.
  - eexists. by apply Hexit.
  - eexists. by apply Hexit.
  - eexists. apply Hexit; [done|]. by apply Hreq.
  - eexists. apply Hexit; [done|]. by apply Hreq.
  - destruct (empty_page_check_world cfg (yield scrape category_name html w)
                (merged scrape category_name disp_ctg_id html w)) as [n ->].
    eexists. apply Hexit; [reflexivity|]. by apply Hreq.
  - destruct (advanced_spec scrape cfg category_name disp_ctg_id html w)
      as (saved & Hsaved & Htr' & _). cbv zeta in Htr'.
    remember (advanced scrape cfg category_name disp_ctg_id html w) as w1 eqn:Hw1.
    clear Hw1.
    assert (Hq := quiet_fetched _ (sleep_run_quiet _ _ _ _ Hrun)).
    destruct (no_get_steps_since_get 0 evs_s Hq) as (d & Hd & _).
    assert (Hsince' : steps_since_get None
                        (evs ++ pass_events scrape category_name disp_ctg_id html w
                             ++ saved ++ evs_s) = Some d).
    { rewrite steps_since_get_app. unfold pass_events. simpl.
      rewrite steps_since_get_app.
      replace (steps_since_get (Some 0%nat) saved) with (Some 0%nat); [done|].
      by destruct Hsaved as [->| ->]. }
    exists (evs ++ pass_events scrape category_name disp_ctg_id html w ++ saved ++ evs_s).
    split; [unfold extend; cbn [trace]; by rewrite Htr', Htr, <- !app_assoc|].
    split.
    { apply spaced_app. split; [done|]. unfold pass_events.
      apply Hreq; [done|]. simpl.
      apply spaced_app. split; [by destruct Hsaved as [->| ->]|].
      by apply no_get_spaced. }
    rewrite Hsince'. subst need. unfold steps_needed.
    destruct (Qlt_le_dec 0 (page_delay cfg)) as [Hpos|Hneg]; [|left; lia].
    pose proof (sleep_with_cancel_starts _ _ _ _ _ Hpos Hsleep) as Hne.
    destruct (sleep_run_first _ _ _ _ Hrun Hne)
      as [[-> Hflag]|(t & rest & -> & Ht & Hrest)].
    + right. apply (flag_sticky (now w1)); [|done].
      unfold now, extend. simpl. rewrite length_app. simpl. lia.
    + left. simpl in Hd. destruct (Qlt_le_dec 0 t) as [_|Hle]; [|lra].
      destruct (no_get_steps_since_get 1 rest Hrest) as (d' & Hd' & Hle').
      rewrite Hd' in Hd. injection Hd as <-. done.
Qed.

Lemma page_loop_pace w0 fuel :
  ∀ evs w,
    pace_head cfg stop_event w0 evs w →
    ∃ evs',
      match page_loop scrape has_next site cfg stop_event fuel category_name disp_ctg_id w with
      | (Timeout, _) => True
      | (_, w') => pace_exit cfg w0 evs' w'
      end.
Proof.
  induction fuel as [|fuel IH]; intros evs w Hhead; [by exists []|].
  rewrite page_loop_S. unfold mbind, M_bind.
  pose proof (page_body_step scrape has_next site cfg stop_event category_name
                disp_ctg_id w) as Hstep.
  destruct (page_body _ _ _ _ _ _ _ w) as [r w1].
  destruct (body_step_pace w0 evs w r w1 Hhead Hstep) as (evs1 & Hinv).
  destruct r as [[|]|e|]; try by exists evs1.
  by apply (IH evs1 w1).
Qed.

End Sticky.

End PaceFacts.

Lemma spaced_between need acc evs l1 c p mid c' p' l2 :
  spaced need acc evs →
  evs = l1 ++ EvGet c p :: mid ++ EvGet c' p' :: l2 →
  fetched_pages mid = [] →
  ∃ n, steps_since_get (Some 0%nat) mid = Some n ∧ need ≤ n.
Proof.
  intros Hp -> Hmid.
  apply spaced_app in Hp as [_ Hp]. simpl in Hp. destruct Hp as [_ Hp].
  apply spaced_app in Hp as [_ Hp].
  destruct (no_get_steps_since_get 0 mid Hmid) as (d & Hd & _).
  rewrite Hd in Hp. simpl in Hp. destruct Hp as [Hp _]. by exists d.
Qed.

Lemma guarded_clear_between ev t evs l1 c p mid c' p' l2 :
  sticky ev →
  guarded ev t false evs →
  evs = l1 ++ EvGet c p :: mid ++ EvGet c' p' :: l2 →
  ∀ b, EvStop b ∈ mid → b = false.
Proof.
  intros Hsticky Hg -> b [k Hk]%list_elem_of_lookup.
  destruct b; [exfalso|done].
  pose proof (lookup_lt_Some _ _ _ Hk) as Hlt.
  assert (Hi : (l1 ++ EvGet c p :: mid ++ EvGet c' p' :: l2) !! (length l1 + S k)%nat
               = Some (EvStop true)).
  { rewrite lookup_app_r by lia.
    replace (length l1 + S k - length l1)%nat with (S k) by lia. simpl.
    by rewrite lookup_app_l. }
  assert (Hj : (l1 ++ EvGet c p :: mid ++ EvGet c' p' :: l2)
                 !! (length l1 + S (length mid))%nat = Some (EvGet c' p')).
  { rewrite lookup_app_r by lia.
    replace (length l1 + S (length mid) - length l1)%nat with (S (length mid)) by lia.
    simpl. rewrite lookup_app_r by lia. by rewrite Nat.sub_diag. }
  pose proof (guarded_checks _ _ _ _ Hg _ _ Hi) as Hflag.
  destruct (guarded_request_checked _ _ _ _ Hg _ _ _ Hj)
    as [[_ ?]|(j & Hjeq & _ & Hclear)]; [done|].
  assert (Hset : flag_at ev (t + j) = true).
  { apply (Hsticky (t + (length l1 + S k))%nat); [lia | done]. }
  by rewrite Hset in Hclear.
Qed.

Lemma served_at {Html : Type} (has_next : Html → option bool)
    (site : string → Z → nat → exn + Html) t evs l1 c p l2 :
  served has_next site t evs →
  evs = l1 ++ EvGet c p :: l2 →
  fetched_pages l2 ≠ [] →
  goes_on has_next site c p (t + length l1).
Proof.
  intros Hs -> Hl2. revert t Hs.
  induction l1 as [|e l1 IH]; intros t Hs; simpl in *.
  - rewrite Nat.add_0_r. destruct Hs as [Hs _]. by apply Hs.
  - replace (t + S (length l1))%nat with (S t + length l1)%nat by lia.
    apply IH. destruct e; simpl in Hs; try done. by destruct Hs.
Qed.

Lemma served_no_get {Html : Type} (has_next : Html → option bool)
    (site : string → Z → nat → exn + Html) t a b :
  served has_next site t a → fetched_pages b = [] → served has_next site t (a ++ b).
Proof.
  intros Ha Hb. revert t Ha.
  induction a as [|e a IH]; intros t Ha; simpl in *.
  - apply all_go_on_served. by apply no_get_all_go_on.
  - destruct e; try by apply IH.
    destruct Ha as [Hg Ha]. split; [|by apply IH].
    intros Hne. apply Hg. by rewrite fetched_pages_app, Hb, app_nil_r in Hne.
Qed.

Section CrawlPace.

Context {Html : Type}.
Variable scrape : Html → string → list Item.
Variable has_next : Html → option bool.
Variable site : string → Z → nat → exn + Html.
Variable cfg : Config.
Variable stop_event : option Event.
Variables category_name disp_ctg_id : string.

Opaque page_loop.

(** The crawl of a category is its page loop, then nothing or the final
    save and the last stop check. *)
Lemma crawl_category_loop w :
  ∃ b w' r w1 tail,
    crawl_category scrape has_next site cfg stop_event category_name disp_ctg_id w
    = (Ret b, w')
    ∧ page_loop scrape has_next site cfg stop_event (page_fuel cfg)
                category_name disp_ctg_id (fresh cfg w) = (r, w1)
    ∧ r ≠ Timeout
    ∧ trace w' = trace w1 ++ tail
    ∧ fetched_pages tail = [].
Proof.
  destruct (page_loop_fresh scrape has_next site cfg stop_event category_name
              disp_ctg_id w) as (evs & Hloop).
  unfold crawl_category, try_catch, mbind, M_bind, modify, mret, M_ret. simpl.
  fold (fresh cfg w).
  destruct (page_loop _ _ _ _ _ _ _ _ (fresh cfg w)) as [[[]|e|] w1]; [| |done].
  - unfold gets, json_dump, modify, _should_stop. cbn -[out_path_of].
    match goal with
    | |- context [flag_at stop_event ?t] => destruct (flag_at stop_event t)
    end;
      eexists _, _, _, _, [EvDump _ _; EvStop _];
      (split; [reflexivity|]); (split; [reflexivity|]); (split; [done|]);
      (split; [cbn -[out_path_of]; by rewrite <- app_assoc|]); done.
  - eexists _, _, _, _, []. split; [reflexivity|]. split; [reflexivity|].
    split; [done|]. split; [by rewrite app_nil_r | done].
Qed.

Transparent page_loop.

Lemma crawl_category_dom w :
  ∃ evs b w',
    crawl_category scrape has_next site cfg stop_event category_name disp_ctg_id w
    = (Ret b, w')
    ∧ trace w' = trace w ++ evs
    ∧ served has_next site (now w) evs.
Proof.
  destruct (crawl_category_loop w) as (b & w' & r & w1 & tail & Hrun & Hloop & Hr & Htr & Ht).
  destruct (page_loop_dom scrape has_next site cfg stop_event category_name disp_ctg_id
              w (page_fuel cfg) [] (fresh cfg w)) as (evs & Hexit).
  { split; [simpl; by rewrite app_nil_r | done]. }
  rewrite Hloop in Hexit.
  assert (Hexit' : dom_exit has_next site w evs w1) by (by destruct r).
  destruct Hexit' as [Htr1 Hs].
  exists (evs ++ tail), b, w'. split; [done|].
  split; [by rewrite Htr, Htr1, app_assoc|].
  by apply served_no_get.
Qed.

Lemma crawl_category_pace w :
  sticky stop_event →
  ∃ evs b w',
    crawl_category scrape has_next site cfg stop_event category_name disp_ctg_id w
    = (Ret b, w')
    ∧ trace w' = trace w ++ evs
    ∧ spaced (steps_needed (page_delay cfg)) None evs.
Proof.
  intros Hsticky.
  destruct (crawl_category_loop w) as (b & w' & r & w1 & tail & Hrun & Hloop & Hr & Htr & Ht).
  destruct (page_loop_pace scrape has_next site cfg stop_event category_name disp_ctg_id
              Hsticky w (page_fuel cfg) [] (fresh cfg w)) as (evs & Hexit).
  { split; [simpl; by rewrite app_nil_r | done]. }
  rewrite Hloop in Hexit.
  assert (Hexit' : pace_exit cfg w evs w1) by (by destruct r).
  destruct Hexit' as [Htr1 Hp].
  exists (evs ++ tail), b, w'. split; [done|].
  split; [by rewrite Htr, Htr1, app_assoc|].
  apply spaced_app. split; [done | by apply no_get_spaced].
Qed.

End CrawlPace.

(** X19.  When the stop flag, once set, stays set, two requests of a
    category never follow each other without a pause: between two
    requests in a row every stop check found the flag clear and, when
    [page_delay] is positive, the crawl slept at least one step of
    positive length. *)
Theorem crawl_requests_are_spaced {Html : Type}
    (scrape : Html → string → list Item) (has_next : Html → option bool)
    (site : string → Z → nat → exn + Html) (cfg : Config)
    (stop_event : option Event) (category_name disp_ctg_id : string) (w : World) :
  sticky stop_event →
  ∃ evs b w',
    crawl_category scrape has_next site cfg stop_event category_name disp_ctg_id w
    = (Ret b, w')
    ∧ trace w' = trace w ++ evs
    ∧ ∀ l1 c p mid c' p' l2,
        evs = l1 ++ EvGet c p :: mid ++ EvGet c' p' :: l2 →
        fetched_pages mid = [] →
        (∀ b, EvStop b ∈ mid → b = false)
        ∧ ((0 < page_delay cfg)%Q → ∃ t, EvSleep t ∈ mid ∧ (0 < t)%Q).
Proof.
  intros Hsticky.
  destruct (crawl_category_pace scrape has_next site cfg stop_event category_name
              disp_ctg_id w Hsticky) as (evs & b & w' & Hrun & Htr & Hp).
  destruct (crawl_category_inv scrape has_next site cfg stop_event category_name
              disp_ctg_id w)
    as (evs0 & b0 & w0 & Hrun0 & (Htr0 & _ & _ & _ & _ & Hg) & _).
  rewrite Hrun in Hrun0. injection Hrun0 as <- <-.
  rewrite Htr in Htr0. apply app_inv_head in Htr0 as <-.
  exists evs, b, w'. split; [done|]. split; [done|].
  intros l1 c p mid c' p' l2 Hevs Hmid. split.
  - by eapply guarded_clear_between.
  - intros Hpos.
    destruct (spaced_between _ _ _ _ _ _ _ _ _ _ Hp Hevs Hmid) as (n & Hn & Hle).
    unfold steps_needed in Hle. destruct (Qlt_le_dec 0 (page_delay cfg)); [|lra].
    by apply (steps_since_get_slept 0 mid n).
Qed.

(** On the fruit site, without stop event, two seconds between pages. *)
Lemma crawl_requests_are_spaced_witness :
  sticky None
  ∧ ∃ evs b w',
      crawl_category scrape_page next_of_page fruits_site default_cfg None
                     "Fruits" "6000213114" empty_world = (Ret b, w')
      ∧ trace w' = trace empty_world ++ evs
      ∧ ∀ l1 c p mid c' p' l2,
          evs = l1 ++ EvGet c p :: mid ++ EvGet c' p' :: l2 →
          fetched_pages mid = [] →
          (∀ b, EvStop b ∈ mid → b = false)
          ∧ ((0 < page_delay default_cfg)%Q → ∃ t, EvSleep t ∈ mid ∧ (0 < t)%Q).
Proof.
  assert (Hsticky : sticky None) by (intros t t' _ H; exact H).
  split; [exact Hsticky|].
  apply (crawl_requests_are_spaced scrape_page next_of_page fruits_site default_cfg None
           "Fruits" "6000213114" empty_world Hsticky).
Defined.

(** X20.  Within a category a page is requested after another one only
    if that one was served and [_has_next_page_by_dom] did not answer
    [False] for it: once a request fails, or the page says that there is
    no next page, no further page of the category is requested. *)
Theorem crawl_stops_at_last_page {Html : Type}
    (scrape : Html → string → list Item) (has_next : Html → option bool)
    (site : string → Z → nat → exn + Html) (cfg : Config)
    (stop_event : option Event) (category_name disp_ctg_id : string) (w : World) :
  ∃ evs b w',
    crawl_category scrape has_next site cfg stop_event category_name disp_ctg_id w
    = (Ret b, w')
    ∧ trace w' = trace w ++ evs
    ∧ ∀ l1 c p l2,
        evs = l1 ++ EvGet c p :: l2 →
        fetched_pages l2 ≠ [] →
        ∃ html, site c p (now w + length l1) = inr html ∧ has_next html ≠ Some false.
Proof.
  destruct (crawl_category_dom scrape has_next site cfg stop_event category_name
              disp_ctg_id w) as (evs & b & w' & Hrun & Htr & Hs).
  exists evs, b, w'. split; [done|]. split; [done|].
  intros l1 c p l2 Hevs Hl2. by eapply served_at.
Qed.

End CrawlerFacts.

(* ===================================================================== *)
(** * Properties of the upserter *)
(* ===================================================================== *)

Module UploaderFacts.
Import Uploader.

(** ** The price history *)

Lemma upload_now_log e w : now (log e w) = S (now w).
Proof. unfold now, log. simpl. rewrite length_app. simpl. lia. Qed.

Lemma price_has_changed_false h info :
  price_has_changed h info = false ↔ ∃ l, last h = Some l ∧ same_prices l info.
Proof.
  unfold price_has_changed, same_prices. destruct (last h) as [l|].
  - destruct (bool_decide _ && bool_decide _) eqn:Hb.
    + apply andb_true_iff in Hb as [H1%bool_decide_eq_true H2%bool_decide_eq_true].
      split; [|done]. intros _. by exists l.
    + split; [done|]. intros (l' & [= <-] & H1 & H2).
      rewrite !bool_decide_eq_true_2 in Hb by done. done.
  - split; [done|]. by intros (l & ? & _).
Qed.

Lemma price_has_changed_pair h h' info info' :
  price_pair <$> last h = price_pair <$> last h' →
  price_pair info = price_pair info' →
  price_has_changed h info = price_has_changed h' info'.
Proof.
  unfold price_has_changed, price_pair.
  destruct (last h) as [l|], (last h') as [l'|]; simpl; intros Hl Hi; try done.
  injection Hl as Ho Hs. injection Hi as Ho' Hs'.
  by rewrite Ho, Hs, Ho', Hs'.
Qed.

Lemma no_adjacent_same_snoc h x :
  no_adjacent_same h →
  (h = [] ∨ ∃ l, last h = Some l ∧ ¬ same_prices l x) →
  no_adjacent_same (h ++ [x]).
Proof.
  induction h as [|a h IH]; intros Hh Hlast; [done|].
  destruct h as [|b h].
  - destruct Hlast as [?|(l & [= <-] & Hne)]; [done|]. simpl. by split.
  - destruct Hh as [Hab Hrest]. split; [done|].
    apply IH; [done|]. right.
    destruct Hlast as [?|(l & Hl & Hne)]; [done|]. by exists l.
Qed.

Lemma price_has_changed_true h info :
  price_has_changed h info = true ↔ h = [] ∨ ∃ l, last h = Some l ∧ ¬ same_prices l info.
Proof.
  destruct (price_has_changed h info) eqn:Hc.
  - split; [|done]. intros _.
    destruct (last h) as [l|] eqn:Hl.
    + right. exists l. split; [done|]. intros Hs.
      assert (price_has_changed h info = false) as Hf
        by (apply price_has_changed_false; eauto).
      congruence.
    + left. by apply last_None.
  - split; [done|]. apply price_has_changed_false in Hc as (l & Hl & Hs).
    intros [->|(l' & Hl' & Hn)]; [done|]. rewrite Hl in Hl'. by injection Hl' as <-.
Qed.

Lemma upload_extend_nil w : extend [] w = w.
Proof. destruct w; unfold extend; simpl. by rewrite app_nil_r. Qed.

Lemma upload_extend_extend a b w : extend b (extend a w) = extend (a ++ b) w.
Proof. destruct w; unfold extend; simpl. by rewrite app_assoc. Qed.

Lemma upload_log_extend e w : log e w = extend [e] w.
Proof. reflexivity. Qed.

(** ** The traces of the loop over the files *)

Lemma record_event_not_cancel p q : ¬ record_event p (EvStop (DocLoop q) true).
Proof. by intros [?|?]. Qed.

Lemma record_event_not_load p q : ¬ record_event p (EvLoad q).
Proof. by intros [?|?]. Qed.

Lemma record_event_not_remove p q : ¬ record_event p (EvRemove q).
Proof. by intros [?|?]. Qed.

Lemma files_run_cancelled json_files evs processed removed out :
  files_run json_files evs processed removed out →
  ∀ p, EvStop (DocLoop p) true ∈ evs →
       out = StoppedIn p ∧ last evs = Some (EvStop (DocLoop p) true).
Proof.
  induction 1 as [|p0 ps|p0 ps|p0 ps body Hbody
                  |p0 ps body rest processed removed out gone Hbody Hrest IH];
    intros p Hin.
  - by apply elem_of_nil in Hin.
  - apply list_elem_of_singleton in Hin. done.
  - rewrite !elem_of_cons in Hin. destruct Hin as [?|[?|Hin]]; try done.
    by apply elem_of_nil in Hin.
  - rewrite !elem_of_cons, elem_of_app, list_elem_of_singleton in Hin.
    destruct Hin as [?|[?|[Hin|Heq]]]; try done.
    + rewrite Forall_forall in Hbody. by apply Hbody, record_event_not_cancel in Hin.
    + injection Heq as ->. split; [done|].
      rewrite !app_comm_cons. apply last_snoc.
  - rewrite !elem_of_cons, elem_of_app, elem_of_cons in Hin.
    destruct Hin as [?|[?|[Hin|[?|Hin]]]]; try done.
    + rewrite Forall_forall in Hbody. by apply Hbody, record_event_not_cancel in Hin.
    + destruct (IH p Hin) as [-> Hlast]. split; [done|].
      rewrite !app_comm_cons, last_app. simpl.
      destruct rest as [|e rest]; [done|]. simpl in *. by rewrite Hlast.
Qed.

Lemma files_run_stopped_in json_files evs processed removed out p :
  files_run json_files evs processed removed out →
  out = StoppedIn p →
  EvStop (DocLoop p) true ∈ evs.
Proof.
  induction 1 as [| | |p0 ps body Hbody
                  |p0 ps body rest processed removed out gone Hbody Hrest IH];
    intros Hout; try done.
  - injection Hout as ->. rewrite !elem_of_cons, elem_of_app, list_elem_of_singleton.
    by right; right; right.
  - rewrite !elem_of_cons, elem_of_app, elem_of_cons.
    right; right; right; right. by apply IH.
Qed.

Lemma files_run_processed json_files evs processed removed out :
  files_run json_files evs processed removed out →
  (∀ q, EvRemove q ∈ evs ↔ q ∈ processed)
  ∧ (∀ q, q ∈ removed → q ∈ processed)
  ∧ ∃ rest, json_files = processed ++ rest
            ∧ ∀ p, out = StoppedIn p ∨ out = Unreadable p → ∃ rest', rest = p :: rest'.
Proof.
  induction 1 as [|p0 ps|p0 ps|p0 ps body Hbody
                  |p0 ps body rest processed removed out gone Hbody Hrest IH].
  - split; [intros q; by rewrite !elem_of_nil|]. split; [done|].
    exists []. split; [done|]. by intros p [?|?].
  - split; [intros q; rewrite list_elem_of_singleton, elem_of_nil; by split|].
    split; [done|].
    exists (p0 :: ps). split; [done|]. by intros p [?|?].
  - split.
    + intros q. rewrite !elem_of_cons, !elem_of_nil. split; [|done].
      by intros [?|[?|?]].
    + split; [done|].
      exists (p0 :: ps). split; [done|]. intros p [?|[= ->]]; [done | by exists ps].
  - split.
    + intros q. rewrite !elem_of_cons, elem_of_app, list_elem_of_singleton, elem_of_nil.
      split; [|done]. intros [?|[?|[Hin|?]]]; try done.
      rewrite Forall_forall in Hbody. by apply Hbody, record_event_not_remove in Hin.
    + split; [done|].
      exists (p0 :: ps). split; [done|]. intros p [[= ->]|?]; [by exists ps | done].
  - destruct IH as (IHrm & IHsub & rest' & -> & IHout). split; [|split].
    + intros q. rewrite !elem_of_cons, elem_of_app, !elem_of_cons, IHrm.
      split.
      * intros [?|[?|[Hin|[[= ->]|?]]]]; try done; [|by left|by right].
        rewrite Forall_forall in Hbody. by apply Hbody, record_event_not_remove in Hin.
      * intros [->|?]; [right; right; right; by left|].
        right; right; right; by right.
    + intros q Hq. rewrite elem_of_cons. destruct gone.
      * apply elem_of_cons in Hq as [->|Hq]; [by left | right; by apply IHsub].
      * right. by apply IHsub.
    + exists rest'. split; [done | exact IHout].
Qed.

Lemma files_run_loaded json_files evs processed removed out :
  files_run json_files evs processed removed out →
  ∀ p, EvLoad p ∈ evs →
       out = StoppedIn p ∨ out = Unreadable p
       ∨ (p ∈ processed
          ∧ ∃ l1 body l2, evs = l1 ++ EvLoad p :: body ++ EvRemove p :: l2
                          ∧ Forall (record_event p) body).
Proof.
  induction 1 as [|p0 ps|p0 ps|p0 ps body Hbody
                  |p0 ps body rest processed removed out gone Hbody Hrest IH];
    intros p Hin.
  - by apply elem_of_nil in Hin.
  - by apply list_elem_of_singleton in Hin.
  - rewrite !elem_of_cons, elem_of_nil in Hin.
    destruct Hin as [?|[[= ->]|?]]; try done. right. by left.
  - rewrite !elem_of_cons, elem_of_app, list_elem_of_singleton in Hin.
    destruct Hin as [?|[[= ->]|[Hin|?]]]; try done; [by left|].
    rewrite Forall_forall in Hbody. by apply Hbody, record_event_not_load in Hin.
  - rewrite !elem_of_cons, elem_of_app, elem_of_cons in Hin.
    destruct Hin as [?|[[= ->]|[Hin|[?|Hin]]]]; try done.
    + right; right. split; [by left|].
      exists [EvStop FileLoop false], body, rest. done.
    + rewrite Forall_forall in Hbody. by apply Hbody, record_event_not_load in Hin.
    + destruct (IH p Hin) as [->|[->|(Hrm & l1 & body' & l2 & -> & Hbody')]];
        [by left | right; by left |].
      right; right. split; [by right|].
      exists (EvStop FileLoop false :: EvLoad p0 :: body ++ EvRemove p0 :: l1), body', l2.
      split; [|done]. simpl. rewrite <- app_assoc. done.
Qed.

Section Facts.
Variable raises : call → nat → bool.
Variable stop_event : option Event.

Lemma store_step_refl w : store_step w [] w.
Proof. unfold store_step. by rewrite app_nil_r. Qed.

Lemma store_step_trans w1 e1 w2 e2 w3 :
  store_step w1 e1 w2 → store_step w2 e2 w3 → store_step w1 (e1 ++ e2) w3.
Proof.
  intros (H1 & H2 & H3) (H4 & H5 & H6). unfold store_step.
  rewrite H4, H1, H6, H3, app_assoc. split; [done|]. split; [|done].
  by apply Forall_app.
Qed.

Lemma update_price_history_no_fault product_id oos qty lu info w :
  raises CStore (now w) = false →
  raises CStore (S (now w)) = false →
  let hist := stored_history product_id w in
  let changed := price_has_changed hist info in
  update_price_history raises product_id oos qty lu info w
  = (Ret (if changed then "updated" else "skipped"),
     set_emart_price
       (<[product_id := mkPriceDoc (mkTopLevel product_id oos qty lu)
                                   (if changed then hist ++ [info] else hist)]>
          (emart_price w))
       (extend [EvGet "emart_price" product_id; EvSet "emart_price" product_id] w)).
Proof.
  intros Hget Hset. simpl.
  unfold update_price_history, try_catch, mbind, M_bind, price_get, price_set_merge,
    external, gets, modify, mret, M_ret, stored_history.
  rewrite Hget. simpl.
  destruct (price_has_changed _ info) eqn:Hc; rewrite upload_now_log, Hset; simpl;
    unfold set_emart_price, extend, log; simpl; rewrite <- app_assoc; simpl;
    repeat f_equal.
Qed.

Lemma store_serves_two w :
  store_serves raises w 2 →
  raises CStore (now w) = false ∧ raises CStore (S (now w)) = false.
Proof.
  intros Hok. split.
  - rewrite <- (Nat.add_0_r (now w)). apply Hok. lia.
  - replace (S (now w)) with (now w + 1) by lia. apply Hok. lia.
Qed.

Lemma update_price_history_get_fault product_id oos qty lu info w :
  raises CStore (now w) = true →
  update_price_history raises product_id oos qty lu info w
  = (Ret "error", extend [EvGet "emart_price" product_id] w).
Proof.
  intros Hget.
  unfold update_price_history, try_catch, mbind, M_bind, price_get, external.
  rewrite Hget. done.
Qed.

Lemma update_price_history_set_fault product_id oos qty lu info w :
  raises CStore (now w) = false →
  raises CStore (S (now w)) = true →
  update_price_history raises product_id oos qty lu info w
  = (Ret "error",
     extend [EvGet "emart_price" product_id; EvSet "emart_price" product_id] w).
Proof.
  intros Hget Hset.
  unfold update_price_history, try_catch, mbind, M_bind, price_get, price_set_merge,
    external, gets, modify, mret, M_ret.
  rewrite Hget. simpl.
  destruct (price_has_changed _ info); rewrite upload_now_log, Hset; simpl;
    unfold extend, log; simpl; rewrite <- app_assoc; done.
Qed.

(** ** One record, one file, one run *)

Lemma price_path_spec product_id product w :
  ∃ evs w', price_path raises product_id product w = (Ret tt, w')
            ∧ store_step w evs w'.
Proof.
  unfold price_path, mbind, M_bind.
  destruct (raises CStore (now w)) eqn:Hget.
  - rewrite update_price_history_get_fault by done. simpl.
    eexists _, _. split; [reflexivity|]. unfold store_step, extend. simpl.
    repeat split; repeat constructor.
  - destruct (raises CStore (S (now w))) eqn:Hset.
    + rewrite update_price_history_set_fault by done. simpl.
      eexists _, _. split; [reflexivity|]. unfold store_step, extend. simpl.
      repeat split; repeat constructor.
    + rewrite update_price_history_no_fault by done.
      destruct (price_has_changed _ _); simpl;
        eexists _, _; (split; [reflexivity|]); unfold store_step, extend; simpl;
        repeat split; repeat constructor.
Qed.

Lemma product_path_spec product_id product w :
  ∃ evs w', product_path raises product_id product w = (Ret tt, w')
            ∧ store_step w evs w'.
Proof.
  unfold product_path, try_catch, mbind, M_bind, product_get, product_update,
    product_set, external, gets, modify, mret, M_ret.
  destruct (raises CStore (now w)) eqn:Hget; simpl.
  { eexists _, _. split; [reflexivity|]. unfold store_step. simpl.
    repeat split; repeat constructor. }
  destruct (emart_product w !! product_id) as [existing_data|]; simpl.
  - destruct (bool_decide _ || bool_decide _); simpl; rewrite upload_now_log;
      destruct (raises CStore (S (now w))); simpl;
      eexists _, _; (split; [reflexivity|]); unfold store_step; simpl;
      rewrite <- ?app_assoc; simpl; repeat split; repeat constructor.
  - rewrite upload_now_log. destruct (raises CStore (S (now w))); simpl;
      eexists _, _; (split; [reflexivity|]); unfold store_step; simpl;
      rewrite <- ?app_assoc; simpl; repeat split; repeat constructor.
Qed.

Lemma upload_record_spec beacon product w :
  ∃ evs w', upload_record raises beacon product w = (Ret tt, w')
            ∧ store_step w evs w'.
Proof.
  unfold upload_record.
  destruct (product !! "id") as [product_id|];
    [|exists [], w; split; [done | apply store_step_refl]].
  destruct (truthy product_id);
    [|exists [], w; split; [done | apply store_step_refl]].
  unfold mbind, M_bind.
  assert (∃ evs1 w1,
    (if bool_decide (beacon = 1 ∨ beacon = 2)%Z
     then price_path raises product_id product else mret tt) w = (Ret tt, w1)
    ∧ store_step w evs1 w1) as (evs1 & w1 & Hrun1 & Hstep1).
  { destruct (bool_decide (beacon = 1 ∨ beacon = 2)%Z); [apply price_path_spec|].
    exists [], w. split; [done | apply store_step_refl]. }
  rewrite Hrun1.
  assert (∃ evs2 w2,
    (if bool_decide (beacon = 1 ∨ beacon = 3)%Z
     then product_path raises product_id product else mret tt) w1 = (Ret tt, w2)
    ∧ store_step w1 evs2 w2) as (evs2 & w2 & Hrun2 & Hstep2).
  { destruct (bool_decide (beacon = 1 ∨ beacon = 3)%Z); [apply product_path_spec|].
    exists [], w1. split; [done | apply store_step_refl]. }
  rewrite Hrun2. exists (evs1 ++ evs2), w2. split; [done|].
  by eapply store_step_trans.
Qed.

Lemma doc_checks_app a b : doc_checks (a ++ b) = (doc_checks a + doc_checks b)%nat.
Proof. unfold doc_checks. by rewrite flat_map_app, length_app. Qed.

Lemma doc_checks_store evs : Forall store_event evs → doc_checks evs = 0%nat.
Proof.
  induction 1 as [|e evs He _ IH]; [done|].
  change (e :: evs) with ([e] ++ evs). rewrite doc_checks_app, IH.
  by destruct e.
Qed.

Lemma doc_loop_spec beacon json_file products :
  ∀ w, ∃ evs b w',
    doc_loop raises stop_event beacon json_file products w = (Ret b, w')
    ∧ trace w' = trace w ++ evs
    ∧ snapshots w' = snapshots w
    ∧ if b
      then ∃ body, evs = body ++ [EvStop (DocLoop json_file) true]
                   ∧ Forall (record_event json_file) body
      else Forall (record_event json_file) evs
           ∧ doc_checks evs = length products.
Proof.
  induction products as [|product rest IH]; intros w; simpl.
  - exists [], false, w. rewrite app_nil_r. repeat split; done.
  - unfold mbind, M_bind, _should_stop.
    destruct (flag_at stop_event (now w)) eqn:Hflag; simpl.
    + eexists _, true, _. split; [reflexivity|]. simpl.
      repeat split. by exists [].
    + destruct (upload_record_spec beacon product (log (EvStop (DocLoop json_file) false) w))
        as (evs1 & w1 & Hrun1 & Htr1 & Hst1 & Hsn1).
      rewrite Hrun1.
      destruct (IH w1) as (evs2 & b & w2 & Hrun2 & Htr2 & Hsn2 & Hshape).
      rewrite Hrun2. exists (EvStop (DocLoop json_file) false :: evs1 ++ evs2), b, w2.
      split; [done|]. split.
      { rewrite Htr2, Htr1. simpl. rewrite <- !app_assoc. done. }
      split; [by rewrite Hsn2, Hsn1|].
      assert (Hrec : Forall (record_event json_file) (EvStop (DocLoop json_file) false :: evs1)).
      { constructor; [by left|]. eapply Forall_impl; [exact Hst1|]. by right. }
      destruct b.
      * destruct Hshape as (body & -> & Hbody).
        exists (EvStop (DocLoop json_file) false :: evs1 ++ body).
        split; [simpl; by rewrite app_assoc|].
        rewrite app_comm_cons. by apply Forall_app.
      * destruct Hshape as [Hbody Hcount]. split.
        -- rewrite app_comm_cons. by apply Forall_app.
        -- change (EvStop (DocLoop json_file) false :: evs1 ++ evs2)
             with ([EvStop (DocLoop json_file) false] ++ evs1 ++ evs2).
           rewrite !doc_checks_app, (doc_checks_store evs1 Hst1), Hcount. done.
Qed.


Lemma file_loop_spec beacon :
  ∀ json_files w,
    NoDup json_files →
    (∀ p, p ∈ json_files → is_Some (snapshots w !! p)) →
    ∃ evs processed removed out r w',
      file_loop raises stop_event beacon json_files w = (r, w')
      ∧ trace w' = trace w ++ evs
      ∧ files_run json_files evs processed removed out
      ∧ ((∀ t, raises CRemove t = false) → removed = processed)
      ∧ (∀ q, snapshots w' !! q
              = if bool_decide (q ∈ removed) then None else snapshots w !! q)
      ∧ returned out r w'.
Proof.
  intros json_files.
  induction json_files as [|p ps IH]; intros w Hnd Hin.
  - exists [], [], [], AllDone, (Ret None), w. rewrite app_nil_r.
    repeat split; try done. constructor.
  - cbn [file_loop]. unfold mbind, M_bind, _should_stop.
    destruct (flag_at stop_event (now w)) eqn:Hflag; simpl.
    { eexists _, [], [], StoppedBetween, _, _. split; [reflexivity|]. simpl.
      repeat split; try done. constructor. }
    unfold load. simpl.
    destruct (Hin p) as [products Hp]; [by left|]. rewrite Hp.
    unfold external. rewrite upload_now_log.
    destruct (raises CLoad (S (now w))) eqn:Hload; simpl.
    { eexists _, [], [], (Unreadable p), _, _. split; [reflexivity|]. simpl.
      rewrite <- app_assoc. repeat split; try done. constructor. }
    destruct (doc_loop_spec beacon p products
                (log (EvLoad p) (log (EvStop FileLoop false) w)))
      as (evs_d & b & w1 & Hrun1 & Htr1 & Hsn1 & Hshape).
    rewrite Hrun1. simpl in Htr1, Hsn1.
    rewrite <- !app_assoc in Htr1. simpl in Htr1.
    destruct b.
    { destruct Hshape as (body & -> & Hbody). unfold gets. simpl.
      eexists _, [], [], (StoppedIn p), _, _. split; [reflexivity|].
      split; [exact Htr1|]. split; [by constructor|]. split; [done|].
      split; [intros q; by rewrite Hsn1|]. done. }
    destruct Hshape as [Hbody _].
    apply NoDup_cons in Hnd as [Hnotin Hnd].
    unfold try_catch, os_remove, external.
    destruct (raises CRemove (now w1)) eqn:Hremove; simpl.
    + destruct (IH (log (EvRemove p) w1) Hnd)
        as (evs_r & processed & removed & out & r & w2
            & Hrun2 & Htr2 & Hgram & Hrel & Hsn2 & Hret).
      { intros q Hq. simpl. rewrite Hsn1. apply Hin. by right. }
      rewrite Hrun2.
      exists (EvStop FileLoop false :: EvLoad p :: evs_d ++ EvRemove p :: evs_r),
        (p :: processed), removed, out, r, w2.
      split; [done|]. split.
      { rewrite Htr2. simpl. rewrite Htr1. rewrite <- !app_assoc. simpl.
        rewrite <- ?app_assoc. done. }
      split; [exact (run_file_done p ps evs_d evs_r processed removed out false
                       Hbody Hgram)|].
      split; [intros Hrm; by rewrite Hrm in Hremove|].
      split; [|done].
      intros q. rewrite Hsn2. simpl. by rewrite Hsn1.
    + unfold modify. simpl.
      destruct (IH (set_snapshots (delete p (snapshots w1)) (log (EvRemove p) w1)) Hnd)
        as (evs_r & processed & removed & out & r & w2
            & Hrun2 & Htr2 & Hgram & Hrel & Hsn2 & Hret).
      { intros q Hq. simpl. rewrite Hsn1.
        rewrite lookup_delete_ne; [apply Hin; by right|]. by intros ->. }
      rewrite Hrun2.
      exists (EvStop FileLoop false :: EvLoad p :: evs_d ++ EvRemove p :: evs_r),
        (p :: processed), (p :: removed), out, r, w2.
      split; [done|]. split.
      { rewrite Htr2. simpl. rewrite Htr1. rewrite <- !app_assoc. simpl.
        rewrite <- ?app_assoc. done. }
      split; [exact (run_file_done p ps evs_d evs_r processed removed out true
                       Hbody Hgram)|].
      split; [intros Hrm; by rewrite (Hrel Hrm)|].
      split; [|done].
      intros q. rewrite Hsn2. simpl. rewrite Hsn1.
      destruct (decide (q = p)) as [->|Hne].
      * rewrite lookup_delete_eq.
        rewrite (bool_decide_eq_true_2 (p ∈ p :: removed)) by by left.
        by case_bool_decide.
      * rewrite lookup_delete_ne by done.
        rewrite (bool_decide_ext (q ∈ p :: removed) (q ∈ removed)); [done|].
        rewrite elem_of_cons. split; [by intros [?|?] | by right].
Qed.

Lemma glob_listing directory_path w :
  let json_files := filter (λ p, p.1 = directory_path) (map_to_list (snapshots w)).*1 in
  NoDup json_files ∧ ∀ p, p ∈ json_files → is_Some (snapshots w !! p).
Proof.
  simpl. split.
  - apply NoDup_filter, NoDup_fst_map_to_list.
  - intros p [_ Hp]%list_elem_of_filter.
    apply list_elem_of_fmap in Hp as ([k v] & -> & Hkv).
    apply elem_of_map_to_list in Hkv. by exists v.
Qed.

Lemma upload_json_to_firestore_spec directory_path w :
  ∃ evs res w',
    upload_json_to_firestore raises stop_event directory_path w = (Ret res, w')
    ∧ trace w' = trace w ++ evs
    ∧ upload_cases (∀ t, raises CRemove t = false) (raises CNotify)
                   directory_path w evs res w'.
Proof.
  unfold upload_json_to_firestore, mbind, M_bind, _should_stop.
  destruct (flag_at stop_event (now w)) eqn:Hflag; simpl.
  { eexists _, _, _. split; [reflexivity|]. split; [reflexivity|]. by left. }
  unfold try_catch at 1. unfold initialize_firebase, external, mbind, M_bind.
  rewrite upload_now_log.
  destruct (raises CInit (S (now w))) eqn:Hinit; simpl.
  { eexists _, _, _. split; [reflexivity|]. simpl. rewrite <- ?app_assoc.
    split; [reflexivity|]. right; left. unfold extend, log. simpl.
    by rewrite <- ?app_assoc. }
  unfold try_catch, glob, mbind, M_bind. simpl.
  destruct (glob_listing directory_path w) as [Hnd Hin]. simpl in Hnd, Hin.
  set (json_files := filter (λ p, p.1 = directory_path) (map_to_list (snapshots w)).*1) in *.
  case_bool_decide as Hnil; simpl.
  { eexists _, _, _. split; [reflexivity|]. simpl. rewrite <- ?app_assoc.
    split; [reflexivity|]. right; right; left. unfold extend, log. simpl.
    by rewrite <- ?app_assoc. }
  unfold modify. simpl.
  match goal with
  | |- context [file_loop _ _ ?b json_files ?w0] =>
      destruct (file_loop_spec b json_files w0 Hnd Hin)
        as (evs_f & processed & removed & out & r & w1
            & Hrun & Htr & Hgram & Hrel & Hsn & Hret)
  end.
  rewrite Hrun. simpl in Htr, Hsn. rewrite <- ?app_assoc in Htr. simpl in Htr.
  destruct out; simpl in Hret; subst r; simpl.
  - unfold gets. simpl.
    destruct (flag_at stop_event (now w1)) eqn:Hflag2; simpl.
    + eexists _, _, _. split; [reflexivity|]. simpl. rewrite Htr.
      rewrite <- ?app_assoc. simpl. rewrite <- ?app_assoc.
      split; [reflexivity|]. right; right; right.
      exists json_files, evs_f, processed, removed, AllDone, [EvStop BeforeNotify true].
      repeat split; try done. by left.
    + unfold _notify_embedding_server, external. rewrite upload_now_log.
      destruct (raises CNotify (S (now w1))) eqn:Hnotify; simpl;
        (eexists _, _, _; split; [reflexivity|]; simpl; rewrite Htr;
         rewrite <- ?app_assoc; simpl; rewrite <- ?app_assoc; simpl;
         split; [reflexivity|]; right; right; right;
         exists json_files, evs_f, processed, removed, AllDone,
           [EvStop BeforeNotify false; EvNotify (counters_of w1)];
         repeat split; try done).
      * right. right. repeat split. by rewrite !upload_now_log.
      * right. left. repeat split. by rewrite !upload_now_log.
  - eexists _, _, _. split; [reflexivity|]. split; [exact Htr|].
    right; right; right.
    exists json_files, evs_f, processed, removed, StoppedBetween, [].
    rewrite app_nil_r. repeat split; done.
  - eexists _, _, _. split; [reflexivity|]. split; [exact Htr|].
    right; right; right.
    exists json_files, evs_f, processed, removed, (Unreadable json_file), [].
    rewrite app_nil_r. repeat split; done.
  - eexists _, _, _. split; [reflexivity|]. split; [exact Htr|].
    right; right; right.
    exists json_files, evs_f, processed, removed, (StoppedIn json_file), [].
    rewrite app_nil_r. repeat split; done.
Qed.

End Facts.
(** C1.  When the read and the write of the store succeed,
    [update_price_history] returns "updated" and appends exactly the
    incoming record at the end of the stored history if that history is
    empty or its last record differs from the incoming one in a price
    field, and returns "skipped" and leaves the history as it was if the
    last record carries the same [original_price] and the same
    [selling_price]; either way the four top-level fields are written, and
    nothing else in the store changes.  The answer is the same whatever
    the timestamps and the other top-level values of the call, and
    whatever the stored history as long as its last record carries the
    same price pair. *)
Theorem price_history_appended_iff_prices_differ
    (raises : call → nat → bool) (product_id : string)
    (out_of_stock quantity last_updated : value) (price_info : PriceInfo) (w : World) :
  store_serves raises w 2 →
  ∃ r w',
    update_price_history raises product_id out_of_stock quantity last_updated
                         price_info w = (Ret r, w')
    ∧ (top_level <$> emart_price w' !! product_id)
      = Some (mkTopLevel product_id out_of_stock quantity last_updated)
    ∧ (∀ other, other ≠ product_id → emart_price w' !! other = emart_price w !! other)
    ∧ emart_product w' = emart_product w
    ∧ ((stored_history product_id w = []
        ∨ ∃ l, last (stored_history product_id w) = Some l ∧ ¬ same_prices l price_info) →
       r = "updated"
       ∧ stored_history product_id w' = stored_history product_id w ++ [price_info])
    ∧ ((∃ l, last (stored_history product_id w) = Some l ∧ same_prices l price_info) →
       r = "skipped"
       ∧ stored_history product_id w' = stored_history product_id w)
    ∧ (∀ out_of_stock' quantity' last_updated' price_info' w2,
         store_serves raises w2 2 →
         price_pair price_info' = price_pair price_info →
         price_pair <$> last (stored_history product_id w2)
         = price_pair <$> last (stored_history product_id w) →
         (update_price_history raises product_id out_of_stock' quantity' last_updated'
                               price_info' w2).1 = Ret r).
Proof.
  intros [Hget Hset]%store_serves_two.
  rewrite (update_price_history_no_fault raises product_id out_of_stock quantity
             last_updated price_info w Hget Hset).
  eexists _, _. split; [reflexivity|].
  unfold stored_history at 1 2. simpl.
  split; [by rewrite lookup_insert_eq|].
  split; [intros other Hne; by rewrite lookup_insert_ne|].
  split; [done|].
  split; [|split].
  - intros Hch%price_has_changed_true. rewrite Hch. split; [done|].
    unfold stored_history at 1. simpl. by rewrite lookup_insert_eq.
  - intros Hsame%price_has_changed_false. rewrite Hsame. split; [done|].
    unfold stored_history at 1. simpl. by rewrite lookup_insert_eq.
  - intros oos' qty' lu' info' w2 [Hget2 Hset2]%store_serves_two Hpair Hlast.
    rewrite (update_price_history_no_fault raises product_id oos' qty' lu' info' w2
               Hget2 Hset2).
    simpl. by rewrite (price_has_changed_pair _ _ _ _ Hlast Hpair).
Qed.

(** On product 1001, history [{100, 90}], incoming pair {100, 80}. *)
Lemma price_history_appended_iff_prices_differ_witness :
  store_serves never priced_world 2
  ∧ ∃ r w',
      update_price_history never "1001" None (Some "1 ea")
                           (Some "day 2") snapshot_100_80 priced_world = (Ret r, w')
      ∧ r = "updated"
      ∧ stored_history "1001" w' = [snapshot_100_90; snapshot_100_80].
Proof.
  assert (Hok : store_serves never priced_world 2) by (intros k _; reflexivity).
  split; [exact Hok|].
  destruct (price_history_appended_iff_prices_differ never "1001"
              None (Some "1 ea") (Some "day 2") snapshot_100_80 priced_world Hok)
    as (r & w' & Hrun & _ & _ & _ & Hupd & _).
  exists r, w'. split; [exact Hrun|].
  apply Hupd. right. exists snapshot_100_90. split; [reflexivity|].
  intros [_ Hsell]. discriminate Hsell.
Defined.

(** C3.  Two calls in a row for the same product with the same price pair
    (timestamps and other fields may differ), the store calls succeeding:
    either both answer "skipped" and the history is unchanged, or the
    first answers "updated", the second "skipped", and the history has
    grown by the first record only.  The second call never appends: at
    most one record is added in total, a product without history ends
    with exactly one, the history ends with a record of that price pair,
    and a history in which no two neighbours carry the same pair stays
    so, which leaves exactly one entry for the unchanged pair. *)
Theorem price_sync_idempotent
    (raises : call → nat → bool) (product_id : string)
    (out_of_stock1 quantity1 last_updated1 : value) (price_info1 : PriceInfo)
    (out_of_stock2 quantity2 last_updated2 : value) (price_info2 : PriceInfo)
    (w : World) :
  same_prices price_info1 price_info2 →
  store_serves raises w 4 →
  ∃ r1 w1 r2 w2,
    update_price_history raises product_id out_of_stock1 quantity1 last_updated1
                         price_info1 w = (Ret r1, w1)
    ∧ update_price_history raises product_id out_of_stock2 quantity2 last_updated2
                           price_info2 w1 = (Ret r2, w2)
    ∧ ((r1 = "skipped" ∧ r2 = "skipped"
        ∧ stored_history product_id w2 = stored_history product_id w)
       ∨ (r1 = "updated" ∧ r2 = "skipped"
          ∧ stored_history product_id w2 = stored_history product_id w ++ [price_info1]))
    ∧ length (stored_history product_id w2) ≤ S (length (stored_history product_id w))
    ∧ (stored_history product_id w = [] → stored_history product_id w2 = [price_info1])
    ∧ (∃ e, last (stored_history product_id w2) = Some e ∧ same_prices e price_info1)
    ∧ (no_adjacent_same (stored_history product_id w) →
       no_adjacent_same (stored_history product_id w2)).
Proof.
  intros Hsame Hok.
  assert (H0 : raises CStore (now w) = false) by (rewrite <- (Nat.add_0_r (now w)); apply Hok; lia).
  assert (H1 : raises CStore (S (now w)) = false)
    by (replace (S (now w)) with (now w + 1) by lia; apply Hok; lia).
  pose proof (update_price_history_no_fault raises product_id out_of_stock1 quantity1
                last_updated1 price_info1 w H0 H1) as Hrun1.
  simpl in Hrun1.
  set (hist := stored_history product_id w) in *.
  set (changed := price_has_changed hist price_info1) in *.
  set (hist1 := if changed then hist ++ [price_info1] else hist) in *.
  set (w1 := set_emart_price _ _) in Hrun1.
  assert (Hnow : now w1 = now w + 2).
  { unfold w1, now, set_emart_price, extend. simpl. rewrite length_app. simpl. lia. }
  assert (H2 : raises CStore (now w1) = false) by (rewrite Hnow; apply Hok; lia).
  assert (H3 : raises CStore (S (now w1)) = false)
    by (rewrite Hnow; replace (S (now w + 2)) with (now w + 3) by lia; apply Hok; lia).
  pose proof (update_price_history_no_fault raises product_id out_of_stock2 quantity2
                last_updated2 price_info2 w1 H2 H3) as Hrun2.
  simpl in Hrun2.
  assert (Hst1 : stored_history product_id w1 = hist1).
  { unfold stored_history, w1. simpl. by rewrite lookup_insert_eq. }
  assert (Hskip : price_has_changed (stored_history product_id w1) price_info2 = false).
  { rewrite Hst1. apply price_has_changed_false. unfold hist1.
    destruct changed eqn:Hch.
    - exists price_info1. split; [apply last_snoc | done].
    - apply price_has_changed_false in Hch as (l & Hl & [Ho Hs]).
      exists l. split; [done|]. destruct Hsame as [Ho' Hs'].
      split; congruence. }
  rewrite Hskip in Hrun2.
  set (w2 := set_emart_price _ _) in Hrun2.
  exists (if changed then "updated" else "skipped"), w1, "skipped", w2.
  split; [exact Hrun1|]. split; [exact Hrun2|].
  assert (Hst2 : stored_history product_id w2 = hist1).
  { unfold stored_history at 1, w2. simpl. rewrite lookup_insert_eq. simpl. exact Hst1. }
  rewrite Hst2. unfold hist1. destruct changed eqn:Hch.
  - split; [by right|]. split; [rewrite length_app; simpl; lia|].
    split; [by intros ->|]. split.
    + exists price_info1. split; [apply last_snoc | done].
    + intros Hadj. apply no_adjacent_same_snoc; [done|].
      by apply price_has_changed_true.
  - split; [by left|]. split; [lia|]. split.
    + intros Hnil. unfold changed in Hch. rewrite Hnil in Hch. done.
    + split; [|done]. by apply price_has_changed_false.
Qed.

(** On a product without history, the pair {100, 90} seen on two days. *)
Lemma price_sync_idempotent_witness :
  same_prices snapshot_100_90 snapshot_100_90_later
  ∧ store_serves never empty_dir_world 4
  ∧ ∃ r1 w1 r2 w2,
      update_price_history never "1001" None (Some "1 ea") (Some "day 1")
                           snapshot_100_90 empty_dir_world = (Ret r1, w1)
      ∧ update_price_history never "1001" None (Some "1 ea") (Some "day 2")
                             snapshot_100_90_later w1 = (Ret r2, w2)
      ∧ stored_history "1001" w2 = [snapshot_100_90].
Proof.
  assert (Hsame : same_prices snapshot_100_90 snapshot_100_90_later) by (split; reflexivity).
  assert (Hok : store_serves never empty_dir_world 4) by (intros k _; reflexivity).
  split; [exact Hsame|]. split; [exact Hok|].
  destruct (price_sync_idempotent never "1001" None (Some "1 ea") (Some "day 1")
              snapshot_100_90 None (Some "1 ea") (Some "day 2") snapshot_100_90_later
              empty_dir_world Hsame Hok)
    as (r1 & w1 & r2 & w2 & Hrun1 & Hrun2 & _ & _ & Hfresh & _).
  exists r1, w1, r2, w2. split; [exact Hrun1|]. split; [exact Hrun2|].
  apply Hfresh. reflexivity.
Defined.

(** The example of the specification. *)
Example history_100_90_then_same_then_100_80 :
  let first := update_price_history never "1001" None (Some "1 ea") (Some "day 2")
                                    snapshot_100_90_later priced_world in
  let second := update_price_history never "1001" None (Some "1 ea") (Some "day 2")
                                     snapshot_100_80 first.2 in
  first.1 = Ret "skipped"
  ∧ stored_history "1001" first.2 = [snapshot_100_90]
  ∧ second.1 = Ret "updated"
  ∧ stored_history "1001" second.2 = [snapshot_100_90; snapshot_100_80].
Proof. vm_compute. repeat split; reflexivity. Qed.

Section MoreFacts.
Variable raises : call → nat → bool.
Variable stop_event : option Event.

Lemma file_loop_result beacon json_files :
  ∀ w, ∃ r w',
    file_loop raises stop_event beacon json_files w = (r, w')
    ∧ (r = Ret None ∨ (∃ e, r = Raise e) ∨ ∃ msg, r = Ret (Some (stopped msg w'))).
Proof.
  induction json_files as [|p ps IH]; intros w.
  - exists (Ret None), w. split; [done | by left].
  - cbn [file_loop]. unfold mbind, M_bind, _should_stop.
    destruct (flag_at stop_event (now w)); simpl.
    { eexists _, _. split; [reflexivity|]. right; right. by eexists. }
    unfold load. simpl.
    destruct (snapshots w !! p) as [products|]; simpl;
      [|eexists _, _; split; [reflexivity|]; right; left; by eexists].
    unfold external.
    destruct (raises CLoad _); simpl;
      [eexists _, _; split; [reflexivity|]; right; left; by eexists|].
    destruct (doc_loop_spec raises stop_event beacon p products
                (log (EvLoad p) (log (EvStop FileLoop false) w)))
      as (evs_d & b & w1 & Hrun1 & _). rewrite Hrun1.
    destruct b.
    { unfold gets. simpl. eexists _, _. split; [reflexivity|].
      right; right. by eexists. }
    unfold try_catch, os_remove, external.
    destruct (raises CRemove (now w1)); simpl; apply IH.
Qed.

Lemma upload_result_counters directory_path w :
  ∃ res w',
    upload_json_to_firestore raises stop_event directory_path w = (Ret res, w')
    ∧ (counters res = None ∨ counters res = Some (counters_of w')).
Proof.
  unfold upload_json_to_firestore, mbind, M_bind, _should_stop.
  destruct (flag_at stop_event (now w)); simpl.
  { eexists _, _. split; [reflexivity | by left]. }
  unfold try_catch at 1. unfold initialize_firebase, external, mbind, M_bind.
  destruct (raises CInit _); simpl.
  { eexists _, _. split; [reflexivity | by left]. }
  unfold try_catch, glob, mbind, M_bind. simpl.
  case_bool_decide; simpl.
  { eexists _, _. split; [reflexivity | by left]. }
  unfold modify. simpl.
  match goal with
  | |- context [file_loop _ _ ?b ?fs ?w0] =>
      destruct (file_loop_result b fs w0) as (r & w1 & Hrun & Hr)
  end.
  rewrite Hrun. destruct Hr as [->|[[e ->]|[msg ->]]]; simpl.
  - unfold gets. simpl. destruct (flag_at stop_event (now w1)); simpl.
    + eexists _, _. split; [reflexivity | by right].
    + unfold _notify_embedding_server, external.
      destruct (raises CNotify _); simpl.
      * eexists _, _. split; [reflexivity | by left].
      * eexists _, _. split; [reflexivity | by right].
  - eexists _, _. split; [reflexivity | by left].
  - eexists _, _. split; [reflexivity | by right].
Qed.

Lemma doc_loop_checks beacon json_file products :
  ∀ w, ∃ evs b w',
    doc_loop raises stop_event beacon json_file products w = (Ret b, w')
    ∧ trace w' = trace w ++ evs
    ∧ snapshots w' = snapshots w
    ∧ (∀ i s c, evs !! i = Some (EvStop s c) →
                s = DocLoop json_file ∧ c = flag_at stop_event (now w + i))
    ∧ if b
      then ∃ body, evs = body ++ [EvStop (DocLoop json_file) true]
                   ∧ Forall (record_event json_file) body
                   ∧ doc_checks body < length products
      else Forall (record_event json_file) evs
           ∧ doc_checks evs = length products.
Proof.
  induction products as [|product rest IH]; intros w; simpl.
  - exists [], false, w. rewrite app_nil_r. repeat split; done.
  - unfold mbind, M_bind, _should_stop.
    destruct (flag_at stop_event (now w)) eqn:Hflag; simpl.
    + eexists _, true, _. split; [reflexivity|]. simpl.
      split; [done|]. split; [done|]. split.
      * intros [|i] s c Hi; [|done]. injection Hi as <- <-.
        by rewrite Nat.add_0_r, Hflag.
      * exists []. repeat split; [constructor | unfold doc_checks; simpl; lia].
    + destruct (upload_record_spec raises beacon product
                  (log (EvStop (DocLoop json_file) false) w))
        as (evs1 & w1 & Hrun1 & Htr1 & Hst1 & Hsn1).
      rewrite Hrun1.
      destruct (IH w1) as (evs2 & b & w2 & Hrun2 & Htr2 & Hsn2 & Htime & Hshape).
      rewrite Hrun2. exists (EvStop (DocLoop json_file) false :: evs1 ++ evs2), b, w2.
      split; [done|]. split.
      { rewrite Htr2, Htr1. simpl. rewrite <- !app_assoc. done. }
      split; [by rewrite Hsn2, Hsn1|].
      assert (Hrec : Forall (record_event json_file)
                       (EvStop (DocLoop json_file) false :: evs1)).
      { constructor; [by left|]. eapply Forall_impl; [exact Hst1|]. by right. }
      assert (Hnow : now w1 = S (now w) + length evs1).
      { unfold now. rewrite Htr1. simpl. rewrite !length_app. simpl. lia. }
      split.
      { intros [|i] s c Hi.
        - injection Hi as <- <-. by rewrite Nat.add_0_r, Hflag.
        - simpl in Hi. destruct (decide (i < length evs1)) as [Hlt|Hge].
          + rewrite lookup_app_l in Hi by done.
            rewrite Forall_forall in Hst1.
            apply list_elem_of_lookup_2, Hst1 in Hi. done.
          + rewrite lookup_app_r in Hi by lia.
            destruct (Htime _ _ _ Hi) as [-> ->]. split; [done|].
            f_equal. rewrite Hnow. lia. }
      destruct b.
      * destruct Hshape as (body & -> & Hbody & Hlt).
        exists (EvStop (DocLoop json_file) false :: evs1 ++ body).
        split; [simpl; by rewrite app_assoc|].
        split; [rewrite app_comm_cons; by apply Forall_app|].
        change (EvStop (DocLoop json_file) false :: evs1 ++ body)
          with ([EvStop (DocLoop json_file) false] ++ evs1 ++ body).
        rewrite !doc_checks_app, (doc_checks_store evs1 Hst1).
        unfold doc_checks at 1. simpl. lia.
      * destruct Hshape as [Hbody Hcount]. split.
        -- rewrite app_comm_cons. by apply Forall_app.
        -- change (EvStop (DocLoop json_file) false :: evs1 ++ evs2)
             with ([EvStop (DocLoop json_file) false] ++ evs1 ++ evs2).
           rewrite !doc_checks_app, (doc_checks_store evs1 Hst1), Hcount. done.
Qed.

End MoreFacts.



Lemma price_path_fault (raises : call → nat → bool) product_id product w :
  raises CStore (now w) = true
  ∨ (raises CStore (now w) = false ∧ raises CStore (S (now w)) = true) →
  ∃ evs,
    update_price_history raises product_id (product !! "out_of_stock")
      (product !! "quantity") (product !! "last_updated")
      (mkPriceInfo (product !! "original_price") (product !! "selling_price")
                   (product !! "last_updated")) w
    = (Ret "error", extend evs w)
    ∧ price_path raises product_id product w = (Ret tt, extend evs w).
Proof.
  intros [Hget|[Hget Hset]]; unfold price_path, mbind, M_bind.
  - rewrite update_price_history_get_fault by done. by eexists.
  - rewrite update_price_history_set_fault by done. by eexists.
Qed.

Lemma product_path_fault (raises : call → nat → bool) product_id product w :
  raises CStore (now w) = true
  ∨ (raises CStore (now w) = false ∧ raises CStore (S (now w)) = true) →
  ∃ evs, product_path raises product_id product w = (Ret tt, extend evs w).
Proof.
  unfold product_path, try_catch, mbind, M_bind, product_get, product_update,
    product_set, external, gets, modify, mret, M_ret.
  intros [Hget|[Hget Hset]]; rewrite Hget; simpl.
  - by exists [EvGet "emart_product" product_id].
  - destruct (emart_product w !! product_id) as [existing_data|]; simpl.
    + destruct (bool_decide _ || bool_decide _); simpl; rewrite upload_now_log, Hset; simpl;
        eexists; rewrite !upload_log_extend, !upload_extend_extend; reflexivity.
    + rewrite upload_now_log, Hset. simpl.
      eexists. rewrite !upload_log_extend, !upload_extend_extend. reflexivity.
Qed.

(** C8, amended.  The counters of a result are the five tallies
    [price_updated], [price_skipped], [product_new], [product_updated] and
    [product_skipped]; there is no tally of errors.  When a call to the
    store raises, [update_price_history] answers "error", and both the
    price step and the product step of the record return normally with
    the store and the five counts untouched.  The record loop never
    raises, and unless it is stopped it goes through all the records of
    the file. *)
Theorem upload_counters_have_five_tallies :
  (∀ (raises : call → nat → bool) (stop_event : option Event)
     (directory_path : string) (w : World),
     ∃ res w',
       upload_json_to_firestore raises stop_event directory_path w = (Ret res, w')
       ∧ ∀ d, counters res = Some d →
              d = counters_of w' ∧ d.*1 = counter_keys ∧ dict_get "errors" d = None)
  ∧ (∀ (raises : call → nat → bool) (product_id : string) (product : Product) (w : World),
       raises CStore (now w) = true
       ∨ (raises CStore (now w) = false ∧ raises CStore (S (now w)) = true) →
       ∃ evs,
         update_price_history raises product_id (product !! "out_of_stock")
           (product !! "quantity") (product !! "last_updated")
           (mkPriceInfo (product !! "original_price") (product !! "selling_price")
                        (product !! "last_updated")) w
         = (Ret "error", extend evs w)
         ∧ price_path raises product_id product w = (Ret tt, extend evs w))
  ∧ (∀ (raises : call → nat → bool) (product_id : string) (product : Product) (w : World),
       raises CStore (now w) = true
       ∨ (raises CStore (now w) = false ∧ raises CStore (S (now w)) = true) →
       ∃ evs, product_path raises product_id product w = (Ret tt, extend evs w))
  ∧ (∀ (raises : call → nat → bool) (stop_event : option Event) (beacon : Z)
       (json_file : path) (products : list Product) (w : World),
       ∃ evs b w',
         doc_loop raises stop_event beacon json_file products w = (Ret b, w')
         ∧ trace w' = trace w ++ evs
         ∧ (b = false → doc_checks evs = length products)).
Proof.
  split; [|split; [|split]].
  - intros raises stop_event directory_path w.
    destruct (upload_result_counters raises stop_event directory_path w)
      as (res & w' & Hrun & Hc).
    exists res, w'. split; [done|]. intros d Hd.
    destruct Hc as [Hc|Hc]; rewrite Hc in Hd; [done|]. injection Hd as <-. done.
  - apply price_path_fault.
  - apply product_path_fault.
  - intros raises stop_event beacon json_file products w.
    destruct (doc_loop_spec raises stop_event beacon json_file products w)
      as (evs & b & w' & Hrun & Htr & _ & Hshape).
    exists evs, b, w'. split; [done|]. split; [done|]. intros ->. by destruct Hshape.
Qed.

(** C8 as stated fails: in a run over two records in which the first
    read of the price collection raises, that record is classified
    "error" and never stored, the run succeeds, and the counters it
    returns have no "errors" entry and count one price record only. *)
Lemma upload_failed_write_is_not_tallied :
  ∃ res w',
    upload_json_to_firestore first_price_read_fails None "result_json" two_records_world
    = (Ret res, w')
    ∧ status res = "success"
    ∧ counters res = Some [ ("price_updated", 1); ("price_skipped", 0);
                            ("product_new", 2); ("product_updated", 0);
                            ("product_skipped", 0) ]
    ∧ (∀ d, counters res = Some d → dict_get "errors" d = None)
    ∧ (update_price_history first_price_read_fails "1001" None (Some "1 ea")
         (Some "2024-01-02T00:00:00")
         (mkPriceInfo (Some "100") (Some "90") (Some "2024-01-02T00:00:00"))
         (extend [EvStop AtStart false; EvInit; EvGlob "result_json";
                  EvStop FileLoop false; EvLoad fruits_json;
                  EvStop (DocLoop fruits_json) false] two_records_world)).1
      = Ret "error"
    ∧ emart_price w' !! "1001" = None
    ∧ is_Some (emart_price w' !! "1002").
Proof.
  eexists _, _. split; [vm_compute; reflexivity|].
  split; [reflexivity|]. split; [reflexivity|].
  split; [intros d [= <-]; reflexivity|].
  split; [vm_compute; reflexivity|].
  split; [vm_compute; reflexivity|].
  vm_compute. eexists. reflexivity.
Qed.

Lemma glob_empty directory_path (w : World) :
  (∀ name, snapshots w !! (directory_path, name) = None) →
  filter (λ p : path, p.1 = directory_path) (map_to_list (snapshots w)).*1 = [].
Proof.
  intros Hnone. apply elem_of_nil_inv. intros [d name] [Hd Hp]%list_elem_of_filter.
  simpl in Hd. subst d.
  apply list_elem_of_fmap in Hp as ([k v] & Hk & Hkv). simpl in Hk. subst k.
  apply elem_of_map_to_list in Hkv. by rewrite Hnone in Hkv.
Qed.

(** C10.  When the directory holds no JSON file, the run returns a result
    without counters, having made no call to the store, to [os.remove] or
    to the embedding server, and the collections and the files are as
    they were.  Unless the run was stopped before it started or Firebase
    failed to initialise (the two checks made before the directory is
    listed), the result is a "warning" whose message names the directory,
    after three calls only: the stop check, the initialisation and the
    listing. *)
Theorem upload_empty_directory_warns
    (raises : call → nat → bool) (stop_event : option Event)
    (directory_path : string) (w : World) :
  (∀ name, snapshots w !! (directory_path, name) = None) →
  ∃ res evs,
    upload_json_to_firestore raises stop_event directory_path w
    = (Ret res, extend evs w)
    ∧ counters res = None
    ∧ Forall (λ e, ¬ store_event e ∧ (∀ p, e ≠ EvRemove p) ∧ (∀ c, e ≠ EvNotify c)) evs
    ∧ emart_price (extend evs w) = emart_price w
    ∧ emart_product (extend evs w) = emart_product w
    ∧ snapshots (extend evs w) = snapshots w
    ∧ (flag_at stop_event (now w) = false →
       raises CInit (S (now w)) = false →
       status res = "warning"
       ∧ message res = Some ("'" +:+ directory_path +:+ "' 폴더에 JSON 파일이 없습니다.")
       ∧ evs = [EvStop AtStart false; EvInit; EvGlob directory_path]).
Proof.
  intros Hnone.
  unfold upload_json_to_firestore, mbind, M_bind, _should_stop.
  destruct (flag_at stop_event (now w)) eqn:Hflag; simpl.
  { exists (mkResult "stopped" (Some before_start_msg) None None), [EvStop AtStart true].
    split; [done|]. split; [done|].
    split; [repeat constructor; simpl; try tauto; intros; discriminate|].
    repeat split; done. }
  unfold try_catch at 1. unfold initialize_firebase, external, mbind, M_bind.
  rewrite upload_now_log.
  destruct (raises CInit (S (now w))) eqn:Hinit; simpl.
  { exists (mkResult "error" None None (Some (str (Exception CInit)))),
      [EvStop AtStart false; EvInit].
    rewrite !upload_log_extend, !upload_extend_extend.
    split; [done|]. split; [done|].
    split; [repeat constructor; simpl; try tauto; intros; discriminate|].
    repeat split; done. }
  unfold try_catch, glob, mbind, M_bind. simpl.
  case_bool_decide as Hnil; [|exfalso; apply Hnil; exact (glob_empty directory_path w Hnone)].
  simpl.
  exists (mkResult "warning" (Some (no_files_msg directory_path)) None None),
    [EvStop AtStart false; EvInit; EvGlob directory_path].
  rewrite !upload_log_extend, !upload_extend_extend.
  split; [done|]. split; [done|].
  split; [repeat constructor; simpl; try tauto; intros; discriminate|].
  repeat split; done.
Qed.

(** On an empty [result_json], without stop event. *)
Lemma upload_empty_directory_warns_witness :
  (∀ name, snapshots empty_dir_world !! ("result_json", name) = None)
  ∧ ∃ res evs,
      upload_json_to_firestore never None "result_json" empty_dir_world
      = (Ret res, extend evs empty_dir_world)
      ∧ status res = "warning"
      ∧ message res = Some "'result_json' 폴더에 JSON 파일이 없습니다."
      ∧ counters res = None
      ∧ evs = [EvStop AtStart false; EvInit; EvGlob "result_json"].
Proof.
  assert (Hnone : ∀ name, snapshots empty_dir_world !! ("result_json", name) = None)
    by (intros name; apply lookup_empty).
  split; [exact Hnone|].
  destruct (upload_empty_directory_warns never None "result_json" empty_dir_world Hnone)
    as (res & evs & Hrun & Hc & _ & _ & _ & _ & Hwarn).
  destruct (Hwarn eq_refl eq_refl) as (Hst & Hmsg & Hevs).
  exists res, evs. repeat split; assumption.
Defined.

(** ** What a run preserves *)

Section Preserved.

Variable raises : call → nat → bool.
Variable stop_event : option Event.
Variable beacon : Z.

(** A relation between the state before and the state after that every
    step of a run respects. *)
Variable R : World → World → Prop.
Hypothesis R_refl : ∀ w, R w w.
Hypothesis R_trans : ∀ a b c, R a b → R b c → R a c.
Hypothesis R_log : ∀ e w, ¬ store_event e → R w (log e w).
Hypothesis R_counts : ∀ a b c d e w, R w (set_counts a b c d e w).
Hypothesis R_remove : ∀ p w, R w (set_snapshots (delete p (snapshots w)) w).
Hypothesis R_price :
  (beacon = 1 ∨ beacon = 2)%Z →
  ∀ product_id product w, R w (price_path raises product_id product w).2.
Hypothesis R_product :
  (beacon = 1 ∨ beacon = 3)%Z →
  ∀ product_id product w, R w (product_path raises product_id product w).2.

Lemma upload_record_preserves product w :
  R w (upload_record raises beacon product w).2.
Proof.
  unfold upload_record.
  destruct (product !! "id") as [product_id|]; [|apply R_refl].
  destruct (truthy product_id); [|apply R_refl].
  unfold mbind, M_bind.
  case_bool_decide as Hp.
  - destruct (price_path_spec raises product_id product w) as (evs1 & w1 & Hrun1 & _).
    pose proof (R_price Hp product_id product w) as H1. rewrite Hrun1 in *. simpl in H1.
    case_bool_decide as Hq; [|done].
    eapply R_trans; [exact H1|]. by apply R_product.
  - simpl. case_bool_decide as Hq; [|apply R_refl]. by apply R_product.
Qed.

Lemma doc_loop_preserves json_file products :
  ∀ w, R w (doc_loop raises stop_event beacon json_file products w).2.
Proof.
  induction products as [|product rest IH]; intros w; simpl; [apply R_refl|].
  unfold mbind, M_bind, _should_stop.
  destruct (flag_at stop_event (now w)); simpl.
  { apply R_log; simpl; tauto. }
  pose proof (upload_record_preserves product (log (EvStop (DocLoop json_file) false) w))
    as Hrec.
  destruct (upload_record_spec raises beacon product
              (log (EvStop (DocLoop json_file) false) w)) as (evs1 & w1 & Hrun1 & _).
  rewrite Hrun1 in *. simpl in Hrec.
  eapply R_trans; [apply (R_log (EvStop (DocLoop json_file) false)); simpl; tauto|].
  eapply R_trans; [exact Hrec|]. apply IH.
Qed.

Lemma file_loop_preserves json_files :
  ∀ w, R w (file_loop raises stop_event beacon json_files w).2.
Proof.
  induction json_files as [|p ps IH]; intros w; [apply R_refl|].
  cbn [file_loop]. unfold mbind, M_bind, _should_stop.
  destruct (flag_at stop_event (now w)); simpl.
  { apply R_log; simpl; tauto. }
  eapply R_trans; [apply (R_log (EvStop FileLoop false)); simpl; tauto|].
  unfold load. simpl.
  destruct (snapshots w !! p) as [products|]; simpl; [|apply R_log; simpl; tauto].
  unfold external.
  destruct (raises CLoad _); simpl; [apply R_log; simpl; tauto|].
  eapply R_trans; [apply (R_log (EvLoad p)); simpl; tauto|].
  pose proof (doc_loop_preserves p products
                (log (EvLoad p) (log (EvStop FileLoop false) w))) as Hdoc.
  destruct (doc_loop_spec raises stop_event beacon p products
              (log (EvLoad p) (log (EvStop FileLoop false) w)))
    as (evs_d & b & w1 & Hrun1 & _). rewrite Hrun1 in *. simpl in Hdoc.
  eapply R_trans; [exact Hdoc|].
  destruct b; [apply R_refl|].
  unfold try_catch, os_remove, external.
  destruct (raises CRemove (now w1)); simpl.
  - eapply R_trans; [apply (R_log (EvRemove p)); simpl; tauto|]. apply IH.
  - unfold modify. simpl.
    eapply R_trans; [apply (R_log (EvRemove p)); simpl; tauto|].
    eapply R_trans; [apply (R_remove p)|]. apply IH.
Qed.

Lemma upload_preserves directory_path w :
  beacon = beacon_of directory_path →
  R w (upload_json_to_firestore raises stop_event directory_path w).2.
Proof.
  intros Hbeacon.
  unfold upload_json_to_firestore, mbind, M_bind, _should_stop.
  destruct (flag_at stop_event (now w)); simpl.
  { apply R_log; simpl; tauto. }
  eapply R_trans; [apply (R_log (EvStop AtStart false)); simpl; tauto|].
  unfold try_catch at 1. unfold initialize_firebase, external, mbind, M_bind.
  destruct (raises CInit _); simpl.
  { apply R_log; simpl; tauto. }
  eapply R_trans; [apply (R_log EvInit); simpl; tauto|].
  unfold try_catch, glob, mbind, M_bind. simpl.
  eapply R_trans; [apply (R_log (EvGlob directory_path)); simpl; tauto|].
  case_bool_decide; simpl; [apply R_refl|].
  unfold modify. simpl.
  eapply R_trans; [apply (R_counts 0 0 0 0 0)|].
  rewrite <- Hbeacon.
  match goal with
  | |- context [file_loop _ _ _ ?fs ?w0] =>
      pose proof (file_loop_preserves fs w0) as Hloop;
      destruct (file_loop_result raises stop_event beacon fs w0) as (r & w1 & Hrun & Hr)
  end.
  rewrite Hrun in *. simpl in Hloop.
  eapply R_trans; [exact Hloop|].
  destruct Hr as [->|[[e ->]|[msg ->]]]; simpl; try apply R_refl.
  unfold gets. simpl. destruct (flag_at stop_event (now w1)); simpl.
  - apply R_log; simpl; tauto.
  - unfold _notify_embedding_server, external.
    eapply R_trans; [apply (R_log (EvStop BeforeNotify false)); simpl; tauto|].
    destruct (raises CNotify _); simpl; apply R_log; simpl; tauto.
Qed.

End Preserved.

(** ** The effect of the two steps of a record *)

Section Effects.

Variable raises : call → nat → bool.

Lemma price_path_effect product_id product w :
  let info := mkPriceInfo (product !! "original_price") (product !! "selling_price")
                          (product !! "last_updated") in
  ∃ evs w',
    price_path raises product_id product w = (Ret tt, w')
    ∧ trace w' = trace w ++ evs
    ∧ Forall (on_collection "emart_price") evs
    ∧ emart_product w' = emart_product w
    ∧ product_total w' = product_total w
    ∧ price_total w ≤ price_total w' ≤ price_total w + 1
    ∧ ((∀ t, raises CStore t = false) → price_total w' = price_total w + 1)
    ∧ (∀ other, other ≠ product_id → emart_price w' !! other = emart_price w !! other)
    ∧ (is_Some (emart_price w !! product_id) → is_Some (emart_price w' !! product_id))
    ∧ (stored_history product_id w' = stored_history product_id w
       ∨ (stored_history product_id w' = stored_history product_id w ++ [info]
          ∧ price_has_changed (stored_history product_id w) info = true)).
Proof.
  intros info. unfold price_path, mbind, M_bind. fold info.
  destruct (raises CStore (now w)) eqn:Hget.
  - rewrite update_price_history_get_fault by done. simpl.
    eexists _, _. split; [reflexivity|]. unfold price_total, product_total. simpl.
    split; [done|]. split; [repeat constructor|].
    repeat split; try done; try lia.
    + intros Hok. by rewrite Hok in Hget.
    + by left.
  - destruct (raises CStore (S (now w))) eqn:Hset.
    + rewrite update_price_history_set_fault by done. simpl.
      eexists _, _. split; [reflexivity|]. unfold price_total, product_total. simpl.
      split; [done|]. split; [repeat constructor|].
      repeat split; try done; try lia.
      * intros Hok. by rewrite Hok in Hset.
      * by left.
    + rewrite update_price_history_no_fault by done.
      destruct (price_has_changed (stored_history product_id w) info) eqn:Hc; simpl;
        eexists _, _; (split; [reflexivity|]); unfold price_total, product_total,
          stored_history; simpl;
        (split; [done|]); (split; [repeat constructor|]);
        rewrite lookup_insert_eq; simpl.
      * repeat split; try done; try lia.
        -- intros other Hne. by rewrite lookup_insert_ne.
        -- by right.
      * repeat split; try done; try lia.
        -- intros other Hne. by rewrite lookup_insert_ne.
        -- by left.
Qed.

Lemma product_path_effect product_id product w :
  ∃ evs w',
    product_path raises product_id product w = (Ret tt, w')
    ∧ trace w' = trace w ++ evs
    ∧ Forall (on_collection "emart_product") evs
    ∧ emart_price w' = emart_price w
    ∧ price_total w' = price_total w
    ∧ product_total w ≤ product_total w' ≤ product_total w + 1
    ∧ ((∀ t, raises CStore t = false) → product_total w' = product_total w + 1).
Proof.
  unfold product_path, try_catch, mbind, M_bind, product_get, product_update,
    product_set, external, gets, modify, mret, M_ret.
  destruct (raises CStore (now w)) eqn:Hget; simpl.
  { eexists _, _. split; [reflexivity|]. unfold price_total, product_total. simpl.
    split; [done|]. split; [repeat constructor|].
    repeat split; try done; try lia. intros Hok. by rewrite Hok in Hget. }
  destruct (emart_product w !! product_id) as [existing_data|]; simpl.
  - destruct (bool_decide _ || bool_decide _); simpl; rewrite upload_now_log;
      destruct (raises CStore (S (now w))) eqn:Hset; simpl;
      eexists _, _; (split; [reflexivity|]); unfold price_total, product_total; simpl;
      rewrite <- ?app_assoc; simpl;
      (split; [done|]); (split; [repeat constructor|]);
      repeat split; try done; try lia; intros Hok; by rewrite Hok in Hset.
  - rewrite upload_now_log. destruct (raises CStore (S (now w))) eqn:Hset; simpl;
      eexists _, _; (split; [reflexivity|]); unfold price_total, product_total; simpl;
      rewrite <- ?app_assoc; simpl;
      (split; [done|]); (split; [repeat constructor|]);
      repeat split; try done; try lia; intros Hok; by rewrite Hok in Hset.
Qed.

End Effects.

Lemma on_collection_store c e : on_collection c e → store_event e.
Proof. by destruct e. Qed.

Lemma product_path_history raises product_id product w pid :
  stored_history pid (product_path raises product_id product w).2 = stored_history pid w
  ∧ emart_price (product_path raises product_id product w).2 !! pid = emart_price w !! pid.
Proof.
  destruct (product_path_effect raises product_id product w)
    as (evs & w' & -> & _ & _ & Hprice & _).
  unfold stored_history. simpl. by rewrite Hprice.
Qed.

(** X8.  An upload run only ever appends to the price histories: whatever
    the store, the files and the stop event do, the history stored for
    any product before the run is a prefix of the one stored after it, and
    no price document disappears. *)
Theorem upload_price_history_only_grows
    (raises : call → nat → bool) (stop_event : option Event)
    (directory_path : string) (w : World) :
  ∃ res w',
    upload_json_to_firestore raises stop_event directory_path w = (Ret res, w')
    ∧ ∀ product_id,
        stored_history product_id w `prefix_of` stored_history product_id w'
        ∧ (is_Some (emart_price w !! product_id) →
           is_Some (emart_price w' !! product_id)).
Proof.
  destruct (upload_json_to_firestore_spec raises stop_event directory_path w)
    as (evs & res & w' & Hrun & _).
  exists res, w'. split; [done|].
  pose proof (upload_preserves raises stop_event (beacon_of directory_path)
    (λ a b, ∀ pid, stored_history pid a `prefix_of` stored_history pid b
                   ∧ (is_Some (emart_price a !! pid) → is_Some (emart_price b !! pid))))
    as Hpres.
  rewrite <- (f_equal snd Hrun : _ = w'). apply Hpres; try done.
  - intros a b c Hab Hbc pid. destruct (Hab pid), (Hbc pid).
    split; [by etrans | auto].
  - intros _ product_id product a pid.
    destruct (price_path_effect raises product_id product a)
      as (evs1 & a' & -> & _ & _ & _ & _ & _ & _ & Hother & Hsome & Hhist).
    cbv zeta in Hhist. simpl.
    destruct (decide (pid = product_id)) as [->|Hne].
    + split; [|done]. destruct Hhist as [->|[-> _]]; [done|]. by apply prefix_app_r.
    + unfold stored_history. by rewrite (Hother pid Hne).
  - intros _ product_id product a pid.
    destruct (product_path_history raises product_id product a pid) as [-> ->]. done.
Qed.

(** X9.  An upload run keeps the histories free of repetition: a history
    in which no two neighbouring entries carry the same price pair is
    still so after the run, whatever the run did; every entry it appends
    records a change of price. *)
Theorem upload_keeps_histories_without_repetition
    (raises : call → nat → bool) (stop_event : option Event)
    (directory_path : string) (w : World) :
  ∃ res w',
    upload_json_to_firestore raises stop_event directory_path w = (Ret res, w')
    ∧ ∀ product_id,
        no_adjacent_same (stored_history product_id w) →
        no_adjacent_same (stored_history product_id w').
Proof.
  destruct (upload_json_to_firestore_spec raises stop_event directory_path w)
    as (evs & res & w' & Hrun & _).
  exists res, w'. split; [done|].
  pose proof (upload_preserves raises stop_event (beacon_of directory_path)
    (λ a b, ∀ pid, no_adjacent_same (stored_history pid a) →
                   no_adjacent_same (stored_history pid b)))
    as Hpres.
  rewrite <- (f_equal snd Hrun : _ = w'). apply Hpres; try done.
  - intros a b c Hab Hbc pid Ha. by apply Hbc, Hab.
  - intros _ product_id product a pid.
    destruct (price_path_effect raises product_id product a)
      as (evs1 & a' & -> & _ & _ & _ & _ & _ & _ & Hother & _ & Hhist).
    cbv zeta in Hhist. simpl.
    destruct (decide (pid = product_id)) as [->|Hne].
    + destruct Hhist as [->|[-> Hch]]; [done|].
      intros Hadj. apply no_adjacent_same_snoc; [done|].
      by apply price_has_changed_true.
    + unfold stored_history. by rewrite (Hother pid Hne).
  - intros _ product_id product a pid.
    by destruct (product_path_history raises product_id product a pid) as [-> _].
Qed.

(** X10.  The price-only upload ([result_price_json]) never touches the
    product collection, and the upload of the other fields
    ([result_non_price_json]) never touches the price collection: no call
    addresses the other collection and its documents are as they were. *)
Theorem upload_addresses_its_collection_only
    (raises : call → nat → bool) (stop_event : option Event) (w : World) :
  (∃ res evs w',
     upload_id_price_to_firebase raises stop_event w = (Ret res, w')
     ∧ trace w' = trace w ++ evs
     ∧ emart_product w' = emart_product w
     ∧ Forall (λ e, ¬ on_collection "emart_product" e) evs)
  ∧ (∃ res evs w',
       upload_other_info_to_firebase raises stop_event w = (Ret res, w')
       ∧ trace w' = trace w ++ evs
       ∧ emart_price w' = emart_price w
       ∧ Forall (λ e, ¬ on_collection "emart_price" e) evs).
Proof.
  split.
  - unfold upload_id_price_to_firebase.
    destruct (upload_json_to_firestore_spec raises stop_event "result_price_json" w)
      as (evs & res & w' & Hrun & Htr & _).
    pose proof (upload_preserves raises stop_event 2
      (λ a b, emart_product b = emart_product a
              ∧ ∃ evs, trace b = trace a ++ evs
                       ∧ Forall (λ e, ¬ on_collection "emart_product" e) evs)) as Hpres.
    destruct (Hpres) with (directory_path := "result_price_json") (w := w)
      as (Hprod & evs' & Htr' & Hnone); try done.
    + intros a. split; [done|]. exists []. by rewrite app_nil_r.
    + intros a b c (Hab & e1 & Ht1 & Hn1) (Hbc & e2 & Ht2 & Hn2).
      split; [congruence|]. exists (e1 ++ e2).
      split; [by rewrite Ht2, Ht1, app_assoc | by apply Forall_app].
    + intros e a He. split; [done|]. exists [e]. split; [done|].
      constructor; [|done]. intros Hc. by apply He, (on_collection_store _ _ Hc).
    + intros a b c d e a0. split; [done|]. exists []. simpl. by rewrite app_nil_r.
    + intros p a. split; [done|]. exists []. simpl. by rewrite app_nil_r.
    + intros _ product_id product a.
      destruct (price_path_effect raises product_id product a)
        as (evs1 & a' & -> & Ht & Hon & Hprod & _).
      simpl. split; [done|]. exists evs1. split; [done|].
      eapply Forall_impl; [exact Hon|]. intros e He Hc.
      destruct e; simpl in *; congruence.
    + intros [?|?]; done.
    + rewrite Hrun in *. simpl in *.
      exists res, evs', w'. done.
  - unfold upload_other_info_to_firebase.
    destruct (upload_json_to_firestore_spec raises stop_event "result_non_price_json" w)
      as (evs & res & w' & Hrun & Htr & _).
    pose proof (upload_preserves raises stop_event 3
      (λ a b, emart_price b = emart_price a
              ∧ ∃ evs, trace b = trace a ++ evs
                       ∧ Forall (λ e, ¬ on_collection "emart_price" e) evs)) as Hpres.
    destruct (Hpres) with (directory_path := "result_non_price_json") (w := w)
      as (Hprice & evs' & Htr' & Hnone); try done.
    + intros a. split; [done|]. exists []. by rewrite app_nil_r.
    + intros a b c (Hab & e1 & Ht1 & Hn1) (Hbc & e2 & Ht2 & Hn2).
      split; [congruence|]. exists (e1 ++ e2).
      split; [by rewrite Ht2, Ht1, app_assoc | by apply Forall_app].
    + intros e a He. split; [done|]. exists [e]. split; [done|].
      constructor; [|done]. intros Hc. by apply He, (on_collection_store _ _ Hc).
    + intros a b c d e a0. split; [done|]. exists []. simpl. by rewrite app_nil_r.
    + intros p a. split; [done|]. exists []. simpl. by rewrite app_nil_r.
    + intros [?|?]; done.
    + intros _ product_id product a.
      destruct (product_path_effect raises product_id product a)
        as (evs1 & a' & -> & Ht & Hon & Hprice & _).
      simpl. split; [done|]. exists evs1. split; [done|].
      eapply Forall_impl; [exact Hon|]. intros e He Hc.
      destruct e; simpl in *; congruence.
    + rewrite Hrun in *. simpl in *.
      exists res, evs', w'. done.
Qed.

(** ** The counters *)

Section Counters.

Variable raises : call → nat → bool.
Variable stop_event : option Event.
Variable beacon : Z.

Lemma counted_refl exact w : counted beacon exact 0 w w.
Proof.
  unfold counted, price_share, product_share.
  repeat case_bool_decide; repeat split; lia.
Qed.

Lemma counted_trans (e1 e2 e3 : Prop) n m a b c :
  (e3 → e1) → (e3 → e2) →
  counted beacon e1 n a b → counted beacon e2 m b c → counted beacon e3 (n + m) a c.
Proof.
  unfold counted, price_share, product_share.
  intros H1 H2 (Hp1 & Hq1 & He1) (Hp2 & Hq2 & He2).
  repeat case_bool_decide; (split; [lia|]); (split; [lia|]);
    intros H3; specialize (He1 (H1 H3)); specialize (He2 (H2 H3)); lia.
Qed.

Lemma counted_same exact a b :
  price_total b = price_total a → product_total b = product_total a →
  counted beacon exact 0 a b.
Proof. intros Hp Hq. unfold counted. rewrite Hp, Hq. apply counted_refl. Qed.

Lemma counted_weaken n a b : counted beacon False 0 a b → counted beacon False n a b.
Proof.
  unfold counted, price_share, product_share.
  intros (Hp & Hq & _). repeat case_bool_decide; repeat split; try lia; done.
Qed.

Lemma upload_record_counts product w :
  counted beacon (reliable_store raises) (if keyed product then 1 else 0) w
          (upload_record raises beacon product w).2.
Proof.
  unfold upload_record, keyed.
  destruct (product !! "id") as [product_id|]; [|apply counted_refl].
  destruct (truthy product_id); [|apply counted_refl].
  unfold mbind, M_bind, counted, price_share, product_share.
  case_bool_decide as Hp.
  - destruct (price_path_effect raises product_id product w)
      as (evs1 & w1 & -> & _ & _ & _ & Hq1 & Hp1 & He1 & _).
    case_bool_decide as Hq.
    + destruct (product_path_effect raises product_id product w1)
        as (evs2 & w2 & -> & _ & _ & _ & Hp2 & Hq2 & He2).
      simpl. split; [lia|]. split; [lia|]. intros Hok.
      specialize (He1 Hok). specialize (He2 Hok). lia.
    + simpl. split; [lia|]. split; [lia|]. intros Hok. specialize (He1 Hok). lia.
  - simpl. case_bool_decide as Hq.
    + destruct (product_path_effect raises product_id product w)
        as (evs2 & w2 & -> & _ & _ & _ & Hp2 & Hq2 & He2).
      simpl. split; [lia|]. split; [lia|]. intros Hok. specialize (He2 Hok). lia.
    + simpl. repeat split; lia.
Qed.

Lemma doc_loop_counts json_file products :
  ∀ w,
    let run := doc_loop raises stop_event beacon json_file products w in
    counted beacon (reliable_store raises ∧ run.1 = Ret false)
            (keyed_count products) w run.2.
Proof.
  induction products as [|product rest IH]; intros w; simpl.
  { apply counted_same; done. }
  unfold mbind, M_bind, _should_stop.
  destruct (flag_at stop_event (now w)); simpl.
  { unfold counted, price_total, product_total. simpl.
    split; [lia|]. split; [lia|]. by intros [_ ?]. }
  pose proof (upload_record_counts product (log (EvStop (DocLoop json_file) false) w))
    as Hrec.
  destruct (upload_record_spec raises beacon product
              (log (EvStop (DocLoop json_file) false) w)) as (evs1 & w1 & Hrun1 & _).
  rewrite Hrun1 in *. simpl in Hrec.
  specialize (IH w1). simpl in IH.
  unfold keyed_count. rewrite filter_cons.
  replace (length (if decide (keyed product = true)
                   then product :: filter (λ x, keyed x = true) rest
                   else filter (λ x, keyed x = true) rest))
    with ((if keyed product then 1 else 0) + keyed_count rest).
  2:{ unfold keyed_count. destruct (keyed product); by case_decide. }
  eapply counted_trans; [| |exact Hrec|exact IH]; tauto.
Qed.

Lemma keyed_records_ext json_files w w' :
  (∀ p, p ∈ json_files → snapshots w' !! p = snapshots w !! p) →
  keyed_records json_files w' = keyed_records json_files w.
Proof.
  unfold keyed_records. intros Hsame. f_equal.
  apply list_fmap_ext. intros i p Hp.
  rewrite Hsame; [done|]. by eapply list_elem_of_lookup_2.
Qed.

Lemma file_loop_counts json_files :
  NoDup json_files →
  ∀ w,
    let run := file_loop raises stop_event beacon json_files w in
    counted beacon (reliable_store raises ∧ run.1 = Ret None)
            (keyed_records json_files w) w run.2.
Proof.
  induction json_files as [|p ps IH]; intros Hnd w.
  { simpl. apply counted_same; done. }
  apply NoDup_cons in Hnd as [Hnotin Hnd]. specialize (IH Hnd).
  cbn [file_loop]. unfold mbind, M_bind, _should_stop.
  assert (Hstop : ∀ n a b, price_total b = price_total a →
                           product_total b = product_total a →
                           ∀ r : res (option Result), r ≠ Ret None →
                           counted beacon (reliable_store raises ∧ r = Ret None) n a b).
  { intros n a b Hp Hq r Hr. unfold counted. rewrite Hp, Hq.
    split; [lia|]. split; [lia|]. by intros [_ ?]. }
  destruct (flag_at stop_event (now w)); simpl.
  { by apply Hstop. }
  unfold load. simpl.
  unfold keyed_records. rewrite fmap_cons. simpl. fold (keyed_records ps w).
  destruct (snapshots w !! p) as [products|] eqn:Hp; simpl; [|by apply Hstop].
  unfold external.
  destruct (raises CLoad _); simpl; [by apply Hstop|].
  pose proof (doc_loop_counts p products
                (log (EvLoad p) (log (EvStop FileLoop false) w))) as Hdoc.
  destruct (doc_loop_spec raises stop_event beacon p products
              (log (EvLoad p) (log (EvStop FileLoop false) w)))
    as (evs_d & b & w1 & Hrun1 & _ & Hsn1 & _). rewrite Hrun1 in *. simpl in Hdoc, Hsn1.
  assert (Hdoc' : counted beacon (reliable_store raises ∧ b = false)
                          (keyed_count products) w w1).
  { destruct Hdoc as (H1 & H2 & H3). unfold counted.
    split; [exact H1|]. split; [exact H2|]. intros [Hok ->]. by apply H3. }
  destruct b.
  { simpl. destruct Hdoc' as (H1 & H2 & _). unfold counted, price_share, product_share in *.
    repeat case_bool_decide; (split; [lia|]); (split; [lia|]); by intros [_ ?]. }
  unfold try_catch, os_remove, external.
  destruct (raises CRemove (now w1)); simpl.
  - specialize (IH (log (EvRemove p) w1)). simpl in IH.
    rewrite (keyed_records_ext ps w (log (EvRemove p) w1)) in IH.
    2:{ intros q Hq. simpl. by rewrite Hsn1. }
    eapply counted_trans; [| |exact Hdoc'|exact IH]; tauto.
  - unfold modify. simpl.
    specialize (IH (set_snapshots (delete p (snapshots w1)) (log (EvRemove p) w1))).
    simpl in IH.
    rewrite (keyed_records_ext ps w
               (set_snapshots (delete p (snapshots w1)) (log (EvRemove p) w1))) in IH.
    2:{ intros q Hq. simpl. rewrite Hsn1. apply lookup_delete_ne. by intros ->. }
    eapply counted_trans; [| |exact Hdoc'|exact IH]; tauto.
Qed.

End Counters.

Lemma upload_counts (raises : call → nat → bool) (stop_event : option Event)
    directory_path w :
  let n := keyed_records (directory_files directory_path w) w in
  ∃ res w',
    upload_json_to_firestore raises stop_event directory_path w = (Ret res, w')
    ∧ (counters res = None
       ∨ (counters res = Some (counters_of w')
          ∧ price_total w' ≤ price_share (beacon_of directory_path) n
          ∧ product_total w' ≤ product_share (beacon_of directory_path) n
          ∧ (reliable_store raises → status res = "success" →
             price_total w' = price_share (beacon_of directory_path) n
             ∧ product_total w' = product_share (beacon_of directory_path) n))).
Proof.
  intros n.
  unfold upload_json_to_firestore, mbind, M_bind, _should_stop.
  destruct (flag_at stop_event (now w)); simpl.
  { eexists _, _. split; [reflexivity | by left]. }
  unfold try_catch at 1. unfold initialize_firebase, external, mbind, M_bind.
  destruct (raises CInit _); simpl.
  { eexists _, _. split; [reflexivity | by left]. }
  unfold try_catch, glob, mbind, M_bind. simpl.
  fold (directory_files directory_path w).
  destruct (glob_listing directory_path w) as [Hnd _]. simpl in Hnd.
  fold (directory_files directory_path w) in Hnd.
  case_bool_decide; simpl.
  { eexists _, _. split; [reflexivity | by left]. }
  unfold modify. simpl.
  match goal with
  | |- context [file_loop _ _ ?b ?fs ?w0] =>
      pose proof (file_loop_counts raises stop_event b fs Hnd w0) as Hcount;
      destruct (file_loop_result raises stop_event b fs w0) as (r & w1 & Hrun & Hr)
  end.
  rewrite Hrun in *. cbv zeta in Hcount. simpl in Hcount.
  rewrite (keyed_records_ext _ w) in Hcount by done. fold n in Hcount.
  destruct Hcount as (Hp & Hq & Hexact).
  change (price_total (set_counts 0 0 0 0 0 _)) with 0 in *.
  change (product_total (set_counts 0 0 0 0 0 _)) with 0 in *.
  destruct Hr as [->|[[e ->]|[msg ->]]]; simpl.
  - unfold gets. simpl. destruct (flag_at stop_event (now w1)); simpl.
    + eexists _, _. split; [reflexivity|]. right.
      split; [done|]. split; [exact (proj2 Hp)|]. split; [exact (proj2 Hq)|]. done.
    + unfold _notify_embedding_server, external.
      destruct (raises CNotify _); simpl.
      { eexists _, _. split; [reflexivity | by left]. }
      eexists _, _. split; [reflexivity|]. right.
      split; [done|]. split; [exact (proj2 Hp)|]. split; [exact (proj2 Hq)|].
      intros Hok _. by apply Hexact.
  - eexists _, _. split; [reflexivity | by left].
  - eexists _, _. split; [reflexivity|]. right.
    split; [done|]. split; [exact (proj2 Hp)|]. split; [exact (proj2 Hq)|]. done.
Qed.

(** X11.  The counters a run returns account for the records of the
    directory: the price tallies together, and the product tallies
    together, never exceed the number of records with a non-empty id in
    the files of the directory; and when the run succeeds and no call to
    the store failed, each equals that number for the steps the directory
    asks for (both for [result_json], the price step only for
    [result_price_json], the product step only otherwise), so that every
    such record is tallied exactly once by each step. *)
Theorem upload_counters_account_for_records
    (raises : call → nat → bool) (stop_event : option Event)
    (directory_path : string) (w : World) :
  ∃ res w',
    upload_json_to_firestore raises stop_event directory_path w = (Ret res, w')
    ∧ ∀ d, counters res = Some d →
        let n := keyed_records (directory_files directory_path w) w in
        d = counters_of w'
        ∧ price_total w' ≤ price_share (beacon_of directory_path) n
        ∧ product_total w' ≤ product_share (beacon_of directory_path) n
        ∧ (reliable_store raises → status res = "success" →
           price_total w' = price_share (beacon_of directory_path) n
           ∧ product_total w' = product_share (beacon_of directory_path) n).
Proof.
  destruct (upload_counts raises stop_event directory_path w) as (res & w' & Hrun & Hc).
  exists res, w'. split; [done|].
  intros d Hd. destruct Hc as [Hc|(Hc & Hrest)]; rewrite Hc in Hd; [done|].
  injection Hd as <-. cbv zeta. by split.
Qed.

(** Two records in one file of [result_json], the store reliable: each
    step tallies two records. *)
Example upload_two_records_counts :
  let run := upload_json_to_firestore never None "result_json" two_records_world in
  keyed_records (directory_files "result_json" two_records_world) two_records_world = 2
  ∧ price_total run.2 = 2
  ∧ product_total run.2 = 2.
Proof. vm_compute. repeat split; reflexivity. Qed.

(** ** The notification and the files *)

Lemma files_run_no_notify json_files evs processed removed out :
  files_run json_files evs processed removed out → ∀ c, EvNotify c ∉ evs.
Proof.
  assert (Hbody : ∀ p body c, Forall (record_event p) body → EvNotify c ∉ body).
  { intros p body c Hb Hin. rewrite Forall_forall in Hb.
    by destruct (Hb _ Hin) as [?|?]. }
  induction 1 as [|p0 ps|p0 ps|p0 ps body Hb
                  |p0 ps body rest processed removed out gone Hb Hrest IH];
    intros c Hin.
  - by apply elem_of_nil in Hin.
  - by apply list_elem_of_singleton in Hin.
  - rewrite !elem_of_cons, elem_of_nil in Hin. by destruct Hin as [?|[?|?]].
  - rewrite !elem_of_cons, elem_of_app, list_elem_of_singleton in Hin.
    destruct Hin as [?|[?|[Hin|?]]]; try done. by eapply Hbody.
  - rewrite !elem_of_cons, elem_of_app, elem_of_cons in Hin.
    destruct Hin as [?|[?|[Hin|[?|Hin]]]]; try done; [by eapply Hbody | by eapply IH].
Qed.

(** X12.  A run calls [_notify_embedding_server] at most once, as its
    last call, right after a stop check that found the flag clear, and
    with the five counters as they stand.  A run that returns "success"
    has made that call, and returns the counters it passed; a run that is
    stopped or finds no file has not made it.  The run that made the
    call returns "error" when an exception leaves
    [_notify_embedding_server], and "success" otherwise. *)
Theorem upload_notifies_once_when_done
    (raises : call → nat → bool) (stop_event : option Event)
    (directory_path : string) (w : World) :
  ∃ evs res w',
    upload_json_to_firestore raises stop_event directory_path w = (Ret res, w')
    ∧ trace w' = trace w ++ evs
    ∧ (status res = "success" → ∃ c, EvNotify c ∈ evs)
    ∧ (status res = "stopped" ∨ status res = "warning" → ∀ c, EvNotify c ∉ evs)
    ∧ (∀ c, EvNotify c ∈ evs →
         c = counters_of w'
         ∧ (∃ l, evs = l ++ [EvStop BeforeNotify false; EvNotify c]
                 ∧ ∀ c', EvNotify c' ∉ l)
         ∧ res = (if raises CNotify (pred (now w'))
                  then mkResult "error" None None (Some (str (Exception CNotify)))
                  else mkResult "success" (Some "All files uploaded successfully.")
                                (Some c) None)).
Proof.
  destruct (upload_json_to_firestore_spec raises stop_event directory_path w)
    as (evs & res & w' & Hrun & Htr & Hcases).
  exists evs, res, w'. split; [done|]. split; [done|].
  assert (Hnotified : ∀ c, EvNotify c ∈ evs →
            c = counters_of w'
            ∧ (∃ l, evs = l ++ [EvStop BeforeNotify false; EvNotify c]
                    ∧ ∀ c', EvNotify c' ∉ l)
            ∧ res = (if raises CNotify (pred (now w'))
                     then mkResult "error" None None (Some (str (Exception CNotify)))
                     else mkResult "success" (Some "All files uploaded successfully.")
                                   (Some c) None)).
  { destruct Hcases as [(-> & -> & _)|[(-> & -> & _)|[(-> & -> & _)|Hfiles]]].
    - intros c Hin. by apply list_elem_of_singleton in Hin.
    - intros c Hin. rewrite !elem_of_cons, elem_of_nil in Hin.
      by destruct Hin as [?|[?|?]].
    - intros c Hin. rewrite !elem_of_cons, elem_of_nil in Hin.
      by destruct Hin as [?|[?|[?|?]]].
    - destruct Hfiles as (json_files & evs_f & processed & removed & out & suffix
                          & -> & _ & _ & Hgram & _ & _ & Hout).
      pose proof (files_run_no_notify _ _ _ _ _ Hgram) as Hnone.
      assert (Hhead : ∀ c', EvNotify c' ∉ EvStop AtStart false :: EvInit
                              :: EvGlob directory_path :: evs_f).
      { intros c'. rewrite !elem_of_cons.
        intros [?|[?|[?|Hc]]]; try done. by apply Hnone in Hc. }
      assert (Hin : ∀ c, EvNotify c ∈ EvStop AtStart false :: EvInit
                           :: EvGlob directory_path :: evs_f ++ suffix
                         → EvNotify c ∈ suffix).
      { intros c. rewrite !app_comm_cons, elem_of_app.
        intros [Hc|?]; [by apply Hhead in Hc | done]. }
      assert (Hsent :
        suffix = [EvStop BeforeNotify false; EvNotify (counters_of w')] →
        ∀ c, EvNotify c ∈ suffix →
          c = counters_of w'
          ∧ ∃ l, EvStop AtStart false :: EvInit :: EvGlob directory_path
                   :: evs_f ++ suffix
                 = l ++ [EvStop BeforeNotify false; EvNotify c]
                 ∧ ∀ c', EvNotify c' ∉ l).
      { intros -> c Hc. rewrite !elem_of_cons, elem_of_nil in Hc.
        destruct Hc as [?|[[= ->]|?]]; try done. split; [done|].
        exists (EvStop AtStart false :: EvInit :: EvGlob directory_path :: evs_f).
        split; [done | exact Hhead]. }
      destruct out.
      + destruct Hout as [[-> ->]|[(Hs & -> & Hraise)|(Hs & -> & Hraise)]].
        * intros c Hc%Hin. by apply list_elem_of_singleton in Hc.
        * intros c Hc%Hin. destruct (Hsent Hs c Hc) as (-> & Hl).
          split; [done|]. split; [exact Hl | by rewrite Hraise].
        * intros c Hc%Hin. destruct (Hsent Hs c Hc) as (-> & Hl).
          split; [done|]. split; [exact Hl | by rewrite Hraise].
      + destruct Hout as [-> ->]. intros c Hc%Hin. by apply elem_of_nil in Hc.
      + destruct Hout as [-> ->]. intros c Hc%Hin. by apply elem_of_nil in Hc.
      + destruct Hout as [-> ->]. intros c Hc%Hin. by apply elem_of_nil in Hc. }
  split; [|split; [|exact Hnotified]].
  - intros Hsuccess.
    destruct Hcases as [(-> & -> & _)|[(-> & -> & _)|[(-> & -> & _)|Hfiles]]];
      try done.
    destruct Hfiles as (json_files & evs_f & processed & removed & out & suffix
                        & -> & _ & _ & _ & _ & _ & Hout).
    destruct out.
    + destruct Hout as [[-> ->]|[(-> & -> & _)|(-> & -> & _)]]; try done.
      exists (counters_of w'). rewrite !elem_of_cons, elem_of_app.
      right; right; right; right. rewrite !elem_of_cons. right; by left.
    + by destruct Hout as [-> ->].
    + by destruct Hout as [-> ->].
    + by destruct Hout as [-> ->].
  - intros Hstatus c Hc.
    destruct (Hnotified c Hc) as (_ & _ & ->).
    destruct (raises CNotify _); by destruct Hstatus.
Qed.

(** Two records uploaded and their file removed, then the notification
    raises: the run returns "error", without counters. *)
Example upload_notification_raises :
  let run := upload_json_to_firestore notification_raises None "result_json"
                                      two_records_world in
  run.1 = Ret (mkResult "error" None None (Some "notification failed"))
  ∧ last (trace run.2)
    = Some (EvNotify [ ("price_updated", 2); ("price_skipped", 0);
                       ("product_new", 2); ("product_updated", 0);
                       ("product_skipped", 0) ])
  ∧ snapshots run.2 !! fruits_json = None.
Proof. repeat split; vm_compute; reflexivity. Qed.

Lemma files_run_all_done json_files evs processed removed :
  files_run json_files evs processed removed AllDone → processed = json_files.
Proof.
  intros Hrun. remember AllDone as out eqn:Hout.
  induction Hrun as [| | | |p0 ps body rest processed removed out gone Hb Hrest IH];
    try done.
  f_equal. by apply IH.
Qed.

Lemma directory_files_spec directory_path w p :
  p ∈ directory_files directory_path w
  ↔ p.1 = directory_path ∧ is_Some (snapshots w !! p).
Proof.
  unfold directory_files. rewrite list_elem_of_filter, list_elem_of_fmap. split.
  - intros [Hd ([k v] & -> & Hkv)]. split; [done|].
    apply elem_of_map_to_list in Hkv. by exists v.
  - intros [Hd [v Hv]]. split; [done|]. exists (p, v). split; [done|].
    by apply elem_of_map_to_list.
Qed.

Lemma upload_snapshots (raises : call → nat → bool) (stop_event : option Event)
    directory_path w :
  ∃ res w' removed,
    upload_json_to_firestore raises stop_event directory_path w = (Ret res, w')
    ∧ (∀ q, snapshots w' !! q
            = if bool_decide (q ∈ removed) then None else snapshots w !! q)
    ∧ (∀ q, q ∈ removed → q ∈ directory_files directory_path w)
    ∧ ((∀ t, raises CRemove t = false) → status res = "success" →
       removed = directory_files directory_path w).
Proof.
  unfold upload_json_to_firestore, mbind, M_bind, _should_stop.
  destruct (flag_at stop_event (now w)); simpl.
  { eexists _, _, []. split; [reflexivity|]. repeat split; try done.
    by intros q ?%elem_of_nil. }
  unfold try_catch at 1. unfold initialize_firebase, external, mbind, M_bind.
  destruct (raises CInit _); simpl.
  { eexists _, _, []. split; [reflexivity|]. repeat split; try done.
    by intros q ?%elem_of_nil. }
  unfold try_catch, glob, mbind, M_bind. simpl.
  fold (directory_files directory_path w).
  destruct (glob_listing directory_path w) as [Hnd Hin]. simpl in Hnd, Hin.
  fold (directory_files directory_path w) in Hnd, Hin.
  case_bool_decide; simpl.
  { eexists _, _, []. split; [reflexivity|]. repeat split; try done.
    by intros q ?%elem_of_nil. }
  unfold modify. simpl.
  match goal with
  | |- context [file_loop _ _ ?b ?fs ?w0] =>
      destruct (file_loop_spec raises stop_event b fs w0 Hnd Hin)
        as (evs_f & processed & removed & out & r & w1
            & Hrun & _ & Hgram & Hrel & Hsn & Hret)
  end.
  rewrite Hrun. simpl in Hsn.
  destruct (files_run_processed _ _ _ _ _ Hgram) as (_ & Hsub & rest & Hsplit & _).
  assert (Hdir : ∀ q, q ∈ removed → q ∈ directory_files directory_path w).
  { intros q Hq. rewrite Hsplit. apply elem_of_app. left. by apply Hsub. }
  destruct out; simpl in Hret; subst r; simpl.
  - unfold gets. simpl.
    apply files_run_all_done in Hgram.
    destruct (flag_at stop_event (now w1)); simpl.
    + eexists _, _, removed. split; [reflexivity|]. repeat split; done.
    + unfold _notify_embedding_server, external.
      destruct (raises CNotify _); simpl.
      { eexists _, _, removed. split; [reflexivity|]. repeat split; done. }
      eexists _, _, removed. split; [reflexivity|]. split; [done|]. split; [done|].
      intros Hok _. by rewrite (Hrel Hok).
  - eexists _, _, removed. split; [reflexivity|]. repeat split; done.
  - eexists _, _, removed. split; [reflexivity|]. repeat split; done.
  - eexists _, _, removed. split; [reflexivity|]. repeat split; done.
Qed.

(** X13.  An upload run never creates or rewrites a snapshot file: a
    file is either as it was or, if it is a file of the directory being
    uploaded, removed; and when the run succeeds and [os.remove] never
    fails, the directory is left without any JSON file, so that the same
    snapshot is not uploaded twice. *)
Theorem upload_only_removes_directory_files
    (raises : call → nat → bool) (stop_event : option Event)
    (directory_path : string) (w : World) :
  ∃ res w',
    upload_json_to_firestore raises stop_event directory_path w = (Ret res, w')
    ∧ (∀ q, snapshots w' !! q = snapshots w !! q
            ∨ (snapshots w' !! q = None ∧ q.1 = directory_path))
    ∧ ((∀ t, raises CRemove t = false) → status res = "success" →
       ∀ name, snapshots w' !! (directory_path, name) = None).
Proof.
  destruct (upload_snapshots raises stop_event directory_path w)
    as (res & w' & removed & Hrun & Hsn & Hdir & Hall).
  exists res, w'. split; [done|]. split.
  - intros q. rewrite Hsn. case_bool_decide as Hq; [|by left].
    right. split; [done|]. by apply Hdir, directory_files_spec in Hq as [? _].
  - intros Hok Hsucc name. rewrite Hsn, (Hall Hok Hsucc).
    case_bool_decide as Hq; [done|].
    destruct (snapshots w !! (directory_path, name)) as [v|] eqn:Hv; [|done].
    exfalso. apply Hq, directory_files_spec. split; [done | by exists v].
Qed.

(** ** The product document *)

Lemma lookup_set_field key v (d : ProductDoc) k :
  set_field key v d !! k = if bool_decide (k = key) then v else d !! k.
Proof.
  unfold set_field. case_bool_decide as Hk.
  - subst k. destruct v; [apply lookup_insert_eq | apply lookup_delete_eq].
  - destruct v; [by apply lookup_insert_ne | by apply lookup_delete_ne].
Qed.

(** X14.  The product step of a record, the two calls to the store
    succeeding.  A product without document gets one made of the six
    catalogue fields of the record and of [is_emb] = "R", prices and stock
    left out.  A product whose stored name and image are those of the
    record has its [last_updated] refreshed and nothing else changed, its
    [is_emb] in particular.  Otherwise name, image and [last_updated] are
    taken from the record, [is_emb] is put back to "R", and the other
    fields stay.  Each case adds one to its own counter; the documents of
    the other products and the price collection are untouched. *)
Theorem product_document_upsert
    (raises : call → nat → bool) (product_id : string) (product : Product) (w : World) :
  store_serves raises w 2 →
  ∃ w',
    product_path raises product_id product w = (Ret tt, w')
    ∧ emart_price w' = emart_price w
    ∧ (∀ other, other ≠ product_id → emart_product w' !! other = emart_product w !! other)
    ∧ ∃ new,
        emart_product w' !! product_id = Some new
        ∧ match emart_product w !! product_id with
          | None =>
              (∀ k, new !! k = if bool_decide (k = "is_emb") then Some "R"
                               else if bool_decide (k ∈ product_keys) then product !! k
                               else None)
              ∧ product_new_count w' = product_new_count w + 1
              ∧ product_updated_count w' = product_updated_count w
              ∧ product_skipped_count w' = product_skipped_count w
          | Some old =>
              if bool_decide (old !! "product_name" = product !! "product_name"
                              ∧ old !! "image_url" = product !! "image_url")
              then
                (∀ k, new !! k = if bool_decide (k = "last_updated")
                                 then product !! "last_updated" else old !! k)
                ∧ product_new_count w' = product_new_count w
                ∧ product_updated_count w' = product_updated_count w
                ∧ product_skipped_count w' = product_skipped_count w + 1
              else
                (∀ k, new !! k = if bool_decide (k = "product_name" ∨ k = "image_url"
                                                 ∨ k = "last_updated")
                                 then product !! k
                                 else if bool_decide (k = "is_emb") then Some "R"
                                 else old !! k)
                ∧ product_new_count w' = product_new_count w
                ∧ product_updated_count w' = product_updated_count w + 1
                ∧ product_skipped_count w' = product_skipped_count w
          end.
Proof.
  intros [Hget Hset]%store_serves_two.
  unfold product_path, try_catch, mbind, M_bind, product_get, product_update,
    product_set, external, gets, modify, mret, M_ret.
  rewrite Hget. simpl.
  destruct (emart_product w !! product_id) as [old|] eqn:Hold; simpl.
  - destruct (bool_decide (old !! "product_name" ≠ product !! "product_name")
              || bool_decide (old !! "image_url" ≠ product !! "image_url")) eqn:Hchg;
      simpl; rewrite upload_now_log, Hset; simpl.
    + eexists. split; [reflexivity|]. simpl. split; [done|].
      split; [intros other Hne; by rewrite lookup_alter_ne|].
      rewrite lookup_alter_eq, Hold. simpl. eexists. split; [reflexivity|].
      rewrite bool_decide_eq_false_2.
      2:{ intros [H1 H2]. apply orb_true_iff in Hchg as [Hc|Hc];
            apply bool_decide_eq_true in Hc; done. }
      split; [|done]. intros k. rewrite !lookup_set_field.
      destruct (decide (k = "product_name")) as [->|H1]; [reflexivity|].
      destruct (decide (k = "image_url")) as [->|H2]; [reflexivity|].
      destruct (decide (k = "last_updated")) as [->|H3]; [reflexivity|].
      rewrite (bool_decide_eq_false_2 (k = "product_name")) by done.
      rewrite (bool_decide_eq_false_2 (k = "image_url")) by done.
      rewrite (bool_decide_eq_false_2 (k = "last_updated")) by done.
      rewrite (bool_decide_eq_false_2 (_ ∨ _)) by tauto.
      destruct (decide (k = "is_emb")) as [->|H4]; [apply lookup_insert_eq|].
      rewrite (bool_decide_eq_false_2 (k = "is_emb")) by done.
      by apply lookup_insert_ne.
    + eexists. split; [reflexivity|]. simpl. split; [done|].
      split; [intros other Hne; by rewrite lookup_alter_ne|].
      rewrite lookup_alter_eq, Hold. simpl. eexists. split; [reflexivity|].
      rewrite bool_decide_eq_true_2.
      2:{ apply orb_false_iff in Hchg as [H1 H2].
          apply bool_decide_eq_false in H1, H2.
          split; [by destruct (decide (old !! "product_name" = product !! "product_name"))
                 | by destruct (decide (old !! "image_url" = product !! "image_url"))]. }
      split; [|done]. intros k. by rewrite lookup_set_field.
  - rewrite upload_now_log, Hset. simpl.
    eexists. split; [reflexivity|]. simpl. split; [done|].
    split; [intros other Hne; by rewrite lookup_insert_ne|].
    rewrite lookup_insert_eq. eexists. split; [reflexivity|].
    split; [|done]. intros k.
    destruct (decide (k = "is_emb")) as [->|Hk]; [apply lookup_insert_eq|].
    rewrite (bool_decide_eq_false_2 (k = "is_emb")) by done.
    etrans; [apply lookup_insert_ne; congruence|].
    destruct (decide (k ∈ product_keys)) as [Hin|Hin].
    + rewrite (bool_decide_eq_true_2 (k ∈ product_keys)) by done.
      destruct (product !! k) as [v|] eqn:Hv.
      * by apply map_lookup_filter_Some.
      * apply map_lookup_filter_None. by left.
    + rewrite (bool_decide_eq_false_2 (k ∈ product_keys)) by done.
      apply map_lookup_filter_None. right. by intros v _.
Qed.

(** A first upload of product 1001 creates its document. *)
Lemma product_document_upsert_witness :
  store_serves never empty_dir_world 2
  ∧ ∃ w' new,
      product_path never "1001" (record_of "1001" "100" "90") empty_dir_world = (Ret tt, w')
      ∧ emart_product w' !! "1001" = Some new
      ∧ new !! "is_emb" = Some "R"
      ∧ new !! "product_name" = Some "apple"
      ∧ new !! "selling_price" = None.
Proof.
  assert (Hok : store_serves never empty_dir_world 2) by (intros k _; reflexivity).
  split; [exact Hok|].
  destruct (product_document_upsert never "1001" (record_of "1001" "100" "90")
              empty_dir_world Hok) as (w' & Hrun & _ & _ & new & Hnew & Hcase).
  exists w', new. split; [exact Hrun|]. split; [exact Hnew|].
  change (emart_product empty_dir_world !! "1001") with (@None ProductDoc) in Hcase.
  destruct Hcase as (Hk & _).
  split; [exact (Hk "is_emb")|]. split; [exact (Hk "product_name")|].
  exact (Hk "selling_price").
Defined.

End UploaderFacts.
(* ===================================================================== *)
(** * Properties of the signal to the embedding server *)
(* ===================================================================== *)

Module NotifierFacts.
Import Notifier.

Lemma rstrip_char_not_end c s : endswith_char (rstrip_char c s) c = false.
Proof.
  induction s as [|a rest IH]; [done|]. simpl.
  destruct (rstrip_char c rest) as [|b r] eqn:Hr.
  - destruct (Ascii.eqb a c) eqn:Hac; [done|]. simpl. exact Hac.
  - exact IH.
Qed.

Lemma substring_all s : String.substring 0 (String.length s) s = s.
Proof. induction s as [|a s IH]; [done|]. simpl. by rewrite IH. Qed.

Lemma prefix_append p r : String.prefix p (p +:+ r) = true.
Proof.
  induction p as [|a p IH]; simpl; [by destruct r|].
  destruct (Ascii.ascii_dec a a); [exact IH | done].
Qed.

Lemma substring_append p r n :
  String.substring (String.length p) n (p +:+ r) = String.substring 0 n r.
Proof. induction p as [|a p IH]; [done|]. exact IH. Qed.

Lemma length_append p r :
  String.length (p +:+ r) = (String.length p + String.length r)%nat.
Proof. induction p as [|a p IH]; [done|]. simpl. by rewrite IH. Qed.

Lemma replace_first_unfold old new s :
  replace_first old new s =
  if String.prefix old s
  then new +:+ String.substring (String.length old)
                                (String.length s - String.length old) s
  else match s with
       | EmptyString => EmptyString
       | String a rest => String a (replace_first old new rest)
       end.
Proof. by destruct s. Qed.

Lemma replace_first_prefix old new r :
  replace_first old new (old +:+ r) = new +:+ r.
Proof.
  rewrite replace_first_unfold, prefix_append, substring_append, length_append.
  replace (String.length old + String.length r - String.length old)%nat
    with (String.length r) by lia.
  by rewrite substring_all.
Qed.

Section NotifyFacts.

Variable strip : string → string.
Variable upper lower : string → string.
Variable float : string → option Q.
Variable urlparse : string → string * option string.
Variable http : request → nat → option http_exn.
Variable environ : gmap string string.

Lemma signal_url_joined u :
  signal_url strip environ = Some u →
  ∃ base path,
    u = base +:+ path
    ∧ endswith_char base slash = false
    ∧ startswith path "/" = true.
Proof.
  unfold signal_url.
  destruct (negb (truthy _)); [done|]. intros [= <-].
  eexists _, _. split; [reflexivity|]. split; [apply rstrip_char_not_end|].
  set (endpoint := if truthy _ then _ else _).
  destruct (startswith endpoint "/") eqn:Hs; [exact Hs|].
  apply (prefix_append "/" endpoint).
Qed.

End NotifyFacts.


End NotifierFacts.
